(** * INSS vs Mutua dashboard: the comparative chart and the ingestion stage

    A shallow embedding of [src/visualizations.py] (class
    [VisualizationManager]) and [src/data_processor.py] (class
    [DataProcessor]), with the constants of [config.py].

    Conventions of the embedding.
    - A float64 cell is a rational or NaN: [float := option Q], [None]
      being NaN (pandas' missing value).  Arithmetic is exact; NaN
      propagates through it and compares false with everything.  There
      is no infinity: the frames are those whose cells are numbers or
      missing.
    - A processed [DataFrame] has float64 columns (read with [num]) and
      object columns (read with [obj]); a frame as [read_excel] delivers
      it is a [RawFrame] of untyped cells.
    - Drawing on a matplotlib [Axes] is a writer effect: every function
      that receives [ax] returns the list of calls it makes on it, in
      order.  The rendering that [plt.tight_layout()] triggers is
      matplotlib's and is a parameter: a function of the calls made
      that returns or raises. *)

From Stdlib Require Import String List Bool Arith Lia.
From Stdlib Require Import QArith Qminmax Qround Lqa Qfield.
From Stdlib Require DecimalString.
Import ListNotations.
Local Open Scope string_scope.
Local Open Scope list_scope.
Local Open Scope Q_scope.

Set Implicit Arguments.

(* ================================================================== *)
(** ** config.py *)

Module Config.

Definition MIN_BAR_HEIGHT : Q := 2 # 10.
Definition MAX_BAR_HEIGHT : Q := 6 # 10.
Definition LEFT_MARGIN : Q := 40.
Definition RIGHT_MARGIN : Q := 40.

Definition light_gray : string := "lightgray".
Definition dark_gray : string := "dimgray".
Definition blue : string := "blue".
Definition black : string := "black".

Definition EDAD_ORDEN : list string :=
  ["16-25"; "26-35"; "36-45"; "46-55"; "56-65"].

Definition MIN_EPISODIOS : Q := 1.
Definition MAX_EPISODIOS : Q := 1000.

(** COLUMN_MAPPING, original name -> internal name, in dict order. *)
Definition COLUMN_MAPPING : list (string * string) :=
  [ ("Des Cie9 3dig", "Diagnóstico");
    ("Gr Ocupac", "Gr Ocupac");
    ("Cod Genero", "Cod Genero");
    ("Gr Edad 10", "Gr Edad 10");
    ("CASO", "Caso");
    ("Count (Id Episodio)", "Count Episodios");
    ("Durestd Inss min", "Durestd Inss min");
    ("Duropt Inss min", "Duropt Inss min");
    ("Minmin", "Minmin");
    ("P20min", "P20min");
    ("P40min", "P40min");
    ("P60min", "P60min");
    ("P80min", "P80min");
    ("P99min", "P99min") ].

Definition NUMERIC_COLUMNS : list string :=
  [ "Durestd Inss min"; "Duropt Inss min"; "Minmin"; "P20min"; "P40min";
    "P60min"; "P80min"; "P99min"; "Count Episodios" ].

Definition PERCENTILE_COLUMNS : list string :=
  [ "Minmin"; "P20min"; "P40min"; "P60min"; "P80min"; "P99min" ].

Definition no_variation : string := "sin variación".

End Config.

(* ================================================================== *)
(** ** Floats with NaN *)

(** A float is NaN or a number, and the arithmetic on numbers is exact.
    Infinities are not values here: a sheet of numbers and blanks gives
    none, they come from a text such as [inf] that [pd.to_numeric]
    reads.  What is stated of numbers below is what rounding keeps:
    which formula is evaluated, values that are copied, and order
    relations that rounding to the nearest preserves. *)
Definition float := option Q.

Definition NaN : float := None.

Definition lift2 (op : Q -> Q -> Q) (a b : float) : float :=
  match a, b with
  | Some x, Some y => Some (op x y)
  | _, _ => None
  end.

Definition fadd := lift2 Qplus.
Definition fsub := lift2 Qminus.
Definition fmul := lift2 Qmult.
Definition fdiv := lift2 Qdiv.

(** [a == q] on floats: false when [a] is NaN. *)
Definition feqb (a : float) (q : Q) : bool :=
  match a with
  | Some x => Qeq_bool x q
  | None => false
  end.

(** [a >= q] and [a <= q] on floats: false when [a] is NaN. *)
Definition fgeb (a : float) (q : Q) : bool :=
  match a with
  | Some x => Qle_bool q x
  | None => false
  end.

Definition fleb (a : float) (q : Q) : bool :=
  match a with
  | Some x => Qle_bool x q
  | None => false
  end.

(** [pd.notna]. *)
Definition notna (a : float) : bool :=
  match a with
  | Some _ => true
  | None => false
  end.

Definition Qltb (x y : Q) : bool := negb (Qle_bool y x).

(** The values of a float series that are not NaN, in order. *)
Fixpoint dropna_values (s : list float) : list Q :=
  match s with
  | [] => []
  | Some x :: s' => x :: dropna_values s'
  | None :: s' => dropna_values s'
  end.

(** Python's [min] and [max] on a non-empty sequence, seeded with its
    first element. *)
Definition min_from (x : Q) (l : list Q) : Q :=
  fold_left (fun m y => if Qltb y m then y else m) l x.

Definition max_from (x : Q) (l : list Q) : Q :=
  fold_left (fun m y => if Qltb m y then y else m) l x.

(** [Series.min()] and [Series.max()]: NaN is skipped; the result is NaN
    when nothing is left. *)
Definition series_min (s : list float) : float :=
  match dropna_values s with
  | [] => NaN
  | x :: l => Some (min_from x l)
  end.

Definition series_max (s : list float) : float :=
  match dropna_values s with
  | [] => NaN
  | x :: l => Some (max_from x l)
  end.

(* ================================================================== *)
(** ** Frames *)

(** An object-dtype cell. *)
Inductive cell : Type :=
| Blank
| Number (q : Q)
| Text (s : string).

(** One row of a processed frame.  [percentiles_iguales] is the value of
    the column of that name; it is read only when the frame has it. *)
Record Row : Type := mkRow {
  num : string -> float;
  obj : string -> cell;
  percentiles_iguales : bool
}.

Record DataFrame : Type := mkFrame {
  columns : list string;
  rows : list Row
}.

(** [col in df.columns]. *)
Definition has_column (cols : list string) (col : string) : bool :=
  existsb (String.eqb col) cols.

(** [df[col]] for a float64 column. *)
Definition column (df : DataFrame) (col : string) : list float :=
  map (fun r => num r col) (rows df).

(** [df.empty]: some axis has length zero. *)
Definition empty (df : DataFrame) : bool :=
  (length (rows df) =? 0)%nat || (length (columns df) =? 0)%nat.

(** A row as [df.iterrows()] yields it: a Series whose index is the
    frame's column list. *)
Record Series : Type := mkSeries {
  index : list string;
  values : Row
}.

Definition iterrows (df : DataFrame) : list Series :=
  map (mkSeries (columns df)) (rows df).

(* ================================================================== *)
(** ** visualizations.py: row heights *)

Definition midpoint : Q :=
  (Config.MIN_BAR_HEIGHT + Config.MAX_BAR_HEIGHT) / 2.

(** [np.full(n, v)]. *)
Definition np_full (n : nat) (v : Q) : list float := repeat (Some v) n.

Definition _calculate_bar_heights (df : DataFrame) : list float :=
  if negb (has_column (columns df) "Count Episodios") then
    np_full (length (rows df)) midpoint
  else
    let counts := column df "Count Episodios" in
    let range_counts := fsub (series_max counts) (series_min counts) in
    if feqb range_counts 0 then
      np_full (length counts) midpoint
    else
      map (fun c =>
             fadd (Some Config.MIN_BAR_HEIGHT)
                  (fmul (fdiv (fsub c (series_min counts)) range_counts)
                        (Some (Config.MAX_BAR_HEIGHT - Config.MIN_BAR_HEIGHT))))
          counts.

(* ================================================================== *)
(** ** Calls on the Axes, and exceptions *)

Definition RGBA : Type := (Q * Q * Q * Q)%type.

(** A colour argument: a named colour, or what the colormap returned. *)
Inductive paint : Type :=
| Named (name : string)
| Mapped (c : RGBA).

Inductive handle : Type :=
| Patch (facecolor : paint) (label : string)
| Line2D_line (color : string) (label : string)
| Line2D_marker (color : string) (label : string).

(** The calls the chart code makes on [ax].  Keyword arguments that are
    the same at every call site ([va='center'], [fontsize=7],
    [linewidth], [markersize], [linestyle]) are left out. *)
Inductive ax_call : Type :=
| set_xlim (left right : Q)
| barh (y : nat) (width : Q) (left : Q) (height : float) (color : paint)
| text (x : Q) (y : nat) (s : cell) (ha : option string) (color : option string)
| plot_line (x : Q) (y0 y1 : float) (color : string)
| plot_marker (x : Q) (y : nat) (color : string)
| invert_yaxis
| axhspan (ymin ymax : Q) (color : string) (alpha : Q)
| axhline (y : Q) (color : string)
| customize
| legend (handles : list handle).

Inductive exc (A : Type) : Type :=
| Ok (a : A)
| Raise (msg : string).
Arguments Raise {A} msg.

(** Code that draws: the calls made so far, and a value or the exception
    that stopped it. *)
Definition Draw (A : Type) : Type := (list ax_call * exc A)%type.

Definition ret {A} (a : A) : Draw A := ([], Ok a).
Definition raise {A} (msg : string) : Draw A := ([], Raise msg).
Definition emit (c : ax_call) : Draw unit := ([c], Ok tt).

Definition bind {A B} (m : Draw A) (f : A -> Draw B) : Draw B :=
  match m with
  | (w, Ok a) => let (w', r) := f a in (w ++ w', r)
  | (w, Raise msg) => (w, Raise msg)
  end.

Notation "x <- m ;; k" := (bind m (fun x => k))
  (at level 61, m at next level, right associativity).
Notation "m ;;; k" := (bind m (fun _ => k))
  (at level 61, right associativity).

(** A [for] loop whose body draws. *)
Fixpoint for_each {A} (l : list A) (body : A -> Draw unit) : Draw unit :=
  match l with
  | [] => ret tt
  | a :: l' => body a ;;; for_each l' body
  end.

(** [enumerate]. *)
Fixpoint enumerate_from {A} (i : nat) (l : list A) : list (nat * A) :=
  match l with
  | [] => []
  | a :: l' => (i, a) :: enumerate_from (S i) l'
  end.

Definition enumerate {A} (l : list A) : list (nat * A) := enumerate_from 0 l.

Definition Qnat (n : nat) : Q := inject_Z (Z.of_nat n).

(* ================================================================== *)
(** ** visualizations.py: percentile bars *)

(** [matplotlib.colors.Normalize(vmin, vmax)(value)], without clipping. *)
Definition Normalize (vmin vmax value : Q) : Draw Q :=
  if Qeq_bool vmin vmax then ret 0
  else if Qltb vmax vmin then
    raise "minvalue must be less than or equal to maxvalue"
  else ret ((value - vmin) / (vmax - vmin)).

(** Python's [min(l)] and [max(l)]; the chart code calls them only on a
    list of at least two values. *)
Definition py_min (l : list Q) : Q :=
  match l with
  | [] => 0
  | x :: l' => min_from x l'
  end.

Definition py_max (l : list Q) : Q :=
  match l with
  | [] => 0
  | x :: l' => max_from x l'
  end.

Section Bars.

Variable cmap : Q -> RGBA.

(** The body of [for i in range(len(percentiles)-1)], over the pairs
    [(percentiles[i], percentiles[i+1])].  The two [pd.notna] tests in
    it are true: [percentiles] holds no NaN. *)
Fixpoint color_bars (idx : nat) (height : float) (vmin vmax : Q)
         (percentiles : list Q) : Draw unit :=
  match percentiles with
  | p_i :: ((p_i1 :: _) as rest) =>
      n <- Normalize vmin vmax ((p_i + p_i1) / 2) ;;
      let color := cmap n in
      let width := p_i1 - p_i in
      (if Qltb 0 width
       then emit (barh idx width p_i height (Mapped color))
       else ret tt) ;;;
      color_bars idx height vmin vmax rest
  | _ => ret tt
  end.

Definition present_percentiles (row : Series) (available_cols : list string)
  : list Q :=
  dropna_values (map (num (values row)) available_cols).

(** [hasattr(row, 'percentiles_iguales') and row.percentiles_iguales]. *)
Definition sin_variacion (row : Series) : bool :=
  has_column (index row) "percentiles_iguales"
  && percentiles_iguales (values row).

Definition _create_percentile_bars (row : Series) (idx : nat)
           (height : float) (available_cols : list string) : Draw unit :=
  let percentiles := present_percentiles row available_cols in
  if (length percentiles <? 2)%nat then ret tt
  else if sin_variacion row then
    let p0 := nth 0 percentiles 0 in
    emit (barh idx 1 (p0 - (1 # 2)) height (Named Config.light_gray)) ;;;
    emit (text (p0 + 1) idx (Text Config.no_variation) None
               (Some Config.dark_gray))
  else
    color_bars idx height (py_min percentiles) (py_max percentiles)
               percentiles.

End Bars.

(* ================================================================== *)
(** ** visualizations.py: INSS markers *)

Definition _add_inss_lines (row : Series) (idx : nat) (height : float)
  : Draw unit :=
  (if has_column (index row) "Durestd Inss min" then
     match num (values row) "Durestd Inss min" with
     | Some std =>
         emit (plot_line std
                 (fsub (Some (Qnat idx)) (fdiv height (Some 2)))
                 (fadd (Some (Qnat idx)) (fdiv height (Some 2)))
                 Config.black)
     | None => ret tt
     end
   else ret tt) ;;;
  (if has_column (index row) "Duropt Inss min" then
     match num (values row) "Duropt Inss min" with
     | Some opt => emit (plot_marker opt idx Config.blue)
     | None => ret tt
     end
   else ret tt).

(* ================================================================== *)
(** ** visualizations.py: row labels *)

(** Python's [int(x)] on a float that is a number: truncation towards
    zero.  It raises on NaN, which [_add_labels] rules out with
    [pd.notna], and on an infinity, which is not a value of [float]. *)
Definition py_int (q : Q) : Z := Z.quot (Qnum q) (Zpos (Qden q)).

Definition str_int (z : Z) : string :=
  DecimalString.NilZero.string_of_int (Z.to_int z).

Section Labels.

(** [str(x)] for a float cell of an object column: Python's float
    formatting, which this development does not look into. *)
Variable str_float : Q -> string.

Definition str_cell (c : cell) : string :=
  match c with
  | Blank => "nan"
  | Number q => str_float q
  | Text s => s
  end.

Definition _add_labels (row : Series) (idx : nat) (x_min x_max : Q)
           (left_margin right_margin : Q) : Draw unit :=
  (if has_column (index row) "Diagnóstico" then
     emit (text (x_min - left_margin + 2) idx
                (obj (values row) "Diagnóstico") (Some "right") None)
   else ret tt) ;;;
  let caso_text :=
    if has_column (index row) "Caso"
    then str_cell (obj (values row) "Caso") else "" in
  let caso_text :=
    if has_column (index row) "Count Episodios" then
      match num (values row) "Count Episodios" with
      | Some c =>
          let episodios := py_int c in
          if String.eqb caso_text ""
          then ("(" ++ str_int episodios ++ ")")%string
          else (caso_text ++ " (" ++ str_int episodios ++ ")")%string
      | None => caso_text
      end
    else caso_text in
  if String.eqb caso_text "" then ret tt
  else emit (text (x_max + 5) idx (Text caso_text) (Some "left") None).

End Labels.

(* ================================================================== *)
(** ** visualizations.py: diagnosis shading *)

(** [a != b] on object cells; NaN differs from everything, itself
    included. *)
Definition cell_ne (a b : cell) : bool :=
  match a, b with
  | Number x, Number y => negb (Qeq_bool x y)
  | Text s, Text t => negb (String.eqb s t)
  | _, _ => true
  end.

(** [Series.shift()]: every value moves one row down, NaN comes in. *)
Definition shift (s : list cell) : list cell := Blank :: removelast s.

(** [a.ne(b)], row by row. *)
Fixpoint ne (a b : list cell) : list bool :=
  match a, b with
  | x :: a', y :: b' => cell_ne x y :: ne a' b'
  | _, _ => []
  end.

(** [cumsum] of an integer series, and of a boolean one (True is 1). *)
Fixpoint cumsum_from (acc : nat) (s : list nat) : list nat :=
  match s with
  | [] => []
  | x :: s' => (acc + x)%nat :: cumsum_from (acc + x) s'
  end.

Definition cumsum (s : list nat) : list nat := cumsum_from 0 s.

Definition cumsum_bool (s : list bool) : list nat :=
  cumsum (map (fun b : bool => if b then 1%nat else 0%nat) s).

(** The keys of a [groupby]: the distinct values, in increasing order. *)
Fixpoint insert_key (k : nat) (keys : list nat) : list nat :=
  match keys with
  | [] => [k]
  | h :: t =>
      if (k <? h)%nat then k :: h :: t
      else if (k =? h)%nat then h :: t
      else h :: insert_key k t
  end.

Definition group_keys (by_ : list nat) : list nat :=
  fold_right insert_key [] by_.

(** [df.groupby(by).size()]: for each key, in increasing order, the
    number of rows that carry it. *)
Definition groupby_size (by_ : list nat) : list nat :=
  map (count_occ Nat.eq_dec by_) (group_keys by_).

(** [a - b], row by row. *)
Fixpoint series_sub (a b : list nat) : list nat :=
  match a, b with
  | x :: a', y :: b' => (x - y)%nat :: series_sub a' b'
  | _, _ => []
  end.

(** The [(start, end)] pairs the shading loop runs over. *)
Definition diagnosis_bounds (labels : list cell) : list (nat * nat) :=
  let bounds := cumsum_bool (ne labels (shift labels)) in
  let sizes := groupby_size bounds in
  let starts := series_sub (cumsum sizes) sizes in
  let ends := cumsum sizes in
  combine starts ends.

Definition shade (i : nat) (be : nat * nat) : Draw unit :=
  let (start, end_) := be in
  let color := if (i mod 2 =? 0)%nat then Config.light_gray else "white" in
  emit (axhspan (Qnat start - (2 # 10)) (Qnat end_ - (2 # 10)) color (2 # 10)) ;;;
  if negb (i =? 0)%nat
  then emit (axhline (Qnat start - (2 # 10)) "gray")
  else ret tt.

Definition _add_diagnosis_shading (df : DataFrame) : Draw unit :=
  if negb (has_column (columns df) "Diagnóstico") then ret tt
  else
    let labels := map (fun r => obj r "Diagnóstico") (rows df) in
    for_each (enumerate (diagnosis_bounds labels))
             (fun ib => shade (fst ib) (snd ib)).

(* ================================================================== *)
(** ** visualizations.py: the chart *)

Definition _customize_chart : Draw unit := emit customize.

Definition _add_legend (cmap : Q -> RGBA) : Draw unit :=
  emit (legend
          [ Patch (Mapped (cmap 0)) "Min";
            Patch (Mapped (cmap (2 # 10))) "P20";
            Patch (Mapped (cmap (4 # 10))) "P40";
            Patch (Mapped (cmap (6 # 10))) "P60";
            Patch (Mapped (cmap (8 # 10))) "P80";
            Patch (Mapped (cmap 1)) "P99";
            Patch (Named Config.light_gray) "Distribución constante";
            Line2D_line Config.black "Duración estándar INSS";
            Line2D_marker Config.blue "Duración óptima INSS" ]).

Inductive st_call : Type :=
| st_warning (msg : string)
| st_error (msg : string).

(** What a call of [create_comparative_chart] leaves behind: whether it
    returns the figure (rather than [None]), the Streamlit messages it
    shows, and the calls it made on the axes before it returned. *)
Record rendering : Type := mkRendering {
  returns_figure : bool;
  st_calls : list st_call;
  ax_calls : list ax_call
}.

(** The two ways the [try] block returns. *)
Inductive returned : Type :=
| Return_fig
| Return_None (shown : st_call).

Section Chart.

Variable cmap : Q -> RGBA.
Variable str_float : Q -> string.

(** What [plt.tight_layout()] does with a figure on which the given
    calls were made: it renders every text to measure it, and raises
    when the renderer refuses one (a label that mathtext cannot parse,
    such as [$$]).  The renderer is matplotlib's, and this development
    does not look into it. *)
Variable tight_layout : list ax_call -> exc unit.

(** [plt.tight_layout()] at the end of the drawing [drawn]. *)
Definition plt_tight_layout (drawn : Draw unit) : Draw unit :=
  match drawn with
  | (calls, Ok _) => (calls, tight_layout calls)
  | (calls, Raise msg) => (calls, Raise msg)
  end.

Definition percentile_cols : list string :=
  ["Minmin"; "P20min"; "P40min"; "P60min"; "P80min"; "P99min"].

(** [df[cols].min().min()] and [df[cols].max().max()]. *)
Definition frame_min (df : DataFrame) (cols : list string) : float :=
  series_min (map (fun c => series_min (column df c)) cols).

Definition frame_max (df : DataFrame) (cols : list string) : float :=
  series_max (map (fun c => series_max (column df c)) cols).

(** The body of the [try] block.  [ax.set_xlim] raises on a NaN
    limit, which is what [x_min] and [x_max] are when every percentile
    cell of the frame is NaN.  The other step that can raise is the
    last one, [plt.tight_layout()], after everything is drawn. *)
Definition chart_body (df : DataFrame) : Draw returned :=
  if empty df then
    ret (Return_None (st_warning "No hay datos para visualizar"))
  else
    let available_cols :=
      filter (has_column (columns df)) percentile_cols in
    if (length available_cols =? 0)%nat then
      ret (Return_None
             (st_error "No se encontraron columnas de percentiles"))
    else
      match frame_min df available_cols, frame_max df available_cols with
      | Some x_min, Some x_max =>
          let left_margin := Config.LEFT_MARGIN in
          let right_margin := Config.RIGHT_MARGIN in
          plt_tight_layout
            (emit (set_xlim (x_min - left_margin) (x_max + right_margin)) ;;;
             let heights := _calculate_bar_heights df in
             for_each (enumerate (iterrows df))
               (fun ir =>
                  let idx := fst ir in
                  let row := snd ir in
                  _create_percentile_bars cmap row idx (nth idx heights NaN)
                                          available_cols ;;;
                  _add_inss_lines row idx (nth idx heights NaN) ;;;
                  _add_labels str_float row idx x_min x_max
                              left_margin right_margin) ;;;
             emit invert_yaxis ;;;
             _add_diagnosis_shading df ;;;
             _customize_chart ;;;
             _add_legend cmap) ;;;
          ret Return_fig
      | _, _ => raise "Axis limits cannot be NaN or Inf"
      end.

Definition create_comparative_chart (df : DataFrame) : rendering :=
  match chart_body df with
  | (calls, Ok Return_fig) => mkRendering true [] calls
  | (calls, Ok (Return_None shown)) => mkRendering false [shown] calls
  | (calls, Raise e) =>
      mkRendering false
        [st_error ("Error al crear visualización: " ++ e)%string] calls
  end.

End Chart.

(* ================================================================== *)
(** ** data_processor.py *)

(** A frame as [pd.read_excel] delivers it: column names and, for each
    row, its cells in column order. *)
Record RawFrame : Type := mkRaw {
  raw_columns : list string;
  raw_rows : list (list cell)
}.

(** The cell of a row under a column name. *)
Fixpoint lookup (cols : list string) (cells : list cell) (col : string)
  : cell :=
  match cols, cells with
  | c :: cols', v :: cells' =>
      if String.eqb col c then v else lookup cols' cells' col
  | _, _ => Blank
  end.

Definition _validate_columns (df : RawFrame) : bool :=
  let missing_columns :=
    filter (fun original_col => negb (has_column (raw_columns df) original_col))
           (map fst Config.COLUMN_MAPPING) in
  (length missing_columns =? 0)%nat.

(** [df.rename(columns=mapping)]: a name that is a key of the mapping is
    replaced, any other is kept. *)
Fixpoint rename_with (mapping : list (string * string)) (col : string)
  : string :=
  match mapping with
  | [] => col
  | (original, internal) :: mapping' =>
      if String.eqb col original then internal
      else rename_with mapping' col
  end.

Definition _rename_columns (df : RawFrame) : RawFrame :=
  mkRaw (map (rename_with Config.COLUMN_MAPPING) (raw_columns df))
        (raw_rows df).

(** [df >= 0] and the like on a float column keep the rows where the
    comparison is true. *)
Definition keep (p : Row -> bool) (df : DataFrame) : DataFrame :=
  mkFrame (columns df) (filter p (rows df)).

Definition _validate_ranges (df : DataFrame) : DataFrame :=
  let duration_cols :=
    ["Durestd Inss min"; "Duropt Inss min"] ++ Config.PERCENTILE_COLUMNS in
  let df :=
    fold_left
      (fun df col =>
         if has_column (columns df) col
         then keep (fun r => fgeb (num r col) 0) df
         else df)
      duration_cols df in
  if has_column (columns df) "Count Episodios" then
    keep (fun r =>
            fgeb (num r "Count Episodios") Config.MIN_EPISODIOS
            && fleb (num r "Count Episodios") Config.MAX_EPISODIOS)
         df
  else df.

(** [Series.nunique()] with its default [dropna=True]: how many distinct
    values are left once NaN is dropped. *)
Fixpoint distinct (l : list Q) : list Q :=
  match l with
  | [] => []
  | x :: l' => if existsb (Qeq_bool x) l' then distinct l' else x :: distinct l'
  end.

Definition nunique (s : list float) : nat := length (distinct (dropna_values s)).

(** [df[name] = ...] adds the name to the columns unless it is there. *)
Definition with_column (cols : list string) (name : string) : list string :=
  if has_column cols name then cols else cols ++ [name].

Definition set_num (r : Row) (name : string) (v : float) : Row :=
  mkRow (fun c => if String.eqb c name then v else num r c)
        (obj r) (percentiles_iguales r).

Definition _calculate_additional_fields (df : DataFrame) : DataFrame :=
  let percentile_cols :=
    filter (has_column (columns df)) Config.PERCENTILE_COLUMNS in
  let df :=
    if negb (length percentile_cols =? 0)%nat then
      mkFrame (with_column (columns df) "percentiles_iguales")
              (map (fun r =>
                      mkRow (num r) (obj r)
                            (nunique (map (num r) percentile_cols) =? 1)%nat)
                   (rows df))
    else df in
  let df :=
    if has_column (columns df) "Durestd Inss min"
       && has_column (columns df) "P60min" then
      mkFrame (with_column (columns df) "diferencia_estandar")
              (map (fun r =>
                      set_num r "diferencia_estandar"
                              (fsub (num r "Durestd Inss min") (num r "P60min")))
                   (rows df))
    else df in
  if has_column (columns df) "Duropt Inss min"
     && has_column (columns df) "P60min" then
    mkFrame (with_column (columns df) "diferencia_optima")
            (map (fun r =>
                    set_num r "diferencia_optima"
                            (fsub (num r "Duropt Inss min") (num r "P60min")))
                 (rows df))
  else df.

Section Ingestion.

(** How [pd.to_numeric] reads a text cell: the number it denotes, or
    nothing. *)
Variable parse_number : string -> option Q.

(** [DataFrame.sort_values(by=...)], followed by [reset_index]. *)
Variable sort_values : list string -> DataFrame -> exc DataFrame.

(** [pd.to_numeric(..., errors='coerce')] on one cell. *)
Definition to_numeric (c : cell) : float :=
  match c with
  | Blank => NaN
  | Number q => Some q
  | Text s => parse_number s
  end.

(** The row of the frame once the numeric columns are converted: they
    are float64 from here on, the others stay objects. *)
Definition typed_row (cols : list string) (cells : list cell) : Row :=
  mkRow (fun c =>
           if has_column Config.NUMERIC_COLUMNS c
           then to_numeric (lookup cols cells c)
           else NaN)
        (lookup cols cells)
        false.

(** [_clean_data].  [df[col]] is a frame, not a column, when the name
    occurs twice, and [pd.to_numeric] raises on it; [dropna] raises
    when a name of its [subset] is not a column. *)
Definition _clean_data (df : RawFrame) : exc DataFrame :=
  let cols := raw_columns df in
  if existsb (fun col => (1 <? count_occ string_dec cols col)%nat)
             Config.NUMERIC_COLUMNS
  then Raise "arg must be a list, tuple, 1-d array, or Series"
  else
    let df := mkFrame cols (map (typed_row cols) (raw_rows df)) in
    if negb (forallb (has_column cols) Config.NUMERIC_COLUMNS)
    then Raise "KeyError"
    else
      let df :=
        keep (fun r => forallb (fun col => notna (num r col))
                               Config.NUMERIC_COLUMNS) df in
      Ok (_validate_ranges df).

(** [pd.Categorical(values, categories=..., ordered=True)]: a value
    outside the categories becomes NaN. *)
Definition categorical (categories : list string) (c : cell) : cell :=
  match c with
  | Text s => if has_column categories s then Text s else Blank
  | _ => Blank
  end.

Definition set_obj (r : Row) (name : string) (v : cell) : Row :=
  mkRow (num r)
        (fun c => if String.eqb c name then v else obj r c)
        (percentiles_iguales r).

Definition _sort_data (df : DataFrame) : exc DataFrame :=
  let df :=
    if has_column (columns df) "Gr Edad 10" then
      mkFrame (columns df)
              (map (fun r =>
                      set_obj r "Gr Edad 10"
                              (categorical Config.EDAD_ORDEN
                                           (obj r "Gr Edad 10")))
                   (rows df))
    else df in
  let sort_columns :=
    filter (has_column (columns df))
           ["Diagnóstico"; "Cod Genero"; "Gr Edad 10"] in
  if negb (length sort_columns =? 0)%nat
  then sort_values sort_columns df
  else Ok df.

(** [load_and_process_data], from the frame [read_excel] returned on:
    the processed frame, or [None]. *)
Definition load_and_process_data (raw : RawFrame) : option DataFrame :=
  if negb (_validate_columns raw) then None
  else
    let df := _rename_columns raw in
    match _clean_data df with
    | Raise _ => None
    | Ok df =>
        match _sort_data df with
        | Raise _ => None
        | Ok df => Some (_calculate_additional_fields df)
        end
    end.

End Ingestion.

(* ================================================================== *)
(** ** data_processor.py: filters and summary *)

(** [Series.isin(values)] on an object column, for a list of strings. *)
Definition isin (c : cell) (vals : list string) : bool :=
  match c with
  | Text s => existsb (String.eqb s) vals
  | _ => false
  end.

(** [series == s] on an object column, for a string. *)
Definition cell_is (c : cell) (s : string) : bool :=
  match c with
  | Text t => String.eqb t s
  | _ => false
  end.

(** [df[df[col]...]]: the column is looked up first, and a name that is
    not a column raises [KeyError]. *)
Definition filter_on (col : string) (p : Row -> bool) (df : DataFrame)
  : exc DataFrame :=
  if has_column (columns df) col then Ok (keep p df)
  else Raise ("KeyError: " ++ col)%string.

Definition and_then {A B} (m : exc A) (f : A -> exc B) : exc B :=
  match m with
  | Ok a => f a
  | Raise msg => Raise msg
  end.

Definition apply_filters (df : DataFrame) (diagnosticos : list string)
           (genero : string) (edad_grupos : list string)
           (episodios_range : Z * Z) : exc DataFrame :=
  let df_filtered := df in
  and_then
    (if negb (length diagnosticos =? 0)%nat
     then filter_on "Diagnóstico"
                    (fun r => isin (obj r "Diagnóstico") diagnosticos)
                    df_filtered
     else Ok df_filtered)
    (fun df_filtered =>
  and_then
    (if negb (String.eqb genero "Todos")
     then filter_on "Cod Genero"
                    (fun r => cell_is (obj r "Cod Genero") genero)
                    df_filtered
     else Ok df_filtered)
    (fun df_filtered =>
  and_then
    (if negb (length edad_grupos =? 0)%nat
     then filter_on "Gr Edad 10"
                    (fun r => isin (obj r "Gr Edad 10") edad_grupos)
                    df_filtered
     else Ok df_filtered)
    (fun df_filtered =>
  if has_column (columns df_filtered) "Count Episodios" then
    Ok (keep (fun r =>
                fgeb (num r "Count Episodios") (inject_Z (fst episodios_range))
                && fleb (num r "Count Episodios")
                        (inject_Z (snd episodios_range)))
             df_filtered)
  else Ok df_filtered))).

(** [Series.sum()]: NaN counts for nothing. *)
Definition series_sum (s : list float) : Q :=
  fold_right Qplus 0 (dropna_values s).

(** [Series.mean()]: over the values that are not NaN; NaN when there
    is none. *)
Definition series_mean (s : list float) : float :=
  match dropna_values s with
  | [] => NaN
  | vs => Some (fold_right Qplus 0 vs / Qnat (length vs))
  end.

(** [Series.nunique()] on an object column: null cells are dropped,
    the others counted once each. *)
Fixpoint distinct_cells (l : list cell) : list cell :=
  match l with
  | [] => []
  | Blank :: l' => distinct_cells l'
  | x :: l' =>
      if existsb (fun y => negb (cell_ne x y)) l'
      then distinct_cells l'
      else x :: distinct_cells l'
  end.

Definition nunique_cells (s : list cell) : nat := length (distinct_cells s).

Record summary : Type := mkSummary {
  total_registros : nat;
  diagnosticos_unicos : nat;
  total_episodios : Q;
  duracion_media_inss : float;
  duracion_media_mutua : float
}.

Definition get_summary_stats (df : DataFrame) : summary :=
  mkSummary
    (length (rows df))
    (if has_column (columns df) "Diagnóstico"
     then nunique_cells (map (fun r => obj r "Diagnóstico") (rows df))
     else 0%nat)
    (if has_column (columns df) "Count Episodios"
     then series_sum (column df "Count Episodios") else 0)
    (if has_column (columns df) "Durestd Inss min"
     then series_mean (column df "Durestd Inss min") else Some 0)
    (if has_column (columns df) "P60min"
     then series_mean (column df "P60min") else Some 0).

(* ================================================================== *)
(** ** Vocabulary of the properties *)

Definition count_column : string := "Count Episodios".

Definition linear_height (cmin cmax c : Q) : Q :=
  Config.MIN_BAR_HEIGHT
  + (c - cmin) / (cmax - cmin)
    * (Config.MAX_BAR_HEIGHT - Config.MIN_BAR_HEIGHT).

(** The pairs [(l[i], l[i+1])]. *)
Definition adjacent_pairs (l : list Q) : list (Q * Q) := combine l (tl l).

Definition increasing (ab : Q * Q) : bool := Qltb (fst ab) (snd ab).

(** What [Normalize] computes when it does not raise. *)
Definition norm_value (vmin vmax v : Q) : Q :=
  if Qeq_bool vmin vmax then 0 else (v - vmin) / (vmax - vmin).

(** The local normalisation of a record: by its own extreme values. *)
Definition norm (local_min local_max v : Q) : Q :=
  (v - local_min) / (local_max - local_min).

Definition segment (cmap : Q -> RGBA) (idx : nat) (height : float)
           (n : Q -> Q) (ab : Q * Q) : ax_call :=
  barh idx (snd ab - fst ab) (fst ab) height
       (Mapped (cmap (n ((fst ab + snd ab) / 2)))).

Definition calls {A} (m : Draw A) : list ax_call := fst m.

(** A rectangle call has its right edge strictly right of its left
    edge; other calls are not rectangles. *)
Definition proper_rectangle (c : ax_call) : Prop :=
  match c with
  | barh _ width x0 _ _ => x0 < x0 + width
  | _ => True
  end.

(** Whether each row opens a run, given the diagnosis of the row before
    the list. *)
Fixpoint breaks (prev : cell) (l : list cell) : list bool :=
  match l with
  | [] => []
  | x :: l' => cell_ne x prev :: breaks x l'
  end.

Definition extend_runs (brk : bool) (lengths : list nat) : list nat :=
  if brk then 1%nat :: lengths
  else match lengths with
       | n :: r => S n :: r
       | [] => [1%nat]
       end.

(** The lengths of the runs of [x :: l]. *)
Fixpoint run_lengths_from (x : cell) (l : list cell) : list nat :=
  match l with
  | [] => [1%nat]
  | y :: l' => extend_runs (cell_ne y x) (run_lengths_from y l')
  end.

Definition run_lengths (l : list cell) : list nat :=
  match l with
  | [] => []
  | x :: l' => run_lengths_from x l'
  end.

(** Consecutive spans of the given lengths, from slot [a] on. *)
Fixpoint spans_from (a : nat) (lengths : list nat) : list (nat * nat) :=
  match lengths with
  | [] => []
  | n :: r => (a, (a + n)%nat) :: spans_from (a + n) r
  end.

(** The spans cover [[from, to)] in order, each non-empty, each starting
    where the one before ends. *)
Fixpoint tiles (from : nat) (spans : list (nat * nat)) (to : nat) : Prop :=
  match spans with
  | [] => from = to
  | (s, e) :: r => s = from /\ (s < e)%nat /\ tiles e r to
  end.

(** The slots at which a run of equal consecutive diagnoses begins: the
    first slot, and every slot whose diagnosis differs from the one
    before it. *)
Fixpoint run_starts_from (i : nat) (prev : cell) (l : list cell) : list nat :=
  match l with
  | [] => []
  | x :: l' =>
      (if cell_ne x prev then [i] else []) ++ run_starts_from (S i) x l'
  end.

Definition run_starts (l : list cell) : list nat := run_starts_from 0 Blank l.

(** The maximal runs as [(start, end)]: a run reaches to where the next
    one starts, the last one to the end. *)
Definition maximal_runs (l : list cell) : list (nat * nat) :=
  let starts := run_starts l in
  combine starts (tl starts ++ [length l]).

Definition b2n (b : bool) : nat := if b then 1%nat else 0%nat.

(** The calls for run number [i]: the band, and the separator unless
    the run is the first. *)
Definition band_calls (i : nat) (run : nat * nat) : list ax_call :=
  axhspan (Qnat (fst run) - (2 # 10)) (Qnat (snd run) - (2 # 10))
          (if Nat.even i then Config.light_gray else "white") (2 # 10)
  :: match i with
     | O => []
     | S _ => [axhline (Qnat (fst run) - (2 # 10)) "gray"]
     end.

Definition diagnosis_column : string := "Diagnóstico".

Definition diagnoses (df : DataFrame) : list cell :=
  map (fun r => obj r diagnosis_column) (rows df).

(** The present values of a row are all one value. *)
Definition one_distinct_value (s : list float) : Prop :=
  exists v, In (Some v) s /\ forall w, In (Some w) s -> w == v.

Definition available_percentiles (df : DataFrame) : list string :=
  filter (has_column (columns df)) Config.PERCENTILE_COLUMNS.

Definition flag_column : string := "percentiles_iguales".

(** The row that [_calculate_additional_fields] makes of a row, for a
    frame with the given columns. *)
Definition flagged (cols : list string) (r : Row) : Row :=
  mkRow (num r) (obj r)
        (nunique (map (num r) (filter (has_column cols)
                                      Config.PERCENTILE_COLUMNS)) =? 1)%nat.

Definition duration_cols : list string :=
  ["Durestd Inss min"; "Duropt Inss min"] ++ Config.PERCENTILE_COLUMNS.

(** A row with all nine numeric cells present, no negative duration or
    percentile, and an episode count within the configured limits. *)
Definition clean_row (r : Row) : Prop :=
  (forall c, In c Config.NUMERIC_COLUMNS -> exists q, num r c = Some q)
  /\ (forall c, In c duration_cols ->
                exists q, num r c = Some q /\ 0 <= q)
  /\ (exists q, num r count_column = Some q
                /\ Config.MIN_EPISODIOS <= q <= Config.MAX_EPISODIOS).

Definition in_range (r : Row) : bool :=
  forallb (fun c => fgeb (num r c) 0) duration_cols
  && (fgeb (num r count_column) Config.MIN_EPISODIOS
      && fleb (num r count_column) Config.MAX_EPISODIOS).

Definition keep_nonnegative (df : DataFrame) (col : string) : DataFrame :=
  if has_column (columns df) col
  then keep (fun r => fgeb (num r col) 0) df
  else df.

(** The two reference durations of a record, NaN when the column or the
    value is missing. *)
Definition standard_duration (row : Series) : float :=
  if has_column (index row) "Durestd Inss min"
  then num (values row) "Durestd Inss min" else NaN.

Definition optimal_duration (row : Series) : float :=
  if has_column (index row) "Duropt Inss min"
  then num (values row) "Duropt Inss min" else NaN.

(** The [(ymin, ymax)] of the bands among some calls, in order. *)
Definition band_edges (cs : list ax_call) : list (Q * Q) :=
  flat_map (fun c => match c with
                     | axhspan ymin ymax _ _ => [(ymin, ymax)]
                     | _ => []
                     end) cs.

Definition band_of_slots (se : nat * nat) : Q * Q :=
  (Qnat (fst se) - (2 # 10), Qnat (snd se) - (2 # 10)).

(** The calls that draw the content of rows. *)
Definition row_content (c : ax_call) : Prop :=
  match c with
  | barh _ _ _ _ _ | text _ _ _ _ _ | plot_line _ _ _ _ | plot_marker _ _ _ =>
      True
  | _ => False
  end.

(** The calls that [_add_diagnosis_shading] makes. *)
Definition band_call (c : ax_call) : Prop :=
  match c with
  | axhspan _ _ _ _ | axhline _ _ => True
  | _ => False
  end.

(** What the loop of [create_comparative_chart] draws for one row. *)
Definition row_calls (cmap : Q -> RGBA) (str_float : Q -> string)
           (heights : list float) (available_cols : list string)
           (x_min x_max : Q) (ir : nat * Series) : list ax_call :=
  calls (_create_percentile_bars cmap (snd ir) (fst ir)
                                 (nth (fst ir) heights NaN) available_cols)
  ++ calls (_add_inss_lines (snd ir) (fst ir) (nth (fst ir) heights NaN))
  ++ calls (_add_labels str_float (snd ir) (fst ir) x_min x_max
                        Config.LEFT_MARGIN Config.RIGHT_MARGIN).

(** The percentile columns a frame has, as the chart code finds them. *)
Definition available_cols (df : DataFrame) : list string :=
  filter (has_column (columns df)) percentile_cols.

(** A rectangle lies strictly between two abscissae; other calls are
    not concerned. *)
Definition inside (lo hi : Q) (c : ax_call) : Prop :=
  match c with
  | barh _ width x0 _ _ => lo < x0 /\ x0 + width < hi
  | _ => True
  end.

(** A call that belongs to the row at slot [idx] drawn with [height]:
    rectangles, texts and markers sit on the slot, the vertical line
    spans the height of the row around it. *)
Definition at_slot (idx : nat) (height : float) (c : ax_call) : Prop :=
  match c with
  | barh y _ _ h _ => y = idx /\ h = height
  | text _ y _ _ _ => y = idx
  | plot_marker _ y _ => y = idx
  | plot_line _ y0 y1 _ =>
      y0 = fsub (Some (Qnat idx)) (fdiv height (Some 2))
      /\ y1 = fadd (Some (Qnat idx)) (fdiv height (Some 2))
  | _ => False
  end.

(** The height of a rectangle is a number within the configured
    bounds. *)
Definition bounded_height (c : ax_call) : Prop :=
  match c with
  | barh _ _ _ h _ =>
      exists q, h = Some q
                /\ Config.MIN_BAR_HEIGHT <= q <= Config.MAX_BAR_HEIGHT
  | _ => True
  end.


(** The ordinates of the separator lines among some calls, in order. *)
Definition separator_ys (cs : list ax_call) : list Q :=
  flat_map (fun c => match c with
                     | axhline y _ => [y]
                     | _ => []
                     end) cs.

(** What [_validate_ranges] asks of a row, for a frame with the given
    columns: no negative value and no NaN in a duration or percentile
    column the frame has, and, if the frame has the episode count, a
    count within the configured limits. *)
Definition valid_row (cols : list string) (r : Row) : bool :=
  forallb (fun col => negb (has_column cols col) || fgeb (num r col) 0)
          duration_cols
  && (negb (has_column cols count_column)
      || (fgeb (num r count_column) Config.MIN_EPISODIOS
          && fleb (num r count_column) Config.MAX_EPISODIOS)).

(** A row with a value in each of the nine numeric columns. *)
Definition complete_row (r : Row) : bool :=
  forallb (fun col => notna (num r col)) Config.NUMERIC_COLUMNS.

(** The conditions [apply_filters] puts on a row of a frame with the
    given columns: a filter that is left open asks nothing. *)
Definition passes_filters (cols : list string) (diagnosticos : list string)
           (genero : string) (edad_grupos : list string)
           (episodios_range : Z * Z) (r : Row) : bool :=
  (if negb (length diagnosticos =? 0)%nat
   then isin (obj r "Diagnóstico") diagnosticos else true)
  && (if negb (String.eqb genero "Todos")
      then cell_is (obj r "Cod Genero") genero else true)
  && (if negb (length edad_grupos =? 0)%nat
      then isin (obj r "Gr Edad 10") edad_grupos else true)
  && (if has_column cols "Count Episodios"
      then fgeb (num r "Count Episodios") (inject_Z (fst episodios_range))
           && fleb (num r "Count Episodios")
                   (inject_Z (snd episodios_range))
      else true).

(** Where a text of the chart is anchored: a label in one of the two
    margins, right aligned between the lower x-limit and [x_min] or left
    aligned between [x_max] and the upper x-limit; or the note of a flat
    record, right of [x_min] and at most one unit right of [x_max].
    Other calls are not concerned. *)
Definition text_placed (x_left x_min x_max x_right : Q) (c : ax_call) : Prop :=
  match c with
  | text x _ s ha _ =>
      (x_left < x /\ x < x_min /\ ha = Some "right")
      \/ (x_max < x /\ x < x_right /\ ha = Some "left")
      \/ (x_min < x /\ x <= x_max + 1 /\ ha = None
          /\ s = Text Config.no_variation)
  | _ => True
  end.

(** The integer that [int(x)] gives for a float that is not negative. *)
Definition integer_part (x : Q) (k : Z) : Prop :=
  inject_Z k <= x /\ x < inject_Z k + 1.

(** A call that writes no text. *)
Definition not_text (c : ax_call) : Prop :=
  match c with text _ _ _ _ _ => False | _ => True end.

(** Everything a chart with the limits [x_min] and [x_max] draws: the
    limits, the rows in input order, the inverted axis, the bands, the
    decoration and the legend. *)
Definition drawn_calls (cmap : Q -> RGBA) (str_float : Q -> string)
           (df : DataFrame) (x_min x_max : Q) : list ax_call :=
  set_xlim (x_min - Config.LEFT_MARGIN) (x_max + Config.RIGHT_MARGIN)
  :: flat_map (row_calls cmap str_float (_calculate_bar_heights df)
                         (available_cols df) x_min x_max)
              (enumerate (iterrows df))
  ++ invert_yaxis
  :: calls (_add_diagnosis_shading df)
  ++ calls _customize_chart ++ calls (_add_legend cmap).

(** What the [try] block ends with once everything is drawn: the figure,
    or the exception of the layout pass. *)
Definition after_layout (laid_out : exc unit) : exc returned :=
  match laid_out with
  | Ok _ => Ok Return_fig
  | Raise msg => Raise msg
  end.

(** A call that drew the frame in full and got as far as the layout
    pass: every call of the chart was made, the figure is returned
    without a message if the layout pass accepts them, and [None] with
    the error of the layout pass as the one message if it raises. *)
Definition drawn_in_full (cmap : Q -> RGBA) (str_float : Q -> string)
           (tight_layout : list ax_call -> exc unit) (df : DataFrame)
           (out : rendering) : Prop :=
  exists x_min x_max,
    ax_calls out = drawn_calls cmap str_float df x_min x_max
    /\ match tight_layout (ax_calls out) with
       | Ok _ => returns_figure out = true /\ st_calls out = []
       | Raise msg =>
           returns_figure out = false
           /\ st_calls out
              = [st_error ("Error al crear visualización: " ++ msg)%string]
       end.

(** A sheet whose numeric columns hold numbers and blanks only, no
    text: what a spreadsheet of figures gives.  [pd.to_numeric] reads a
    text such as [inf] as an infinity, which is not a value of
    [float] here. *)
Definition numeric_cells_are_numbers (raw : RawFrame) : Prop :=
  forall cells col,
    In cells (raw_rows raw) -> In col Config.NUMERIC_COLUMNS ->
    match lookup (raw_columns (_rename_columns raw)) cells col with
    | Text _ => False
    | _ => True
    end.

(* ================================================================== *)
(** ** Sample frames *)

(** A row given by the cells it has; every other cell is missing. *)
Fixpoint assoc {A} (d : A) (kvs : list (string * A)) (k : string) : A :=
  match kvs with
  | [] => d
  | (k', v) :: kvs' => if String.eqb k k' then v else assoc d kvs' k
  end.

Definition sample_row (nums : list (string * float))
           (objs : list (string * cell)) (iguales : bool) : Row :=
  mkRow (assoc NaN nums) (assoc Blank objs) iguales.

Definition sample_cmap (v : Q) : RGBA := (v, 1 - v, 0, 1).

Definition sample_str_float (q : Q) : string := "0.0".

(** A layout pass that cannot render the label [$$], as mathtext
    cannot. *)
Definition sample_tight_layout (cs : list ax_call) : exc unit :=
  if existsb (fun c => match c with
                       | text _ _ (Text s) _ _ => String.eqb s "$$"
                       | _ => false
                       end) cs
  then Raise "ParseException" else Ok tt.

Definition percentile_cells (p0 p1 p2 p3 p4 p5 : float)
  : list (string * float) :=
  [ ("Minmin", p0); ("P20min", p1); ("P40min", p2);
    ("P60min", p3); ("P80min", p4); ("P99min", p5) ].

Definition chart_columns : list string :=
  [ "Diagnóstico"; "Caso"; "Count Episodios";
    "Durestd Inss min"; "Duropt Inss min";
    "Minmin"; "P20min"; "P40min"; "P60min"; "P80min"; "P99min";
    "percentiles_iguales" ].

(** Three cases in two diagnoses, with 15, 8 and 12 episodes. *)
Definition three_cases : DataFrame :=
  mkFrame chart_columns
    [ sample_row
        (("Count Episodios", Some 15) :: ("Durestd Inss min", Some 30)
           :: ("Duropt Inss min", Some 25)
           :: percentile_cells (Some 10) (Some 15) (Some 20)
                               (Some 25) (Some 30) (Some 35))
        [("Diagnóstico", Text "A"); ("Caso", Text "C001")] false;
      sample_row
        (("Count Episodios", Some 8) :: ("Durestd Inss min", Some 20)
           :: ("Duropt Inss min", Some 18)
           :: percentile_cells (Some 8) (Some 12) (Some 16)
                               (Some 20) (Some 24) (Some 28))
        [("Diagnóstico", Text "A"); ("Caso", Text "C002")] false;
      sample_row
        (("Count Episodios", Some 12) :: ("Durestd Inss min", Some 25)
           :: ("Duropt Inss min", Some 22)
           :: percentile_cells (Some 12) (Some 16) (Some 20)
                               (Some 24) (Some 28) (Some 32))
        [("Diagnóstico", Text "B"); ("Caso", Text "C003")] false ].

(** A record whose six percentiles are all 20. *)
Definition all_twenty : Series :=
  mkSeries chart_columns
    (sample_row
       (percentile_cells (Some 20) (Some 20) (Some 20)
                         (Some 20) (Some 20) (Some 20))
       [("Diagnóstico", Text "A")] true).

(** A record with one percentile, 20, and the other five missing; its
    flag is what [nunique(axis=1) == 1] gives it. *)
Definition only_min : Series :=
  mkSeries chart_columns
    (sample_row (percentile_cells (Some 20) NaN NaN NaN NaN NaN)
                [("Diagnóstico", Text "A")] true).

(** A record whose percentiles dip once: 10, 15, 12, 12, 30, 35. *)
Definition dipping : Series :=
  mkSeries chart_columns
    (sample_row
       (percentile_cells (Some 10) (Some 15) (Some 12)
                         (Some 12) (Some 30) (Some 35))
       [("Diagnóstico", Text "A")] false).

(** A frame with rows but none of the percentile columns. *)
Definition no_percentiles : DataFrame :=
  mkFrame ["Diagnóstico"; "Caso"]
          [sample_row [] [("Diagnóstico", Text "A"); ("Caso", Text "C001")]
                      false].

(** The sheet of the repository's tests, as [read_excel] returns it. *)
Definition test_sheet : RawFrame :=
  mkRaw (map fst Config.COLUMN_MAPPING)
    [ [ Text "Lumbalgia"; Text "Administrativo"; Text "M"; Text "36-45";
        Text "C001"; Number 15; Number 30; Number 25;
        Number 10; Number 15; Number 20; Number 25; Number 30; Number 35 ];
      [ Text "Cervicalgia"; Text "Operario"; Text "F"; Text "26-35";
        Text "C002"; Number 8; Number 20; Number 18;
        Number 8; Number 12; Number 16; Number 20; Number 24; Number 28 ];
      [ Text "Tendinitis"; Text "Técnico"; Text "M"; Text "46-55";
        Text "C003"; Number 12; Number 25; Number 22;
        Number 12; Number 16; Number 20; Number 24; Number 28; Number 32 ] ].

Definition no_parse (s : string) : option Q := None.

Definition text_of (c : cell) : string :=
  match c with
  | Text s => s
  | _ => ""
  end.

Fixpoint insert_row (key : Row -> string) (r : Row) (sorted : list Row)
  : list Row :=
  match sorted with
  | [] => [r]
  | r' :: rest =>
      if String.leb (key r) (key r') then r :: r' :: rest
      else r' :: insert_row key r rest
  end.

(** A stand-in for [sort_values]: insertion sort on the text of the
    first sort column. *)
Definition sort_by_text (by_ : list string) (df : DataFrame) : exc DataFrame :=
  let key := fun r => text_of (obj r (hd "" by_)) in
  Ok (mkFrame (columns df) (fold_right (insert_row key) [] (rows df))).

(** Four rows: six equal values, one value alone, nothing at all, and
    six different values. *)
Definition flag_samples : DataFrame :=
  mkFrame Config.PERCENTILE_COLUMNS
    [ sample_row (percentile_cells (Some 20) (Some 20) (Some 20)
                                   (Some 20) (Some 20) (Some 20)) [] false;
      sample_row (percentile_cells (Some 20) NaN NaN NaN NaN NaN) [] false;
      sample_row (percentile_cells NaN NaN NaN NaN NaN NaN) [] false;
      sample_row (percentile_cells (Some 10) (Some 15) (Some 20)
                                   (Some 25) (Some 30) (Some 35)) [] false ].

(** One row, all six percentile columns, no value in any of them. *)
Definition blank_percentiles : DataFrame :=
  mkFrame chart_columns
    [ sample_row [("Count Episodios", Some 3)]
                 [("Diagnóstico", Text "A"); ("Caso", Text "C001")] false ].

(** A frame of counts alone, without the diagnosis column. *)
Definition no_diagnosis : DataFrame :=
  mkFrame ["Count Episodios"]
          [ sample_row [("Count Episodios", Some 1)] [] false;
            sample_row [("Count Episodios", Some 3)] [] false ].

(** Three rows whose age groups are a configured group, a group that is
    not configured, and a number. *)
Definition age_samples : DataFrame :=
  mkFrame ["Diagnóstico"; "Gr Edad 10"]
    [ sample_row [] [("Diagnóstico", Text "A"); ("Gr Edad 10", Text "36-45")]
                 false;
      sample_row [] [("Diagnóstico", Text "B"); ("Gr Edad 10", Text "66-75")]
                 false;
      sample_row [] [("Diagnóstico", Text "C"); ("Gr Edad 10", Number 40)]
                 false ].

(** A record with a diagnosis, a case and a count of two and a half. *)
Definition label_sample : Series :=
  mkSeries chart_columns
    (sample_row [("Count Episodios", Some (5 # 2))]
                [("Diagnóstico", Text "Lumbalgia"); ("Caso", Text "C001")]
                false).

(** One case whose diagnosis is a label that mathtext cannot parse. *)
Definition unrenderable : DataFrame :=
  mkFrame chart_columns
    [ sample_row
        (("Count Episodios", Some 15) :: ("Durestd Inss min", Some 30)
           :: ("Duropt Inss min", Some 25)
           :: percentile_cells (Some 10) (Some 15) (Some 20)
                               (Some 25) (Some 30) (Some 35))
        [("Diagnóstico", Text "$$"); ("Caso", Text "C001")] false ].

(** Three rows of which the second has no episode count, and two rows
    without any. *)
Definition sparse_counts : DataFrame :=
  mkFrame ["Count Episodios"]
    [ sample_row [("Count Episodios", Some 1)] [] false;
      sample_row [] [] false;
      sample_row [("Count Episodios", Some 3)] [] false ].

Definition no_counts : DataFrame :=
  mkFrame ["Count Episodios"]
    [ sample_row [] [] false; sample_row [] [] false ].

(* ================================================================== *)
(** * Properties *)

(** ** Comparisons, minimum and maximum *)

Lemma Qltb_lt x y : Qltb x y = true <-> x < y.
Proof.
  unfold Qltb. rewrite negb_true_iff. split; intro H.
  - apply Qnot_le_lt. intro L. apply Qle_bool_iff in L. congruence.
  - destruct (Qle_bool y x) eqn:E; trivial.
    apply Qle_bool_iff in E. exfalso. apply (Qlt_not_le _ _ H E).
Qed.

Lemma Qltb_ge x y : Qltb x y = false <-> y <= x.
Proof.
  unfold Qltb. rewrite negb_false_iff. apply Qle_bool_iff.
Qed.

Lemma min_from_le_seed l : forall x, min_from x l <= x.
Proof.
  unfold min_from. induction l as [|y l IH]; intro x; simpl.
  - apply Qle_refl.
  - destruct (Qltb y x) eqn:E.
    + apply Qltb_lt in E. eapply Qle_trans; [apply IH|]. now apply Qlt_le_weak.
    + apply IH.
Qed.

Lemma min_from_le_in l : forall x y, In y l -> min_from x l <= y.
Proof.
  unfold min_from. induction l as [|z l IH]; intros x y H; [easy|]. destruct H as [->|H]; simpl.
  - destruct (Qltb y x) eqn:E.
    + apply (min_from_le_seed l y).
    + apply Qltb_ge in E. eapply Qle_trans; [apply (min_from_le_seed l x)|exact E].
  - now apply IH.
Qed.

Lemma max_from_ge_seed l : forall x, x <= max_from x l.
Proof.
  unfold max_from. induction l as [|y l IH]; intro x; simpl.
  - apply Qle_refl.
  - destruct (Qltb x y) eqn:E.
    + apply Qltb_lt in E. eapply Qle_trans; [|apply IH]. now apply Qlt_le_weak.
    + apply IH.
Qed.

Lemma max_from_ge_in l : forall x y, In y l -> y <= max_from x l.
Proof.
  unfold max_from. induction l as [|z l IH]; intros x y H; [easy|]. destruct H as [->|H]; simpl.
  - destruct (Qltb x y) eqn:E.
    + apply (max_from_ge_seed l y).
    + apply Qltb_ge in E. eapply Qle_trans; [exact E|apply (max_from_ge_seed l x)].
  - now apply IH.
Qed.

Lemma py_min_le l y : In y l -> py_min l <= y.
Proof.
  destruct l as [|x l]; [easy|]. intros [->|H]; simpl.
  - apply min_from_le_seed.
  - now apply min_from_le_in.
Qed.

Lemma py_max_ge l y : In y l -> y <= py_max l.
Proof.
  destruct l as [|x l]; [easy|]. intros [->|H]; simpl.
  - apply max_from_ge_seed.
  - now apply max_from_ge_in.
Qed.

Lemma min_from_in l : forall x, In (min_from x l) (x :: l).
Proof.
  unfold min_from. induction l as [|y l IH]; intro x; simpl; [now left|].
  destruct (Qltb y x).
  - right. apply IH.
  - destruct (IH x) as [H|H]; [now left|right; now right].
Qed.

Lemma max_from_in l : forall x, In (max_from x l) (x :: l).
Proof.
  unfold max_from. induction l as [|y l IH]; intro x; simpl; [now left|].
  destruct (Qltb x y).
  - right. apply IH.
  - destruct (IH x) as [H|H]; [now left|right; now right].
Qed.

Lemma py_min_in l : l <> [] -> In (py_min l) l.
Proof. destruct l; [easy|]. intros _. apply min_from_in. Qed.

Lemma py_max_in l : l <> [] -> In (py_max l) l.
Proof. destruct l; [easy|]. intros _. apply max_from_in. Qed.

Lemma in_dropna_values s x : In x (dropna_values s) <-> In (Some x) s.
Proof.
  induction s as [|[y|] s IH]; simpl.
  - tauto.
  - rewrite IH. split; intros [H|H]; auto. + left; congruence. + left; congruence.
  - rewrite IH. split; [auto|]. intros [H|H]; [discriminate|trivial].
Qed.

Lemma series_min_le s m x :
  series_min s = Some m -> In (Some x) s -> m <= x.
Proof.
  unfold series_min. intros Hm Hx. apply in_dropna_values in Hx.
  destruct (dropna_values s) as [|y l]; [discriminate|].
  injection Hm as <-. now apply (py_min_le (y :: l)).
Qed.

Lemma series_max_ge s m x :
  series_max s = Some m -> In (Some x) s -> x <= m.
Proof.
  unfold series_max. intros Hm Hx. apply in_dropna_values in Hx.
  destruct (dropna_values s) as [|y l]; [discriminate|].
  injection Hm as <-. now apply (py_max_ge (y :: l)).
Qed.

(** ** Row heights *)

Lemma midpoint_within :
  Config.MIN_BAR_HEIGHT <= midpoint <= Config.MAX_BAR_HEIGHT.
Proof.
  unfold midpoint, Config.MIN_BAR_HEIGHT, Config.MAX_BAR_HEIGHT.
  split; unfold Qle; simpl; lia.
Qed.

Lemma linear_height_within cmin cmax c :
  cmin <= c -> c <= cmax -> ~ cmax - cmin == 0 ->
  Config.MIN_BAR_HEIGHT <= linear_height cmin cmax c <= Config.MAX_BAR_HEIGHT.
Proof.
  intros Hlo Hhi Hne.
  assert (Hpos : 0 < cmax - cmin).
  { destruct (Qlt_le_dec 0 (cmax - cmin)) as [H|H]; [exact H|].
    exfalso. apply Hne. lra. }
  unfold linear_height, Config.MIN_BAR_HEIGHT, Config.MAX_BAR_HEIGHT.
  set (t := (c - cmin) / (cmax - cmin)).
  assert (H0 : 0 <= t).
  { unfold t. apply Qle_shift_div_l; [exact Hpos|]. lra. }
  assert (H1 : t <= 1).
  { unfold t. apply Qle_shift_div_r; [exact Hpos|]. lra. }
  split; lra.
Qed.

Lemma heights_length df :
  length (_calculate_bar_heights df) = length (rows df).
Proof.
  unfold _calculate_bar_heights, np_full, column.
  destruct (negb _); [apply repeat_length|].
  destruct (feqb _ _); [rewrite repeat_length|]; now rewrite !length_map.
Qed.

Lemma heights_without_column df :
  has_column (columns df) count_column = false ->
  _calculate_bar_heights df = np_full (length (rows df)) midpoint.
Proof.
  unfold _calculate_bar_heights, count_column. now intros ->.
Qed.

Lemma heights_zero_range df cmin cmax :
  has_column (columns df) count_column = true ->
  series_min (column df count_column) = Some cmin ->
  series_max (column df count_column) = Some cmax ->
  cmax - cmin == 0 ->
  _calculate_bar_heights df = np_full (length (rows df)) midpoint.
Proof.
  unfold _calculate_bar_heights, count_column. intros -> -> -> H. simpl.
  apply Qeq_bool_iff in H. rewrite H.
  unfold np_full, column. now rewrite length_map.
Qed.

Lemma heights_linear df cmin cmax i c :
  has_column (columns df) count_column = true ->
  series_min (column df count_column) = Some cmin ->
  series_max (column df count_column) = Some cmax ->
  ~ cmax - cmin == 0 ->
  nth_error (column df count_column) i = Some (Some c) ->
  nth_error (_calculate_bar_heights df) i
  = Some (Some (linear_height cmin cmax c)).
Proof.
  unfold _calculate_bar_heights, count_column. intros -> -> -> H Hi. simpl.
  destruct (Qeq_bool (cmax - cmin) 0) eqn:E.
  - apply Qeq_bool_iff in E. contradiction.
  - rewrite nth_error_map, Hi. reflexivity.
Qed.

Lemma heights_within df i c :
  nth_error (column df count_column) i = Some (Some c) ->
  exists h,
    nth_error (_calculate_bar_heights df) i = Some (Some h)
    /\ Config.MIN_BAR_HEIGHT <= h <= Config.MAX_BAR_HEIGHT.
Proof.
  intro Hi.
  assert (Hlen : (i < length (rows df))%nat).
  { assert (H : nth_error (column df count_column) i <> None) by congruence.
    apply nth_error_Some in H. unfold column in H.
    now rewrite length_map in H. }
  assert (Hmid : nth_error (np_full (length (rows df)) midpoint) i
                 = Some (Some midpoint)).
  { now apply nth_error_repeat. }
  destruct (has_column (columns df) count_column) eqn:Hc.
  2:{ rewrite (heights_without_column _ Hc), Hmid.
      exists midpoint. split; [reflexivity|apply midpoint_within]. }
  assert (Hin : In (Some c) (column df count_column))
    by (eapply nth_error_In; eassumption).
  destruct (series_min (column df count_column)) as [cmin|] eqn:Emin.
  2:{ unfold series_min in Emin. apply in_dropna_values in Hin.
      destruct (dropna_values _); [easy|discriminate]. }
  destruct (series_max (column df count_column)) as [cmax|] eqn:Emax.
  2:{ unfold series_max in Emax. apply in_dropna_values in Hin.
      destruct (dropna_values _); [easy|discriminate]. }
  destruct (Qeq_dec (cmax - cmin) 0) as [Z|NZ].
  - rewrite (heights_zero_range _ Hc Emin Emax Z), Hmid.
    exists midpoint. split; [reflexivity|apply midpoint_within].
  - rewrite (heights_linear _ _ Hc Emin Emax NZ Hi).
    eexists. split; [reflexivity|].
    apply linear_height_within; trivial.
    + eapply series_min_le; eassumption.
    + eapply series_max_ge; eassumption.
Qed.

Lemma dropna_all_missing s :
  (forall x, In x s -> x = NaN) -> dropna_values s = [].
Proof.
  induction s as [|[x|] s IH]; intro H; simpl.
  - reflexivity.
  - discriminate (H (Some x)). now left.
  - apply IH. intros x Hx. apply H. now right.
Qed.

Lemma heights_missing_count df cmin cmax i :
  has_column (columns df) count_column = true ->
  series_min (column df count_column) = Some cmin ->
  series_max (column df count_column) = Some cmax ->
  ~ cmax - cmin == 0 ->
  nth_error (column df count_column) i = Some NaN ->
  nth_error (_calculate_bar_heights df) i = Some NaN.
Proof.
  unfold _calculate_bar_heights, count_column. intros -> -> -> H Hi. simpl.
  destruct (Qeq_bool (cmax - cmin) 0) eqn:E.
  - apply Qeq_bool_iff in E. contradiction.
  - rewrite nth_error_map, Hi. reflexivity.
Qed.

Lemma map_all_missing (f : float -> float) s :
  (forall c, In c s -> c = NaN) -> f NaN = NaN ->
  map f s = repeat NaN (length s).
Proof.
  intros H Hf. induction s as [|c s IH]; [reflexivity|].
  cbn [map length repeat]. rewrite (H c) by now left. rewrite Hf.
  f_equal. apply IH. intros x Hx. apply H. now right.
Qed.

Lemma heights_no_count df :
  has_column (columns df) count_column = true ->
  (forall c, In c (column df count_column) -> c = NaN) ->
  _calculate_bar_heights df = repeat NaN (length (rows df)).
Proof.
  unfold _calculate_bar_heights, count_column. intros -> H. simpl.
  assert (E : series_max (column df "Count Episodios") = NaN).
  { unfold series_max. now rewrite dropna_all_missing. }
  rewrite E. cbn [fsub lift2 feqb].
  rewrite map_all_missing by (trivial; reflexivity).
  unfold column. now rewrite length_map.
Qed.

(** ** Percentile bars *)

Lemma Normalize_ok vmin vmax v :
  vmin <= vmax -> Normalize vmin vmax v = ret (norm_value vmin vmax v).
Proof.
  intro H. unfold Normalize, norm_value.
  destruct (Qeq_bool vmin vmax); [reflexivity|].
  destruct (Qltb vmax vmin) eqn:E; [|reflexivity].
  apply Qltb_lt in E. exfalso. apply (Qlt_not_le _ _ E H).
Qed.

Lemma Qltb_0_minus a b : Qltb 0 (b - a) = Qltb a b.
Proof.
  destruct (Qltb a b) eqn:E.
  - apply Qltb_lt in E. apply Qltb_lt. lra.
  - apply Qltb_ge in E. apply Qltb_ge. lra.
Qed.

Lemma color_bars_calls cmap idx height vmin vmax :
  vmin <= vmax ->
  forall ps,
    color_bars cmap idx height vmin vmax ps
    = (map (segment cmap idx height (norm_value vmin vmax))
           (filter increasing (adjacent_pairs ps)),
       Ok tt).
Proof.
  intros Hle ps. induction ps as [|a ps IH]; [reflexivity|].
  destruct ps as [|b rest]; [reflexivity|].
  change (color_bars cmap idx height vmin vmax (a :: b :: rest))
    with (n <- Normalize vmin vmax ((a + b) / 2) ;;
          (if Qltb 0 (b - a)
           then emit (barh idx (b - a) a height (Mapped (cmap n)))
           else ret tt) ;;;
          color_bars cmap idx height vmin vmax (b :: rest)).
  rewrite (Normalize_ok _ Hle), IH, Qltb_0_minus.
  unfold adjacent_pairs, increasing. simpl combine. simpl filter.
  destruct (Qltb a b); reflexivity.
Qed.

Lemma in_adjacent_pairs l a b :
  In (a, b) (adjacent_pairs l) -> In a l /\ In b l.
Proof.
  unfold adjacent_pairs. intro H. split.
  - eapply in_combine_l; eassumption.
  - apply in_combine_r in H. destruct l; [easy|]. now right.
Qed.

Lemma py_min_le_max l : py_min l <= py_max l.
Proof.
  destruct l as [|x l]; [apply Qle_refl|].
  eapply Qle_trans; [apply (py_min_le (x :: l) x)|apply (py_max_ge (x :: l) x)];
    now left.
Qed.

(** Within one record, a segment that is drawn has the colour of the
    local normalisation at its midpoint. *)
Lemma segments_local_norm cmap idx height ps :
  map (segment cmap idx height (norm_value (py_min ps) (py_max ps)))
      (filter increasing (adjacent_pairs ps))
  = map (segment cmap idx height (norm (py_min ps) (py_max ps)))
        (filter increasing (adjacent_pairs ps)).
Proof.
  apply map_ext_in. intros [a b] H. apply filter_In in H.
  destruct H as [Hin Hinc]. apply in_adjacent_pairs in Hin.
  destruct Hin as [Ha Hb]. apply Qltb_lt in Hinc. simpl in Hinc.
  unfold segment, norm_value, norm.
  destruct (Qeq_bool (py_min ps) (py_max ps)) eqn:E; [|reflexivity].
  apply Qeq_bool_iff in E. exfalso.
  pose proof (py_min_le ps a Ha). pose proof (py_max_ge ps b Hb). lra.
Qed.

Lemma create_percentile_bars_few cmap row idx height cols :
  (length (present_percentiles row cols) < 2)%nat ->
  _create_percentile_bars cmap row idx height cols = ([], Ok tt).
Proof.
  intro H. unfold _create_percentile_bars.
  apply Nat.ltb_lt in H. now rewrite H.
Qed.

Lemma create_percentile_bars_constant cmap row idx height cols :
  (2 <= length (present_percentiles row cols))%nat ->
  sin_variacion row = true ->
  _create_percentile_bars cmap row idx height cols
  = ([ barh idx 1 (nth 0 (present_percentiles row cols) 0 - (1 # 2)) height
            (Named Config.light_gray);
       text (nth 0 (present_percentiles row cols) 0 + 1) idx
            (Text Config.no_variation) None (Some Config.dark_gray) ],
     Ok tt).
Proof.
  intros H Hc. unfold _create_percentile_bars.
  apply Nat.ltb_ge in H. now rewrite H, Hc.
Qed.

Lemma create_percentile_bars_varying cmap row idx height cols :
  (2 <= length (present_percentiles row cols))%nat ->
  sin_variacion row = false ->
  _create_percentile_bars cmap row idx height cols
  = (let ps := present_percentiles row cols in
     map (segment cmap idx height (norm (py_min ps) (py_max ps)))
         (filter increasing (adjacent_pairs ps)),
     Ok tt).
Proof.
  intros H Hc. unfold _create_percentile_bars.
  apply Nat.ltb_ge in H. rewrite H, Hc.
  rewrite color_bars_calls by apply py_min_le_max.
  cbv zeta. now rewrite segments_local_norm.
Qed.

(** ** The calls of composed drawing code *)

Lemma calls_bind {A B} (m : Draw A) (f : A -> Draw B) :
  calls (bind m f)
  = calls m ++ match snd m with
               | Ok a => calls (f a)
               | Raise _ => []
               end.
Proof.
  destruct m as [w [a|msg]]; simpl.
  - unfold calls. now destruct (f a).
  - now rewrite app_nil_r.
Qed.

Section AllCalls.

Variable P : ax_call -> Prop.

Lemma Forall_bind {A B} (m : Draw A) (f : A -> Draw B) :
  Forall P (calls m) -> (forall a, Forall P (calls (f a))) ->
  Forall P (calls (bind m f)).
Proof.
  intros Hm Hf. rewrite calls_bind. apply Forall_app. split; [exact Hm|].
  destruct (snd m); [apply Hf|constructor].
Qed.

Lemma Forall_for_each {A} (l : list A) (body : A -> Draw unit) :
  (forall a, Forall P (calls (body a))) ->
  Forall P (calls (for_each l body)).
Proof.
  intro H. induction l as [|a l IH]; simpl.
  - constructor.
  - apply Forall_bind; [apply H|intros _; exact IH].
Qed.

Lemma Forall_ret {A} (a : A) : Forall P (calls (ret a)).
Proof. constructor. Qed.

Lemma Forall_emit c : P c -> Forall P (calls (emit c)).
Proof. intro H. repeat constructor. exact H. Qed.

Lemma Forall_tight_layout tight_layout (m : Draw unit) :
  Forall P (calls m) -> Forall P (calls (plt_tight_layout tight_layout m)).
Proof. now destruct m as [w [[]|msg]]. Qed.

End AllCalls.

Lemma proper_rectangle_width y w l h c :
  proper_rectangle (barh y w l h c) <-> 0 < w.
Proof. simpl. split; intro; lra. Qed.

Ltac proper_calls :=
  repeat first
    [ apply Forall_bind; [|intros ?]
    | apply Forall_for_each; intros ?
    | apply Forall_ret
    | apply Forall_emit; exact I
    | match goal with
      | |- Forall _ (calls (if ?b then _ else _)) => destruct b
      | |- Forall _ (calls (match ?o with Some _ => _ | None => _ end)) =>
          destruct o
      | |- Forall _ (calls (let (_, _) := ?p in _)) => destruct p
      end ].

Lemma percentile_bars_proper cmap row idx height cols :
  Forall proper_rectangle
         (calls (_create_percentile_bars cmap row idx height cols)).
Proof.
  destruct (Nat.lt_ge_cases (length (present_percentiles row cols)) 2)
    as [Hfew|Hmany].
  - rewrite create_percentile_bars_few by exact Hfew. constructor.
  - destruct (sin_variacion row) eqn:Hc.
    + rewrite create_percentile_bars_constant by assumption.
      repeat constructor. simpl. lra.
    + rewrite create_percentile_bars_varying by assumption.
      unfold calls, fst. apply Forall_forall. intros c Hin.
      apply in_map_iff in Hin. destruct Hin as ([a b] & <- & Hin).
      apply filter_In in Hin. destruct Hin as [_ Hinc].
      apply Qltb_lt in Hinc. simpl in *. lra.
Qed.

Lemma inss_lines_proper row idx height :
  Forall proper_rectangle (calls (_add_inss_lines row idx height)).
Proof. unfold _add_inss_lines. proper_calls. Qed.

Lemma labels_proper str_float row idx x_min x_max lm rm :
  Forall proper_rectangle
         (calls (_add_labels str_float row idx x_min x_max lm rm)).
Proof. unfold _add_labels. proper_calls. Qed.

Lemma shading_proper df :
  Forall proper_rectangle (calls (_add_diagnosis_shading df)).
Proof. unfold _add_diagnosis_shading, shade. proper_calls. Qed.

Lemma chart_body_proper cmap str_float tight_layout df :
  Forall proper_rectangle (calls (chart_body cmap str_float tight_layout df)).
Proof.
  unfold chart_body.
  destruct (empty df); [constructor|].
  destruct (_ =? _)%nat; [constructor|].
  destruct (frame_min _ _); [|constructor].
  destruct (frame_max _ _); [|constructor].
  cbv zeta.
  apply Forall_bind; [apply Forall_tight_layout|intros _; apply Forall_ret].
  apply Forall_bind; [apply Forall_emit; exact I|intros _].
  apply Forall_bind; [|intros _].
  { apply Forall_for_each. intros [idx row]. simpl fst. simpl snd.
    apply Forall_bind; [apply percentile_bars_proper|intros _].
    apply Forall_bind; [apply inss_lines_proper|intros _].
    apply labels_proper. }
  apply Forall_bind; [apply Forall_emit; exact I|intros _].
  apply Forall_bind; [apply shading_proper|intros _].
  unfold _customize_chart, _add_legend. proper_calls.
Qed.

Lemma ax_calls_chart cmap str_float tight_layout df :
  ax_calls (create_comparative_chart cmap str_float tight_layout df)
  = calls (chart_body cmap str_float tight_layout df).
Proof.
  unfold create_comparative_chart.
  destruct (chart_body cmap str_float tight_layout df)
    as [w [[|shown]|msg]]; reflexivity.
Qed.

(** ** Diagnosis runs *)

Lemma ne_shift l : forall prev, ne l (prev :: removelast l) = breaks prev l.
Proof.
  induction l as [|x l IH]; intro prev; [reflexivity|].
  simpl ne. simpl breaks. f_equal.
  destruct l as [|y l]; [reflexivity|]. apply (IH x).
Qed.

Lemma cumsum_from_ge s : forall a k, In k (cumsum_from a s) -> (a <= k)%nat.
Proof.
  induction s as [|x s IH]; intros a k H; [easy|].
  destruct H as [<-|H]; [lia|]. apply IH in H. lia.
Qed.

Lemma count_occ_other (K : list nat) k0 k :
  k <> k0 -> count_occ Nat.eq_dec (k0 :: K) k = count_occ Nat.eq_dec K k.
Proof. intro H. apply count_occ_cons_neq. congruence. Qed.

(** The sizes of the groups of the running break count are the run
    lengths. *)
Lemma groupby_runs l : forall x prev acc,
  let K := cumsum_from acc (map b2n (breaks prev (x :: l))) in
  let k0 := (acc + b2n (cell_ne x prev))%nat in
  exists t,
    group_keys K = k0 :: t
    /\ Forall (lt k0) t
    /\ map (count_occ Nat.eq_dec K) (k0 :: t) = run_lengths_from x l.
Proof.
  induction l as [|y l IH]; intros x prev acc K k0.
  - exists []. subst K. simpl. fold k0.
    destruct (Nat.eq_dec k0 k0); [auto|congruence].
  - destruct (IH y x k0) as (t' & Hkeys & Hlt & Hcounts).
    set (K' := cumsum_from k0 (map b2n (breaks x (y :: l)))) in *.
    set (k1 := (k0 + b2n (cell_ne y x))%nat) in *.
    assert (HK : K = k0 :: K') by reflexivity.
    assert (Hg : group_keys K = insert_key k0 (k1 :: t')).
    { rewrite HK.
      change (group_keys (k0 :: K')) with (insert_key k0 (group_keys K')).
      now rewrite Hkeys. }
    simpl run_lengths_from. rewrite <- Hcounts.
    destruct (cell_ne y x) eqn:E; simpl in k1.
    + assert (Hfresh : count_occ Nat.eq_dec K' k0 = 0%nat).
      { apply count_occ_not_In. intro Hin. subst K'. simpl in Hin.
        rewrite E in Hin. simpl in Hin. destruct Hin as [Hin|Hin]; [lia|].
        apply cumsum_from_ge in Hin. lia. }
      exists (k1 :: t'). split; [|split].
      * rewrite Hg. simpl. replace (k0 <? k1)%nat with true; [reflexivity|].
        symmetry. apply Nat.ltb_lt. lia.
      * constructor; [lia|]. eapply Forall_impl; [|exact Hlt]. simpl. lia.
      * unfold extend_runs. rewrite HK. cbn [map].
        rewrite count_occ_cons_eq by reflexivity. rewrite Hfresh. f_equal.
        rewrite count_occ_other by lia. f_equal.
        apply map_ext_in. intros k Hk. rewrite Forall_forall in Hlt.
        apply Hlt in Hk. apply count_occ_other. lia.
    + assert (Hk1 : k1 = k0) by lia.
      exists t'. split; [|split].
      * rewrite Hg, Hk1. simpl. rewrite Nat.ltb_irrefl, Nat.eqb_refl.
        reflexivity.
      * rewrite Hk1 in Hlt. exact Hlt.
      * unfold extend_runs. rewrite HK, Hk1. cbn [map].
        rewrite count_occ_cons_eq by reflexivity. f_equal.
        apply map_ext_in. intros k Hk. rewrite Forall_forall in Hlt.
        apply Hlt in Hk. apply count_occ_other. lia.
Qed.

Lemma groupby_size_runs l :
  groupby_size (cumsum_bool (ne l (shift l))) = run_lengths l.
Proof.
  destruct l as [|x l]; [reflexivity|].
  unfold shift, cumsum_bool, cumsum. rewrite ne_shift.
  destruct (groupby_runs l x Blank 0) as (t & Hkeys & _ & Hcounts).
  unfold groupby_size. fold b2n. rewrite Hkeys. exact Hcounts.
Qed.

Lemma spans_from_cumsum s : forall a,
  combine (series_sub (cumsum_from a s) s) (cumsum_from a s) = spans_from a s.
Proof.
  induction s as [|n s IH]; intro a; [reflexivity|].
  simpl. rewrite IH. now rewrite Nat.add_sub.
Qed.

Lemma diagnosis_bounds_spans l :
  diagnosis_bounds l = spans_from 0 (run_lengths l).
Proof.
  unfold diagnosis_bounds. cbv zeta. rewrite groupby_size_runs.
  apply spans_from_cumsum.
Qed.

Lemma run_lengths_from_positive l : forall x,
  Forall (lt 0) (run_lengths_from x l).
Proof.
  induction l as [|y l IH]; intro x; simpl.
  - repeat constructor.
  - specialize (IH y). unfold extend_runs.
    destruct (cell_ne y x); [constructor; [lia|exact IH]|].
    destruct (run_lengths_from y l) as [|n r]; [repeat constructor|].
    inversion IH; subst. constructor; [lia|assumption].
Qed.

Lemma run_lengths_from_sum l : forall x,
  list_sum (run_lengths_from x l) = S (length l).
Proof.
  induction l as [|y l IH]; intro x; simpl; [reflexivity|].
  specialize (IH y). pose proof (run_lengths_from_positive l y) as Hpos.
  unfold extend_runs. destruct (cell_ne y x); simpl; [lia|].
  destruct (run_lengths_from y l) as [|n r]; simpl in *; lia.
Qed.

Lemma tiles_spans s : forall a,
  Forall (lt 0) s -> tiles a (spans_from a s) (a + list_sum s).
Proof.
  induction s as [|n s IH]; intros a H; simpl.
  - lia.
  - inversion H; subst. split; [reflexivity|]. split; [lia|].
    rewrite Nat.add_assoc. now apply IH.
Qed.

Lemma spans_starts l : forall a x,
  map fst (spans_from a (run_lengths_from x l))
  = a :: run_starts_from (S a) x l.
Proof.
  induction l as [|y l IH]; intros a x; [reflexivity|].
  simpl run_lengths_from. simpl run_starts_from. unfold extend_runs.
  destruct (cell_ne y x).
  - simpl. f_equal. rewrite Nat.add_1_r. apply IH.
  - specialize (IH (S a) y).
    destruct (run_lengths_from y l) as [|n r]; [discriminate|].
    simpl in *. injection IH as IH. f_equal.
    rewrite <- IH. f_equal. f_equal. lia.
Qed.

Lemma cell_ne_Blank x : cell_ne x Blank = true.
Proof. now destruct x. Qed.

Lemma tiles_combine spans : forall a n,
  tiles a spans n ->
  spans = combine (map fst spans) (tl (map fst spans) ++ [n]).
Proof.
  induction spans as [|[s e] r IH]; intros a n H; [reflexivity|].
  destruct H as (-> & _ & H). simpl.
  destruct r as [|[s' e'] r'].
  - simpl in H. now subst.
  - pose proof H as (-> & _ & _). rewrite (IH _ _ H) at 1. reflexivity.
Qed.

Lemma diagnosis_bounds_tile l :
  tiles 0 (diagnosis_bounds l) (length l).
Proof.
  rewrite diagnosis_bounds_spans. destruct l as [|x l]; [reflexivity|].
  simpl run_lengths. simpl length.
  rewrite <- (run_lengths_from_sum l x).
  apply tiles_spans with (a := 0%nat), run_lengths_from_positive.
Qed.

Lemma diagnosis_bounds_starts l :
  map fst (diagnosis_bounds l) = run_starts l.
Proof.
  rewrite diagnosis_bounds_spans. destruct l as [|x l]; [reflexivity|].
  unfold run_starts. simpl. rewrite cell_ne_Blank. apply spans_starts.
Qed.

(** A slot opens a run exactly when it is a slot of the frame whose
    diagnosis differs from the one in the slot before (the first slot
    has nothing before it). *)
Lemma run_starts_from_spec l : forall a prev i,
  In i (run_starts_from a prev l)
  <-> exists j x,
        i = (a + j)%nat
        /\ nth_error l j = Some x
        /\ cell_ne x (nth j (prev :: l) Blank) = true.
Proof.
  induction l as [|y l IH]; intros a prev i.
  - simpl. split; [easy|]. intros (j & x & _ & H & _). now destruct j.
  - simpl run_starts_from. rewrite in_app_iff, IH. split.
    + intros [H|(j & x & -> & Hj & Hne)].
      * destruct (cell_ne y prev) eqn:E; [|easy].
        destruct H as [<-|[]]. exists 0%nat, y.
        repeat split; [lia|exact E].
      * exists (S j), x. repeat split; [lia|exact Hj|exact Hne].
    + intros ([|j] & x & -> & Hj & Hne).
      * left. simpl in Hj, Hne. injection Hj as ->. rewrite Hne.
        left. lia.
      * right. exists j, x. repeat split; [lia|exact Hj|exact Hne].
Qed.

Lemma run_starts_spec l i :
  In i (run_starts l)
  <-> exists x,
        nth_error l i = Some x
        /\ (i = 0%nat \/ cell_ne x (nth (i - 1) l Blank) = true).
Proof.
  unfold run_starts. rewrite run_starts_from_spec. split.
  - intros (j & x & -> & Hj & Hne). exists x. split; [exact Hj|].
    destruct j as [|j]; [now left|right].
    simpl in *. now rewrite Nat.sub_0_r.
  - intros (x & Hi & H). exists i, x. repeat split; [exact Hi|].
    destruct i as [|i]; [apply cell_ne_Blank|].
    destruct H as [H|H]; [discriminate|].
    simpl in *. now rewrite Nat.sub_0_r in H.
Qed.

(** The loop of [_add_diagnosis_shading] runs over the maximal runs. *)
Lemma diagnosis_bounds_maximal_runs l :
  diagnosis_bounds l = maximal_runs l.
Proof.
  unfold maximal_runs. cbv zeta. rewrite <- diagnosis_bounds_starts.
  eapply tiles_combine, diagnosis_bounds_tile.
Qed.

(** ** What a loop draws *)

Lemma for_each_calls {A} (l : list A) (body : A -> Draw unit)
      (drawn : A -> list ax_call) :
  (forall a, body a = (drawn a, Ok tt)) ->
  for_each l body = (flat_map drawn l, Ok tt).
Proof.
  intro H. induction l as [|a l IH]; simpl; [reflexivity|].
  now rewrite H, IH.
Qed.

Lemma even_mod2 i : (i mod 2 =? 0)%nat = Nat.even i.
Proof.
  destruct (Nat.even i) eqn:E.
  - apply Nat.even_spec in E. destruct E as [k ->].
    now rewrite Nat.mul_comm, Nat.Div0.mod_mul.
  - rewrite <- Nat.negb_odd, negb_false_iff in E.
    apply Nat.odd_spec in E. destruct E as [k ->].
    now rewrite Nat.add_comm, Nat.mul_comm, Nat.Div0.mod_add.
Qed.

Lemma shade_calls i run : shade i run = (band_calls i run, Ok tt).
Proof.
  destruct run as [s e]. unfold shade, band_calls.
  rewrite even_mod2. now destruct i.
Qed.

Lemma shading_calls df :
  has_column (columns df) diagnosis_column = true ->
  _add_diagnosis_shading df
  = (flat_map (fun ir => band_calls (fst ir) (snd ir))
              (enumerate (diagnosis_bounds (diagnoses df))),
     Ok tt).
Proof.
  intro H. unfold _add_diagnosis_shading. unfold diagnosis_column in H.
  rewrite H. simpl negb. cbv iota zeta.
  apply for_each_calls. intros [i run]. apply shade_calls.
Qed.

(** ** Distinct values *)

Lemma distinct_covers l : forall v,
  In v l -> exists w, In w (distinct l) /\ w == v.
Proof.
  induction l as [|x l IH]; intros v H; [easy|]. simpl.
  destruct (existsb (Qeq_bool x) l) eqn:E.
  - destruct H as [<-|H]; [|now apply IH].
    apply existsb_exists in E. destruct E as (y & Hy & Hxy).
    apply Qeq_bool_iff in Hxy. destruct (IH _ Hy) as (w & Hw & Hwy).
    exists w. split; [exact Hw|]. now rewrite Hwy, Hxy.
  - destruct H as [<-|H].
    + exists x. split; [now left|reflexivity].
    + destruct (IH _ H) as (w & Hw & Hwv). exists w. split; [now right|exact Hwv].
Qed.

Lemma distinct_incl l v : In v (distinct l) -> In v l.
Proof.
  induction l as [|x l IH]; [easy|]. simpl.
  destruct (existsb (Qeq_bool x) l); [now right; apply IH|].
  intros [<-|H]; [now left|right; now apply IH].
Qed.

Lemma distinct_nonempty l : l <> [] -> (1 <= length (distinct l))%nat.
Proof.
  induction l as [|x l IH]; [easy|]. intros _. simpl.
  destruct (existsb (Qeq_bool x) l) eqn:E; [|simpl; lia].
  apply IH. intros ->. discriminate.
Qed.

Lemma distinct_all_equal l v :
  (forall w, In w l -> w == v) -> (length (distinct l) <= 1)%nat.
Proof.
  induction l as [|x l IH]; intro H; [simpl; lia|]. simpl.
  destruct (existsb (Qeq_bool x) l) eqn:E.
  - apply IH. intros w Hw. apply H. now right.
  - destruct l as [|y l]; [simpl; lia|]. exfalso.
    assert (Hx : x == v) by (apply H; now left).
    assert (Hy : y == v) by (apply H; right; now left).
    assert (Hex : existsb (Qeq_bool x) (y :: l) = true).
    { apply existsb_exists. exists y. split; [now left|].
      apply Qeq_bool_iff. now rewrite Hx, Hy. }
    congruence.
Qed.

Lemma nunique_one s : nunique s = 1%nat <-> one_distinct_value s.
Proof.
  unfold nunique, one_distinct_value. split.
  - intro H. destruct (distinct (dropna_values s)) as [|v [|? ?]] eqn:E;
      try discriminate.
    exists v. split.
    + apply in_dropna_values, distinct_incl. rewrite E. now left.
    + intros w Hw. apply in_dropna_values, distinct_covers in Hw.
      destruct Hw as (u & Hu & Huw). rewrite E in Hu.
      destruct Hu as [<-|[]]. now symmetry.
  - intros (v & Hv & Hall). apply in_dropna_values in Hv.
    apply Nat.le_antisymm.
    + apply distinct_all_equal with (v := v). intros w Hw.
      apply Hall. now apply in_dropna_values.
    + apply distinct_nonempty. intros E. now rewrite E in Hv.
Qed.

Lemma nunique_single s v :
  dropna_values s = [v] -> nunique s = 1%nat.
Proof. unfold nunique. now intros ->. Qed.

Lemma nunique_all_missing s :
  dropna_values s = [] -> nunique s = 0%nat.
Proof. unfold nunique. now intros ->. Qed.

(** ** Fields added by the ingestion stage *)

Lemma has_column_with_column cols name c :
  has_column cols c = true -> has_column (with_column cols name) c = true.
Proof.
  unfold with_column. destruct (has_column cols name); [trivial|].
  unfold has_column. rewrite existsb_app. now intros ->.
Qed.

Lemma has_column_added cols name :
  has_column (with_column cols name) name = true.
Proof.
  unfold with_column. destruct (has_column cols name) eqn:E; [exact E|].
  unfold has_column. rewrite existsb_app. simpl.
  rewrite String.eqb_refl. now rewrite orb_true_r.
Qed.

Lemma additional_fields_rows df :
  available_percentiles df <> [] ->
  let df' := _calculate_additional_fields df in
  has_column (columns df') flag_column = true
  /\ (forall c, has_column (columns df) c = true ->
                has_column (columns df') c = true)
  /\ exists f,
       rows df' = map f (rows df)
       /\ forall r,
            percentiles_iguales (f r)
            = percentiles_iguales (flagged (columns df) r)
            /\ obj (f r) = obj r
            /\ forall c, c <> "diferencia_estandar" ->
                         c <> "diferencia_optima" ->
                         num (f r) c = num r c.
Proof.
  intros Hav. unfold _calculate_additional_fields.
  fold (available_percentiles df).
  destruct (available_percentiles df) as [|c0 cs] eqn:Eav; [easy|].
  simpl length. simpl negb. cbv iota.
  unfold available_percentiles in Eav. rewrite <- Eav. clear Eav Hav c0 cs.
  set (df1 := mkFrame _ (map _ (rows df))).
  assert (H1 : has_column (columns df1) flag_column = true)
    by apply has_column_added.
  assert (I1 : forall c, has_column (columns df) c = true ->
                         has_column (columns df1) c = true)
    by (intros c; apply has_column_with_column).
  assert (R1 : rows df1 = map (flagged (columns df)) (rows df)) by reflexivity.
  clearbody df1.
  assert (Hset : forall r name v c,
             c <> name -> num (set_num r name v) c = num r c).
  { intros r name v c Hc. simpl. apply String.eqb_neq in Hc. now rewrite Hc. }
  destruct (has_column (columns df1) "Durestd Inss min"
            && has_column (columns df1) "P60min");
    destruct (has_column _ "Duropt Inss min" && has_column _ "P60min");
    cbn [columns rows]; (split; [|split]);
    try (now repeat apply has_column_with_column);
    try (intros c Hc; now repeat apply has_column_with_column; apply I1);
    rewrite R1, ?map_map; eexists; (split; [reflexivity|]);
    intros r; cbn beta; (split; [reflexivity|]); (split; [reflexivity|]);
    intros c Hc1 Hc2; rewrite ?Hset by assumption; reflexivity.
Qed.

(** ** Rows that leave the ingestion stage *)

Lemma fgeb_true a q : fgeb a q = true -> exists x, a = Some x /\ q <= x.
Proof.
  destruct a as [x|]; [|discriminate]. simpl. intro H.
  exists x. split; [reflexivity|now apply Qle_bool_iff].
Qed.

Lemma fleb_true a q : fleb a q = true -> exists x, a = Some x /\ x <= q.
Proof.
  destruct a as [x|]; [|discriminate]. simpl. intro H.
  exists x. split; [reflexivity|now apply Qle_bool_iff].
Qed.

Lemma numeric_columns_split c :
  In c Config.NUMERIC_COLUMNS <-> In c duration_cols \/ c = count_column.
Proof.
  unfold Config.NUMERIC_COLUMNS, duration_cols, Config.PERCENTILE_COLUMNS,
    count_column. simpl. intuition congruence.
Qed.

Lemma in_range_clean r : in_range r = true -> clean_row r.
Proof.
  unfold in_range. rewrite !andb_true_iff, forallb_forall.
  intros (Hdur & Hlo & Hhi).
  apply fgeb_true in Hlo. destruct Hlo as (q & Hq & Hlo).
  apply fleb_true in Hhi. destruct Hhi as (q' & Hq' & Hhi).
  assert (q' = q) by congruence. subst q'.
  split; [|split].
  - intros c Hc. apply numeric_columns_split in Hc. destruct Hc as [Hc| ->].
    + destruct (fgeb_true _ _ (Hdur c Hc)) as (x & Hx & _). now exists x.
    + now exists q.
  - intros c Hc. now apply fgeb_true, Hdur.
  - exists q. auto.
Qed.

Lemma clean_row_ext r r' :
  (forall c, In c Config.NUMERIC_COLUMNS -> num r' c = num r c) ->
  clean_row r -> clean_row r'.
Proof.
  intros Heq (H1 & H2 & H3). split; [|split].
  - intros c Hc. rewrite Heq by exact Hc. now apply H1.
  - intros c Hc. rewrite Heq; [now apply H2|].
    apply numeric_columns_split. now left.
  - rewrite Heq; [exact H3|]. apply numeric_columns_split. now right.
Qed.

Lemma keep_nonnegative_columns cols : forall df,
  columns (fold_left keep_nonnegative cols df) = columns df.
Proof.
  induction cols as [|c cols IH]; intro df; [reflexivity|].
  simpl. rewrite IH. unfold keep_nonnegative.
  now destruct (has_column (columns df) c).
Qed.

Lemma keep_nonnegative_rows cols : forall df r,
  In r (rows (fold_left keep_nonnegative cols df)) ->
  In r (rows df)
  /\ forall c, In c cols -> has_column (columns df) c = true ->
               fgeb (num r c) 0 = true.
Proof.
  induction cols as [|c cols IH]; intros df r H; [now split|].
  simpl in H. apply IH in H. destruct H as [Hin Hall].
  unfold keep_nonnegative in Hin, Hall.
  destruct (has_column (columns df) c) eqn:E.
  - simpl in Hin. apply filter_In in Hin. destruct Hin as [Hin Hc].
    split; [exact Hin|]. intros c' [<-|Hc'] Hcol; [exact Hc|].
    now apply Hall.
  - split; [exact Hin|]. intros c' [<-|Hc'] Hcol; [congruence|].
    now apply Hall.
Qed.

Lemma validate_ranges_columns df :
  columns (_validate_ranges df) = columns df.
Proof.
  unfold _validate_ranges. cbv zeta.
  change (fold_left _ ?l df) with (fold_left keep_nonnegative l df).
  set (df1 := fold_left keep_nonnegative _ df).
  assert (C : columns df1 = columns df) by apply keep_nonnegative_columns.
  clearbody df1. destruct (has_column _ _); exact C.
Qed.

Lemma validate_ranges_rows df r :
  (forall c, In c Config.NUMERIC_COLUMNS -> has_column (columns df) c = true) ->
  In r (rows (_validate_ranges df)) ->
  In r (rows df) /\ in_range r = true.
Proof.
  intros Hcols. unfold _validate_ranges. cbv zeta.
  change (fold_left _ ?l df) with (fold_left keep_nonnegative l df).
  fold duration_cols.
  set (df1 := fold_left keep_nonnegative duration_cols df).
  assert (C : columns df1 = columns df) by apply keep_nonnegative_columns.
  assert (R : forall r, In r (rows df1) ->
                In r (rows df)
                /\ forall c, In c duration_cols ->
                             has_column (columns df) c = true ->
                             fgeb (num r c) 0 = true)
    by (intro; apply keep_nonnegative_rows).
  clearbody df1. rewrite C.
  fold count_column. rewrite (Hcols count_column).
  2:{ apply numeric_columns_split. now right. }
  unfold keep. cbn [rows]. intro H. apply filter_In in H.
  destruct H as [H Hcount].
  apply R in H. destruct H as [Hin Hdur].
  split; [exact Hin|]. unfold in_range. rewrite Hcount, andb_true_r.
  apply forallb_forall. intros c Hc. apply Hdur; [exact Hc|].
  apply Hcols, numeric_columns_split. now left.
Qed.

Section IngestionProperties.

Variable parse_number : string -> option Q.
Variable sort_values : list string -> DataFrame -> exc DataFrame.

(** Sorting keeps the columns and invents no row. *)
Hypothesis sort_values_rows : forall by_ df df',
  sort_values by_ df = Ok df' ->
  columns df' = columns df /\ incl (rows df') (rows df).

Lemma clean_data_rows raw df :
  _clean_data parse_number raw = Ok df ->
  (forall c, In c Config.NUMERIC_COLUMNS ->
             has_column (columns df) c = true)
  /\ forall r, In r (rows df) -> clean_row r.
Proof.
  unfold _clean_data. cbv zeta.
  destruct (existsb _ Config.NUMERIC_COLUMNS); [discriminate|].
  destruct (forallb (has_column (raw_columns raw)) Config.NUMERIC_COLUMNS)
    eqn:Hall; [|discriminate].
  simpl negb. cbv iota. intro H. injection H as <-.
  rewrite forallb_forall in Hall. split.
  - intros c Hc. rewrite validate_ranges_columns. now apply Hall.
  - intros r Hr. apply validate_ranges_rows in Hr; [|exact Hall].
    now apply in_range_clean.
Qed.

Lemma sort_data_rows df df' :
  _sort_data sort_values df = Ok df' ->
  columns df' = columns df
  /\ forall r', In r' (rows df') ->
       exists r, In r (rows df) /\ num r' = num r.
Proof.
  unfold _sort_data. cbv zeta.
  set (df1 := if has_column (columns df) "Gr Edad 10" then _ else df).
  assert (C1 : columns df1 = columns df)
    by (subst df1; now destruct (has_column _ _)).
  assert (R1 : forall r', In r' (rows df1) ->
                 exists r, In r (rows df) /\ num r' = num r).
  { subst df1. destruct (has_column _ _); intros r' Hr'.
    - simpl in Hr'. apply in_map_iff in Hr'.
      destruct Hr' as (r & <- & Hr). now exists r.
    - now exists r'. }
  clearbody df1. destruct (negb _).
  - intro H. apply sort_values_rows in H. destruct H as [Hc Hr].
    split; [congruence|]. intros r' Hr'. apply R1, Hr, Hr'.
  - intro H. injection H as <-. now split.
Qed.

Lemma available_all df :
  (forall c, In c Config.NUMERIC_COLUMNS ->
             has_column (columns df) c = true) ->
  filter (has_column (columns df)) Config.PERCENTILE_COLUMNS
  = Config.PERCENTILE_COLUMNS.
Proof.
  intro H. unfold Config.PERCENTILE_COLUMNS. simpl.
  rewrite !H; [reflexivity|..]; simpl; tauto.
Qed.

Lemma processed_rows raw df :
  load_and_process_data parse_number sort_values raw = Some df ->
  (forall c, In c Config.NUMERIC_COLUMNS ->
             has_column (columns df) c = true)
  /\ forall r, In r (rows df) -> clean_row r.
Proof.
  unfold load_and_process_data.
  destruct (negb _); [discriminate|].
  destruct (_clean_data _ _) as [df1|] eqn:E1; [|discriminate].
  destruct (_sort_data _ _) as [df2|] eqn:E2; [|discriminate].
  intro H. injection H as <-.
  apply clean_data_rows in E1. destruct E1 as [Hcols Hrows].
  apply sort_data_rows in E2. destruct E2 as [Hc2 Hr2].
  assert (Hcols2 : forall c, In c Config.NUMERIC_COLUMNS ->
                             has_column (columns df2) c = true)
    by (intros c Hc; rewrite Hc2; now apply Hcols).
  assert (Hav : available_percentiles df2 <> []).
  { unfold available_percentiles. now rewrite available_all. }
  destruct (additional_fields_rows df2 Hav) as (_ & Hinc & f & Hf & Hnum).
  split.
  - intros c Hc. now apply Hinc, Hcols2.
  - intros r Hr. rewrite Hf in Hr. apply in_map_iff in Hr.
    destruct Hr as (r2 & <- & Hr2'). destruct (Hr2 _ Hr2') as (r1 & Hr1 & E).
    apply clean_row_ext with (r := r1); [|now apply Hrows].
    intros c Hc. rewrite <- E. apply Hnum; intros ->; revert Hc;
      unfold Config.NUMERIC_COLUMNS; simpl; intuition discriminate.
Qed.

End IngestionProperties.

(* ================================================================== *)
(** * The claims *)

(** C1, as amended.  A record flagged as constant that has at least two
    present percentile values gets exactly two calls, whatever the
    number of values: one rectangle of width 1 from [value - 0.5] to
    [value + 0.5] in light gray, [value] being its first present
    percentile, and one "sin variación" text at [value + 1], right of
    the rectangle.  With fewer than two present values it gets no call
    at all. *)
Theorem constant_record_drawing cmap row idx height cols :
  sin_variacion row = true ->
  let ps := present_percentiles row cols in
  ((2 <= length ps)%nat ->
   exists value rest,
     ps = value :: rest
     /\ _create_percentile_bars cmap row idx height cols
        = ([ barh idx 1 (value - (1 # 2)) height (Named Config.light_gray);
             text (value + 1) idx (Text "sin variación") None
                  (Some Config.dark_gray) ],
           Ok tt)
     /\ (value - (1 # 2)) + 1 == value + (1 # 2)
     /\ value + (1 # 2) < value + 1)
  /\ ((length ps < 2)%nat ->
      _create_percentile_bars cmap row idx height cols = ([], Ok tt)).
Proof.
  intros Hc ps. split.
  - intro Hlen.
    rewrite create_percentile_bars_constant by assumption. fold ps.
    destruct ps as [|value rest]; [simpl in Hlen; lia|].
    exists value, rest. simpl nth.
    repeat split; [ring | lra].
  - apply create_percentile_bars_few.
Qed.

Lemma constant_record_drawing_witness :
  sin_variacion all_twenty = true
  /\ _create_percentile_bars sample_cmap all_twenty 0 (Some midpoint)
                             percentile_cols
     = ([ barh 0 1 (20 - (1 # 2)) (Some midpoint) (Named "lightgray");
          text (20 + 1) 0 (Text "sin variación") None (Some "dimgray") ],
        Ok tt).
Proof.
  split; [reflexivity|].
  destruct (constant_record_drawing sample_cmap all_twenty 0 (Some midpoint)
              percentile_cols eq_refl) as [H _].
  destruct H as (value & rest & Hps & Hcalls & _); [simpl; lia|].
  injection Hps as <- _. exact Hcalls.
Defined.

(** C1 as stated fails: a record flagged as constant whose only present
    percentile is 20 gets no rectangle and no text. *)
Lemma constant_single_value_draws_nothing :
  sin_variacion only_min = true
  /\ present_percentiles only_min percentile_cols = [20]
  /\ _create_percentile_bars sample_cmap only_min 0 (Some midpoint)
                             percentile_cols
     = ([], Ok tt).
Proof. repeat split. Qed.

(** C2.  No rectangle of a chart has its right edge at or left of its
    left edge; drawing the bars of a record never raises; and in the
    loop over adjacent present percentiles a pair [(a, b)] with
    [b <= a] adds no call and no error: the loop goes on as if the pair
    were not there. *)
Theorem rectangles_never_degenerate cmap str_float tight_layout :
  (forall df,
     Forall proper_rectangle
            (ax_calls
               (create_comparative_chart cmap str_float tight_layout df)))
  /\ (forall row idx height cols,
        snd (_create_percentile_bars cmap row idx height cols) = Ok tt)
  /\ (forall row idx height cols,
        let ps := present_percentiles row cols in
        forall a b rest,
          b <= a ->
          color_bars cmap idx height (py_min ps) (py_max ps) (a :: b :: rest)
          = color_bars cmap idx height (py_min ps) (py_max ps) (b :: rest)).
Proof.
  split; [|split].
  - intro df. rewrite ax_calls_chart. apply chart_body_proper.
  - intros row idx height cols.
    destruct (Nat.lt_ge_cases (length (present_percentiles row cols)) 2).
    + now rewrite create_percentile_bars_few.
    + destruct (sin_variacion row) eqn:E.
      * now rewrite create_percentile_bars_constant.
      * now rewrite create_percentile_bars_varying.
  - intros row idx height cols ps a b rest Hba.
    rewrite !color_bars_calls by apply py_min_le_max.
    unfold adjacent_pairs. simpl tl. simpl combine. simpl filter.
    unfold increasing at 1. simpl fst. simpl snd.
    apply Qltb_ge in Hba. now rewrite Hba.
Qed.

Lemma rectangles_never_degenerate_witness :
  Forall proper_rectangle
         (ax_calls (create_comparative_chart sample_cmap sample_str_float
                                              sample_tight_layout three_cases))
  /\ snd (_create_percentile_bars sample_cmap dipping 0 (Some midpoint)
                                  percentile_cols) = Ok tt
  /\ 12 <= 15
  /\ (let ps := present_percentiles dipping percentile_cols in
      color_bars sample_cmap 0 (Some midpoint) (py_min ps) (py_max ps)
                 [15; 12; 12; 30; 35]
      = color_bars sample_cmap 0 (Some midpoint) (py_min ps) (py_max ps)
                   [12; 12; 30; 35]).
Proof.
  destruct (rectangles_never_degenerate sample_cmap sample_str_float
                                        sample_tight_layout)
    as (Hchart & Hok & Hskip).
  assert (H : 12 <= 15) by (unfold Qle; simpl; lia).
  split; [apply Hchart|]. split; [apply Hok|]. split; [exact H|].
  exact (Hskip dipping 0%nat (Some midpoint) percentile_cols 15 12
               [12; 30; 35] H).
Defined.

(** C3.  For a record that is not flagged as constant and has at least
    two present percentile values, the calls are one rectangle for each
    adjacent pair [(a, b)] of present values with [a < b], in order,
    from [a] to [b], whose colour is the colormap at
    [((a + b) / 2 - local_min) / (local_max - local_min)], where
    [local_min] and [local_max] are the least and the greatest present
    percentile value of that record itself. *)
Theorem segment_colour_is_local_midpoint cmap row idx height cols :
  sin_variacion row = false ->
  let ps := present_percentiles row cols in
  (2 <= length ps)%nat ->
  let local_min := py_min ps in
  let local_max := py_max ps in
  (In local_min ps /\ forall v, In v ps -> local_min <= v)
  /\ (In local_max ps /\ forall v, In v ps -> v <= local_max)
  /\ _create_percentile_bars cmap row idx height cols
     = (map (fun ab =>
               barh idx (snd ab - fst ab) (fst ab) height
                    (Mapped (cmap (((fst ab + snd ab) / 2 - local_min)
                                   / (local_max - local_min)))))
            (filter (fun ab => Qltb (fst ab) (snd ab)) (adjacent_pairs ps)),
        Ok tt).
Proof.
  intros Hc ps Hlen local_min local_max.
  assert (Hne : ps <> []) by (intros E; rewrite E in Hlen; simpl in Hlen; lia).
  split; [|split].
  - split; [now apply py_min_in|apply py_min_le].
  - split; [now apply py_max_in|apply py_max_ge].
  - now apply create_percentile_bars_varying.
Qed.

Lemma segment_colour_is_local_midpoint_witness :
  sin_variacion dipping = false
  /\ (2 <= length (present_percentiles dipping percentile_cols))%nat
  /\ _create_percentile_bars sample_cmap dipping 0 (Some midpoint)
                             percentile_cols
     = ([ barh 0 (15 - 10) 10 (Some midpoint)
               (Mapped (sample_cmap (((10 + 15) / 2 - 10) / (35 - 10))));
          barh 0 (30 - 12) 12 (Some midpoint)
               (Mapped (sample_cmap (((12 + 30) / 2 - 10) / (35 - 10))));
          barh 0 (35 - 30) 30 (Some midpoint)
               (Mapped (sample_cmap (((30 + 35) / 2 - 10) / (35 - 10)))) ],
        Ok tt).
Proof.
  assert (Hlen : (2 <= length (present_percentiles dipping percentile_cols))%nat)
    by (simpl; lia).
  split; [reflexivity|]. split; [exact Hlen|].
  destruct (segment_colour_is_local_midpoint sample_cmap dipping 0
              (Some midpoint) percentile_cols eq_refl Hlen)
    as (_ & _ & Hcalls).
  rewrite Hcalls. reflexivity.
Defined.

(** C4.  [_calculate_bar_heights] returns one height per row and never
    raises.  Without the episode-count column, and when the greatest
    and the least count are equal, every height is the midpoint
    [(MIN_BAR_HEIGHT + MAX_BAR_HEIGHT) / 2], which is 0.4; otherwise the
    height of a row with count [c] is
    [0.2 + (c - count_min) / (count_max - count_min) * (0.6 - 0.2)], and
    the height of a row whose count is missing is NaN.  When no row has
    a count every height is NaN.  The height of every row that has an
    episode count lies within [[0.2, 0.6]]. *)
Theorem bar_heights_scaled df :
  let counts := column df count_column in
  let heights := _calculate_bar_heights df in
  length heights = length (rows df)
  /\ midpoint == 4 # 10
  /\ (has_column (columns df) count_column = false ->
      heights = np_full (length (rows df)) midpoint)
  /\ (forall count_min count_max,
        has_column (columns df) count_column = true ->
        series_min counts = Some count_min ->
        series_max counts = Some count_max ->
        (count_max - count_min == 0 ->
         heights = np_full (length (rows df)) midpoint)
        /\ (~ count_max - count_min == 0 ->
            forall i,
              (forall c,
                 nth_error counts i = Some (Some c) ->
                 nth_error heights i
                 = Some (Some ((2 # 10)
                               + (c - count_min) / (count_max - count_min)
                                 * ((6 # 10) - (2 # 10)))))
              /\ (nth_error counts i = Some NaN ->
                  nth_error heights i = Some NaN)))
  /\ (has_column (columns df) count_column = true ->
      (forall c, In c counts -> c = NaN) ->
      heights = repeat NaN (length (rows df)))
  /\ (forall i c,
        nth_error counts i = Some (Some c) ->
        exists h,
          nth_error heights i = Some (Some h)
          /\ 2 # 10 <= h <= 6 # 10).
Proof.
  intros counts heights. split; [apply heights_length|].
  split; [reflexivity|].
  split; [apply heights_without_column|]. split; [|split].
  - intros count_min count_max Hc Hmin Hmax. split.
    + now apply heights_zero_range.
    + intros Hne i. split.
      * intros c Hi. now apply heights_linear.
      * intro Hi. now apply heights_missing_count with count_min count_max.
  - apply heights_no_count.
  - apply heights_within.
Qed.

Lemma bar_heights_scaled_witness :
  _calculate_bar_heights three_cases
  = [ Some ((2 # 10) + (15 - 8) / (15 - 8) * ((6 # 10) - (2 # 10)));
      Some ((2 # 10) + (8 - 8) / (15 - 8) * ((6 # 10) - (2 # 10)));
      Some ((2 # 10) + (12 - 8) / (15 - 8) * ((6 # 10) - (2 # 10))) ]
  /\ exists h,
       nth_error (_calculate_bar_heights three_cases) 2 = Some (Some h)
       /\ (2 # 10) <= h <= (6 # 10).
Proof.
  split; [reflexivity|].
  destruct (bar_heights_scaled three_cases) as (_ & _ & _ & _ & _ & H).
  exact (H 2%nat 12 eq_refl).
Defined.

(** C4 as stated fails for a distribution with a missing count: among
    the counts 1, NaN, 3 the second row gets NaN for a height, which is
    not within [[0.2, 0.6]]; and when no row has a count, no height is a
    number. *)
Lemma missing_count_gets_nan_height :
  _calculate_bar_heights sparse_counts
  = [ Some ((2 # 10) + (1 - 1) / (3 - 1) * ((6 # 10) - (2 # 10)));
      NaN;
      Some ((2 # 10) + (3 - 1) / (3 - 1) * ((6 # 10) - (2 # 10))) ]
  /\ ~ (exists h,
          nth_error (_calculate_bar_heights sparse_counts) 1 = Some (Some h)
          /\ 2 # 10 <= h <= 6 # 10)
  /\ _calculate_bar_heights no_counts = [NaN; NaN].
Proof.
  split; [reflexivity|]. split; [|reflexivity].
  intros (h & Hh & _). discriminate.
Qed.

Lemma band_edges_calls runs : forall i,
  band_edges (flat_map (fun ir => band_calls (fst ir) (snd ir))
                       (enumerate_from i runs))
  = map band_of_slots runs.
Proof.
  induction runs as [|run runs IH]; intro i; [reflexivity|].
  cbn [enumerate_from flat_map fst snd].
  unfold band_edges in *. rewrite flat_map_app, IH. now destruct i.
Qed.

(** C5.  On a frame with the diagnosis column, the bands drawn are
    those of the slot spans [(start, end)] the shading loop runs over,
    each lowered by 0.2; these spans cover [[0, row_count)] in order,
    each non-empty and each starting where the one before ends, so
    without gap or overlap; and there are as many as there are maximal
    runs of equal consecutive diagnoses, that is, as there are slots
    that differ from the slot before them, the first slot included. *)
Theorem bands_partition_rows df :
  has_column (columns df) diagnosis_column = true ->
  let bands := diagnosis_bounds (diagnoses df) in
  let drawn := band_edges (calls (_add_diagnosis_shading df)) in
  drawn = map band_of_slots bands
  /\ tiles 0 bands (length (rows df))
  /\ length drawn = length (run_starts (diagnoses df)).
Proof.
  intros Hc bands drawn.
  assert (Hdrawn : drawn = map band_of_slots bands).
  { unfold drawn. rewrite shading_calls by exact Hc. apply band_edges_calls. }
  split; [exact Hdrawn|]. split.
  - unfold bands. rewrite <- (length_map (fun r => obj r diagnosis_column)).
    apply diagnosis_bounds_tile.
  - rewrite Hdrawn, length_map. unfold bands.
    rewrite <- diagnosis_bounds_starts. now rewrite length_map.
Qed.

Lemma bands_partition_rows_witness :
  has_column (columns three_cases) diagnosis_column = true
  /\ diagnosis_bounds (diagnoses three_cases) = [(0, 2); (2, 3)]%nat
  /\ band_edges (calls (_add_diagnosis_shading three_cases))
     = [ (Qnat 0 - (2 # 10), Qnat 2 - (2 # 10));
         (Qnat 2 - (2 # 10), Qnat 3 - (2 # 10)) ]
  /\ tiles 0 (diagnosis_bounds (diagnoses three_cases)) 3
  /\ length (band_edges (calls (_add_diagnosis_shading three_cases)))
     = length (run_starts (diagnoses three_cases)).
Proof.
  destruct (bands_partition_rows three_cases eq_refl) as (Hedges & Htiles & Hlen).
  split; [reflexivity|]. split; [reflexivity|].
  split; [exact Hedges|]. split; [exact Htiles|exact Hlen].
Defined.

(** C6.  On a frame with the diagnosis column, the calls of
    [_add_diagnosis_shading] are, for the maximal runs of equal
    consecutive diagnoses taken in order and numbered from 0: for run
    [i] over the slots [[start, end)], one band from [start - 0.2] to
    [end - 0.2], light gray when [i] is even and white when it is odd,
    followed, when [i] is not 0 and only then, by one separator line at
    [start - 0.2]. *)
Theorem shading_follows_runs df :
  has_column (columns df) diagnosis_column = true ->
  _add_diagnosis_shading df
  = (flat_map
       (fun ir =>
          let i := fst ir in
          let start := fst (snd ir) in
          let end_ := snd (snd ir) in
          axhspan (Qnat start - (2 # 10)) (Qnat end_ - (2 # 10))
                  (if Nat.even i then "lightgray" else "white") (2 # 10)
          :: (if (i =? 0)%nat then []
              else [axhline (Qnat start - (2 # 10)) "gray"]))
       (enumerate (maximal_runs (diagnoses df))),
     Ok tt).
Proof.
  intro Hc. rewrite shading_calls by exact Hc.
  rewrite diagnosis_bounds_maximal_runs. f_equal.
  apply flat_map_ext. intros [i [s e]]. unfold band_calls. simpl.
  now destruct i.
Qed.

Lemma shading_follows_runs_witness :
  has_column (columns three_cases) diagnosis_column = true
  /\ _add_diagnosis_shading three_cases
     = ([ axhspan (Qnat 0 - (2 # 10)) (Qnat 2 - (2 # 10)) "lightgray" (2 # 10);
          axhspan (Qnat 2 - (2 # 10)) (Qnat 3 - (2 # 10)) "white" (2 # 10);
          axhline (Qnat 2 - (2 # 10)) "gray" ],
        Ok tt).
Proof.
  split; [reflexivity|].
  rewrite (shading_follows_runs three_cases eq_refl). reflexivity.
Defined.

(** C7.  For a record at slot [idx] with height [h], the calls of
    [_add_inss_lines] are: one vertical line at the standard duration
    from [idx - h/2] to [idx + h/2] if that duration is present, then
    one marker at [(optimal duration, idx)] if that one is present.  A
    duration that is missing, as a column or as a value, gives no call,
    and nothing raises. *)
Theorem inss_markers row idx height :
  _add_inss_lines row idx height
  = (match standard_duration row with
     | Some std =>
         [plot_line std
                    (fsub (Some (Qnat idx)) (fdiv height (Some 2)))
                    (fadd (Some (Qnat idx)) (fdiv height (Some 2)))
                    Config.black]
     | None => []
     end
     ++ match optimal_duration row with
        | Some opt => [plot_marker opt idx Config.blue]
        | None => []
        end,
     Ok tt).
Proof.
  unfold _add_inss_lines, standard_duration, optimal_duration.
  destruct (has_column _ "Durestd Inss min");
    destruct (has_column _ "Duropt Inss min");
    try destruct (num _ "Durestd Inss min");
    try destruct (num _ "Duropt Inss min"); reflexivity.
Qed.

(** C8.  On a frame that is not empty and has none of the six
    percentile columns, [create_comparative_chart] returns [None], shows
    the one error "No se encontraron columnas de percentiles", and has
    made no call on the axes. *)
Theorem missing_percentile_columns cmap str_float tight_layout df :
  empty df = false ->
  (forall c, In c percentile_cols -> has_column (columns df) c = false) ->
  create_comparative_chart cmap str_float tight_layout df
  = mkRendering false
                [st_error "No se encontraron columnas de percentiles"] [].
Proof.
  intros He Hc. unfold create_comparative_chart, chart_body. rewrite He.
  unfold percentile_cols in *. simpl filter.
  rewrite !Hc; [reflexivity|..]; simpl; tauto.
Qed.

Lemma missing_percentile_columns_witness :
  empty no_percentiles = false
  /\ create_comparative_chart sample_cmap sample_str_float
                              sample_tight_layout no_percentiles
     = mkRendering false
                   [st_error "No se encontraron columnas de percentiles"] [].
Proof.
  split; [reflexivity|].
  apply (missing_percentile_columns sample_cmap sample_str_float
                                    sample_tight_layout no_percentiles eq_refl).
  intros c Hc. simpl in Hc.
  repeat (destruct Hc as [<-|Hc]; [reflexivity|]). destruct Hc.
Defined.

Lemma insert_row_in key r sorted x :
  In x (insert_row key r sorted) -> x = r \/ In x sorted.
Proof.
  induction sorted as [|r' rest IH]; simpl.
  - intros [<-|[]]. now left.
  - destruct (String.leb (key r) (key r')); simpl.
    + intros [<-|H]; auto.
    + intros [<-|H]; [auto|]. destruct (IH H); auto.
Qed.

Lemma sort_by_text_rows by_ df df' :
  sort_by_text by_ df = Ok df' ->
  columns df' = columns df /\ incl (rows df') (rows df).
Proof.
  unfold sort_by_text. intro H. injection H as <-. split; [reflexivity|].
  simpl. induction (rows df) as [|r l IH]; simpl; [easy|].
  intros x Hx. apply insert_row_in in Hx.
  destruct Hx as [->|Hx]; [now left|right; now apply IH].
Qed.

(** C9.  Whatever [pd.to_numeric] makes of text and however
    [sort_values] orders the rows (it keeps the columns and invents no
    row), every row of a frame that [load_and_process_data] returns has
    a value in each of the nine numeric columns, no negative duration
    or percentile, and an episode count within
    [[MIN_EPISODIOS, MAX_EPISODIOS]].  For such a row the chart code
    finds all six percentiles present and draws both the standard line
    and the optimal marker. *)
Theorem processed_rows_are_complete parse_number sort_values :
  (forall by_ df df',
     sort_values by_ df = Ok df' ->
     columns df' = columns df /\ incl (rows df') (rows df)) ->
  forall raw df,
    load_and_process_data parse_number sort_values raw = Some df ->
    forall r,
      In r (rows df) ->
      (forall c, In c Config.NUMERIC_COLUMNS -> exists q, num r c = Some q)
      /\ (forall c,
            In c (["Durestd Inss min"; "Duropt Inss min"]
                    ++ Config.PERCENTILE_COLUMNS) ->
            exists q, num r c = Some q /\ 0 <= q)
      /\ (exists q,
            num r "Count Episodios" = Some q
            /\ Config.MIN_EPISODIOS <= q <= Config.MAX_EPISODIOS)
      /\ (let row := mkSeries (columns df) r in
          length (present_percentiles
                    row (filter (has_column (columns df)) percentile_cols))
          = 6%nat
          /\ exists std opt,
               forall idx height,
                 _add_inss_lines row idx height
                 = ([ plot_line std
                        (fsub (Some (Qnat idx)) (fdiv height (Some 2)))
                        (fadd (Some (Qnat idx)) (fdiv height (Some 2)))
                        Config.black;
                      plot_marker opt idx Config.blue ],
                    Ok tt)).
Proof.
  intros Hsort raw df Hload r Hr.
  destruct (@processed_rows parse_number sort_values Hsort raw df Hload)
    as [Hcols Hrows].
  destruct (Hrows r Hr) as (Hall & Hdur & Hcount).
  split; [exact Hall|]. split; [exact Hdur|]. split; [exact Hcount|].
  assert (Hin : forall c, In c Config.NUMERIC_COLUMNS ->
                  has_column (columns df) c = true /\ exists q, num r c = Some q)
    by (intros c Hc; split; [now apply Hcols|now apply Hall]).
  unfold Config.NUMERIC_COLUMNS in Hin.
  destruct (Hin "Durestd Inss min") as [C1 [std E1]]; [simpl; tauto|].
  destruct (Hin "Duropt Inss min") as [C2 [opt E2]]; [simpl; tauto|].
  destruct (Hin "Minmin") as [C3 [p0 E3]]; [simpl; tauto|].
  destruct (Hin "P20min") as [C4 [p1 E4]]; [simpl; tauto|].
  destruct (Hin "P40min") as [C5 [p2 E5]]; [simpl; tauto|].
  destruct (Hin "P60min") as [C6 [p3 E6]]; [simpl; tauto|].
  destruct (Hin "P80min") as [C7 [p4 E7]]; [simpl; tauto|].
  destruct (Hin "P99min") as [C8 [p5 E8]]; [simpl; tauto|].
  cbv zeta. split.
  - unfold percentile_cols, present_percentiles. simpl filter.
    rewrite C3, C4, C5, C6, C7, C8. simpl.
    now rewrite E3, E4, E5, E6, E7, E8.
  - exists std, opt. intros idx height.
    unfold _add_inss_lines. cbn [index values].
    now rewrite C1, C2, E1, E2.
Qed.

Lemma processed_rows_are_complete_witness :
  exists df,
    load_and_process_data no_parse sort_by_text test_sheet = Some df
    /\ length (rows df) = 3%nat
    /\ forall r,
         In r (rows df) ->
         (exists q, num r "Count Episodios" = Some q /\ 1 <= q <= 1000)
         /\ length (present_percentiles
                      (mkSeries (columns df) r)
                      (filter (has_column (columns df)) percentile_cols))
            = 6%nat.
Proof.
  eexists. split; [reflexivity|]. split; [reflexivity|].
  intros r Hr.
  destruct (processed_rows_are_complete no_parse sort_by_text
              sort_by_text_rows test_sheet eq_refl r Hr)
    as (_ & _ & Hcount & Hsix & _).
  split; [exact Hcount|exact Hsix].
Defined.

(** C10.  On a frame with at least one percentile column,
    [_calculate_additional_fields] adds the column
    [percentiles_iguales] and keeps the rows in place; the flag of a
    row is true exactly when, among its cells in the percentile columns
    the frame has, some value is present and every present value
    equals it.  So a row with a single present percentile value is
    flagged true, and a row with all of them missing is flagged
    false. *)
Theorem flag_means_one_distinct_value df :
  available_percentiles df <> [] ->
  let df' := _calculate_additional_fields df in
  has_column (columns df') "percentiles_iguales" = true
  /\ length (rows df') = length (rows df)
  /\ forall i r,
       nth_error (rows df) i = Some r ->
       exists r',
         nth_error (rows df') i = Some r'
         /\ let cells := map (num r) (available_percentiles df) in
            (percentiles_iguales r' = true
             <-> exists v, In (Some v) cells
                           /\ forall w, In (Some w) cells -> w == v)
            /\ (forall v, dropna_values cells = [v] ->
                          percentiles_iguales r' = true)
            /\ (dropna_values cells = [] -> percentiles_iguales r' = false).
Proof.
  intros Hav df'.
  destruct (additional_fields_rows df Hav) as (Hflag & _ & f & Hrows & Hf).
  fold df' in Hflag, Hrows. split; [exact Hflag|].
  split; [rewrite Hrows; apply length_map|].
  intros i r Hi. exists (f r). split.
  - rewrite Hrows. now apply map_nth_error.
  - destruct (Hf r) as (Hp & _ & _). rewrite Hp. unfold flagged.
    cbn [percentiles_iguales]. fold (available_percentiles df). cbv zeta.
    split; [|split].
    + rewrite Nat.eqb_eq. apply nunique_one.
    + intros v Hv. apply Nat.eqb_eq. now apply nunique_single with (v := v).
    + intros Hv. apply Nat.eqb_neq. now rewrite nunique_all_missing.
Qed.

Lemma flag_means_one_distinct_value_witness :
  available_percentiles flag_samples <> []
  /\ map percentiles_iguales (rows (_calculate_additional_fields flag_samples))
     = [true; true; false; false]
  /\ has_column (columns (_calculate_additional_fields flag_samples))
                "percentiles_iguales" = true.
Proof.
  assert (H : available_percentiles flag_samples <> []) by discriminate.
  split; [exact H|]. split; [reflexivity|].
  exact (proj1 (flag_means_one_distinct_value flag_samples H)).
Defined.

(* ================================================================== *)
(** * Further properties *)

(** ** The chart as a whole *)

Lemma bind_ok {A B} (m : Draw A) (f : A -> Draw B) a :
  snd m = Ok a -> bind m f = (calls m ++ calls (f a), snd (f a)).
Proof.
  destruct m as [w r]. simpl. intros ->. unfold calls. now destruct (f a).
Qed.

Lemma percentile_bars_ok cmap row idx height cols :
  snd (_create_percentile_bars cmap row idx height cols) = Ok tt.
Proof.
  destruct (Nat.lt_ge_cases (length (present_percentiles row cols)) 2).
  - now rewrite create_percentile_bars_few.
  - destruct (sin_variacion row) eqn:E.
    + now rewrite create_percentile_bars_constant.
    + now rewrite create_percentile_bars_varying.
Qed.

Lemma inss_lines_ok row idx height :
  snd (_add_inss_lines row idx height) = Ok tt.
Proof.
  unfold _add_inss_lines.
  destruct (has_column _ "Durestd Inss min");
    destruct (has_column _ "Duropt Inss min");
    try destruct (num _ "Durestd Inss min");
    try destruct (num _ "Duropt Inss min"); reflexivity.
Qed.

Lemma labels_ok str_float row idx x_min x_max lm rm :
  snd (_add_labels str_float row idx x_min x_max lm rm) = Ok tt.
Proof.
  unfold _add_labels.
  destruct (has_column _ "Diagnóstico"); cbv zeta;
    match goal with
    | |- context [String.eqb ?s ""] => destruct (String.eqb s "")
    end; reflexivity.
Qed.

Lemma draw_eta {A} (m : Draw A) : m = (calls m, snd m).
Proof. now destruct m. Qed.

Lemma shading_ok df : snd (_add_diagnosis_shading df) = Ok tt.
Proof.
  unfold _add_diagnosis_shading. destruct (negb _); [reflexivity|].
  rewrite (for_each_calls _ _ (fun ir => band_calls (fst ir) (snd ir)));
    [reflexivity|].
  intros [i run]. apply shade_calls.
Qed.

Lemma row_body_calls cmap str_float heights cols x_min x_max ir :
  (_create_percentile_bars cmap (snd ir) (fst ir) (nth (fst ir) heights NaN)
                           cols ;;;
   _add_inss_lines (snd ir) (fst ir) (nth (fst ir) heights NaN) ;;;
   _add_labels str_float (snd ir) (fst ir) x_min x_max
               Config.LEFT_MARGIN Config.RIGHT_MARGIN)
  = (row_calls cmap str_float heights cols x_min x_max ir, Ok tt).
Proof.
  unfold row_calls.
  rewrite (bind_ok _ _ (percentile_bars_ok _ _ _ _ _)).
  rewrite (bind_ok _ _ (inss_lines_ok _ _ _)).
  now rewrite labels_ok.
Qed.

Lemma series_min_some s : forall x,
  In (Some x) s -> exists m, series_min s = Some m.
Proof.
  intros x H. apply in_dropna_values in H. unfold series_min.
  destruct (dropna_values s); [easy|eauto].
Qed.

Lemma series_max_some s : forall x,
  In (Some x) s -> exists m, series_max s = Some m.
Proof.
  intros x H. apply in_dropna_values in H. unfold series_max.
  destruct (dropna_values s); [easy|eauto].
Qed.

Lemma frame_min_some df cols c r v :
  In c cols -> In r (rows df) -> num r c = Some v ->
  exists m, frame_min df cols = Some m.
Proof.
  intros Hc Hr Hv.
  destruct (series_min_some (column df c) v) as [m Hm].
  { unfold column. rewrite <- Hv.
    exact (in_map (fun r0 => num r0 c) _ _ Hr). }
  unfold frame_min. apply series_min_some with (x := m).
  rewrite <- Hm. exact (in_map (fun c0 => series_min (column df c0)) _ _ Hc).
Qed.

Lemma frame_max_some df cols c r v :
  In c cols -> In r (rows df) -> num r c = Some v ->
  exists m, frame_max df cols = Some m.
Proof.
  intros Hc Hr Hv.
  destruct (series_max_some (column df c) v) as [m Hm].
  { unfold column. rewrite <- Hv.
    exact (in_map (fun r0 => num r0 c) _ _ Hr). }
  unfold frame_max. apply series_max_some with (x := m).
  rewrite <- Hm. exact (in_map (fun c0 => series_max (column df c0)) _ _ Hc).
Qed.

(** The chart once the limits are known: everything is drawn, and the
    layout pass decides between the figure and an exception. *)
Lemma chart_body_drawn cmap str_float tight_layout df x_min x_max :
  empty df = false ->
  available_cols df <> [] ->
  frame_min df (available_cols df) = Some x_min ->
  frame_max df (available_cols df) = Some x_max ->
  chart_body cmap str_float tight_layout df
  = (drawn_calls cmap str_float df x_min x_max,
     after_layout (tight_layout (drawn_calls cmap str_float df x_min x_max))).
Proof.
  intros He Hav Hmin Hmax. unfold chart_body. rewrite He.
  fold (available_cols df).
  destruct (available_cols df) as [|c0 cs] eqn:E; [easy|].
  simpl length. cbv iota. rewrite <- E in *. rewrite Hmin, Hmax. cbv zeta.
  rewrite (for_each_calls _ _
             (row_calls cmap str_float (_calculate_bar_heights df)
                        (available_cols df) x_min x_max)).
  2:{ intros ir. apply row_body_calls. }
  rewrite (draw_eta (_add_diagnosis_shading df)), shading_ok.
  cbn [bind emit plt_tight_layout _customize_chart _add_legend ret app calls
       fst].
  fold (drawn_calls cmap str_float df x_min x_max).
  destruct (tight_layout _) as [[]|msg]; cbn [after_layout];
    [now rewrite app_nil_r|reflexivity].
Qed.

Lemma has_column_in cols c : has_column cols c = true <-> In c cols.
Proof.
  unfold has_column. rewrite existsb_exists. split.
  - intros (x & Hx & E). apply String.eqb_eq in E. now subst.
  - intro H. exists c. split; [exact H|apply String.eqb_refl].
Qed.

Lemma in_available_cols df c :
  In c (available_cols df)
  <-> In c percentile_cols /\ has_column (columns df) c = true.
Proof. unfold available_cols. apply filter_In. Qed.

Lemma chart_body_with_value cmap str_float tight_layout df c r v :
  In c percentile_cols -> has_column (columns df) c = true ->
  In r (rows df) -> num r c = Some v ->
  exists x_min x_max,
    frame_min df (available_cols df) = Some x_min
    /\ frame_max df (available_cols df) = Some x_max
    /\ chart_body cmap str_float tight_layout df
       = (drawn_calls cmap str_float df x_min x_max,
          after_layout
            (tight_layout (drawn_calls cmap str_float df x_min x_max))).
Proof.
  intros Hc Hcol Hr Hv.
  assert (Hav : In c (available_cols df)) by now apply in_available_cols.
  destruct (frame_min_some df _ _ _ Hav Hr Hv) as [x_min Hmin].
  destruct (frame_max_some df _ _ _ Hav Hr Hv) as [x_max Hmax].
  exists x_min, x_max. split; [exact Hmin|]. split; [exact Hmax|].
  apply chart_body_drawn; trivial.
  - unfold empty. apply has_column_in in Hcol.
    destruct (rows df); [easy|]. destruct (columns df); [easy|reflexivity].
  - intros E. now rewrite E in Hav.
Qed.

(** The two ways a call can go: refused before anything is drawn, with
    one message; or drawn in full, with limits that are numbers. *)
Lemma chart_cases cmap str_float tight_layout df :
  let out := create_comparative_chart cmap str_float tight_layout df in
  (returns_figure out = false /\ ax_calls out = []
   /\ ((empty df = true
        /\ st_calls out = [st_warning "No hay datos para visualizar"])
       \/ (empty df = false /\ exists msg, st_calls out = [st_error msg])))
  \/ (exists x_min x_max,
        empty df = false
        /\ available_cols df <> []
        /\ frame_min df (available_cols df) = Some x_min
        /\ frame_max df (available_cols df) = Some x_max).
Proof.
  intro out. subst out. unfold create_comparative_chart, chart_body.
  destruct (empty df) eqn:He; [left; repeat split; now left|].
  fold (available_cols df).
  destruct (length (available_cols df) =? 0)%nat eqn:Hl;
    [left; repeat split; right; split; [reflexivity|eexists; reflexivity]|].
  destruct (frame_min df (available_cols df)) as [x_min|] eqn:Hmin;
    [|left; repeat split; right; split; [reflexivity|eexists; reflexivity]].
  destruct (frame_max df (available_cols df)) as [x_max|] eqn:Hmax;
    [|left; repeat split; right; split; [reflexivity|eexists; reflexivity]].
  right. exists x_min, x_max. repeat split; trivial.
  intros E. rewrite E in Hl. discriminate.
Qed.

Lemma chart_outcome_drawn cmap str_float tight_layout df x_min x_max :
  empty df = false ->
  available_cols df <> [] ->
  frame_min df (available_cols df) = Some x_min ->
  frame_max df (available_cols df) = Some x_max ->
  create_comparative_chart cmap str_float tight_layout df
  = match tight_layout (drawn_calls cmap str_float df x_min x_max) with
    | Ok _ => mkRendering true [] (drawn_calls cmap str_float df x_min x_max)
    | Raise msg =>
        mkRendering false
          [st_error ("Error al crear visualización: " ++ msg)%string]
          (drawn_calls cmap str_float df x_min x_max)
    end.
Proof.
  intros He Hav Hmin Hmax. unfold create_comparative_chart.
  rewrite (@chart_body_drawn cmap str_float tight_layout df _ _
             He Hav Hmin Hmax).
  now destruct (tight_layout _) as [[]|msg].
Qed.

Lemma chart_drawn_cases cmap str_float tight_layout df :
  returns_figure (create_comparative_chart cmap str_float tight_layout df)
  = true ->
  exists x_min x_max,
    empty df = false
    /\ available_cols df <> []
    /\ frame_min df (available_cols df) = Some x_min
    /\ frame_max df (available_cols df) = Some x_max.
Proof.
  intro Hfig.
  destruct (chart_cases cmap str_float tight_layout df) as [[H _]|H];
    [congruence|exact H].
Qed.

Lemma ax_calls_drawn cmap str_float tight_layout df x_min x_max :
  empty df = false ->
  available_cols df <> [] ->
  frame_min df (available_cols df) = Some x_min ->
  frame_max df (available_cols df) = Some x_max ->
  ax_calls (create_comparative_chart cmap str_float tight_layout df)
  = set_xlim (x_min - Config.LEFT_MARGIN) (x_max + Config.RIGHT_MARGIN)
    :: flat_map (row_calls cmap str_float (_calculate_bar_heights df)
                           (available_cols df) x_min x_max)
                (enumerate (iterrows df))
    ++ invert_yaxis
    :: calls (_add_diagnosis_shading df)
    ++ calls _customize_chart ++ calls (_add_legend cmap).
Proof.
  intros He Hav Hmin Hmax. rewrite ax_calls_chart.
  now rewrite (@chart_body_drawn cmap str_float tight_layout df _ _
                 He Hav Hmin Hmax).
Qed.

(** X1.  A frame of numbers and missing cells in which some row has a
    value in a percentile column that the frame carries is drawn in
    full, whatever else is missing in the rows: every call of the chart
    is made on the axes, and the one step left that can fail is the
    final [plt.tight_layout()].  If it accepts the drawing,
    [create_comparative_chart] returns the figure and shows no message;
    if it raises, [None] is returned and the one message is the error
    it raised. *)
Theorem chart_drawn_when_a_percentile_is_present
        cmap str_float tight_layout df c r v :
  In c percentile_cols -> has_column (columns df) c = true ->
  In r (rows df) -> num r c = Some v ->
  drawn_in_full cmap str_float tight_layout df
                (create_comparative_chart cmap str_float tight_layout df).
Proof.
  intros Hc Hcol Hr Hv.
  destruct (@chart_body_with_value cmap str_float tight_layout df c r v
              Hc Hcol Hr Hv)
    as (x_min & x_max & _ & _ & Hbody).
  exists x_min, x_max. unfold create_comparative_chart.
  rewrite Hbody.
  destruct (tight_layout (drawn_calls cmap str_float df x_min x_max))
    as [[]|msg] eqn:E; cbn [after_layout ax_calls]; rewrite E; now repeat split.
Qed.

Lemma chart_drawn_when_a_percentile_is_present_witness :
  drawn_in_full sample_cmap sample_str_float sample_tight_layout three_cases
                (create_comparative_chart sample_cmap sample_str_float
                                          sample_tight_layout three_cases)
  /\ returns_figure (create_comparative_chart sample_cmap sample_str_float
                                              sample_tight_layout three_cases)
     = true.
Proof.
  split; [|reflexivity].
  apply (@chart_drawn_when_a_percentile_is_present
           sample_cmap sample_str_float sample_tight_layout three_cases
           "Minmin" (nth 0 (rows three_cases) (sample_row [] [] false)) 10).
  - simpl. tauto.
  - reflexivity.
  - simpl. tauto.
  - reflexivity.
Defined.

(** The layout pass is where a label that cannot be rendered stops the
    chart: the row is drawn, then [None] is returned with the error. *)
Example unrenderable_label_stops_the_chart :
  let out := create_comparative_chart sample_cmap sample_str_float
                                       sample_tight_layout unrenderable in
  returns_figure out = false
  /\ st_calls out
     = [st_error "Error al crear visualización: ParseException"]
  /\ In (text (10 - 40 + 2) 0 (Text "$$") (Some "right") None) (ax_calls out).
Proof.
  split; [reflexivity|]. split; [reflexivity|]. vm_compute. tauto.
Qed.

Lemma percentile_bars_content cmap row idx height cols :
  Forall row_content (calls (_create_percentile_bars cmap row idx height cols)).
Proof.
  destruct (Nat.lt_ge_cases (length (present_percentiles row cols)) 2)
    as [Hfew|Hmany].
  - rewrite create_percentile_bars_few by exact Hfew. constructor.
  - destruct (sin_variacion row) eqn:Hc.
    + rewrite create_percentile_bars_constant by assumption.
      repeat constructor.
    + rewrite create_percentile_bars_varying by assumption.
      unfold calls, fst. apply Forall_forall. intros c Hin.
      apply in_map_iff in Hin. now destruct Hin as (ab & <- & _).
Qed.

Lemma row_calls_content cmap str_float heights cols x_min x_max ir :
  Forall row_content (row_calls cmap str_float heights cols x_min x_max ir).
Proof.
  unfold row_calls. rewrite !Forall_app. split; [|split].
  - apply percentile_bars_content.
  - unfold _add_inss_lines. proper_calls.
  - unfold _add_labels. proper_calls.
Qed.

Lemma shading_band_calls df :
  Forall band_call (calls (_add_diagnosis_shading df)).
Proof. unfold _add_diagnosis_shading, shade. proper_calls. Qed.

(** X2.  When the chart is drawn its calls come in this order: the
    x-limits first, then only row content (rectangles, texts, lines,
    markers), then the inversion of the y-axis, then only bands and
    separators, then the decoration, and the legend last. *)
Theorem chart_call_order cmap str_float tight_layout df :
  returns_figure (create_comparative_chart cmap str_float tight_layout df)
  = true ->
  exists x_left x_right content bands handles,
    ax_calls (create_comparative_chart cmap str_float tight_layout df)
    = set_xlim x_left x_right :: content
      ++ invert_yaxis :: bands ++ [customize; legend handles]
    /\ Forall row_content content
    /\ Forall band_call bands
    /\ bands = calls (_add_diagnosis_shading df).
Proof.
  intro Hfig.
  destruct (@chart_drawn_cases cmap str_float tight_layout df Hfig)
    as (x_min & x_max & He & Hav & Hmin & Hmax).
  rewrite (@ax_calls_drawn cmap str_float tight_layout df _ _
             He Hav Hmin Hmax).
  eexists _, _, _, _, _. split; [reflexivity|]. split; [|split].
  - apply Forall_flat_map, Forall_forall. intros ir _.
    apply row_calls_content.
  - apply shading_band_calls.
  - reflexivity.
Qed.

Lemma chart_call_order_witness :
  exists x_left x_right content bands handles,
    ax_calls (create_comparative_chart sample_cmap sample_str_float
                                        sample_tight_layout three_cases)
    = set_xlim x_left x_right :: content
      ++ invert_yaxis :: bands ++ [customize; legend handles]
    /\ length content = 27%nat
    /\ length bands = 3%nat.
Proof.
  destruct (chart_call_order sample_cmap sample_str_float
                             sample_tight_layout three_cases eq_refl)
    as (l & r & content & bands & handles & Hcalls & _ & _ & Hbands).
  exists l, r, content, bands, handles. split; [exact Hcalls|].
  assert (Hb : length bands = 3%nat) by (rewrite Hbands; reflexivity).
  split; [|exact Hb].
  apply (f_equal (@length _)) in Hcalls.
  cbn [length] in Hcalls. rewrite length_app in Hcalls. cbn [length] in Hcalls.
  rewrite length_app, Hb in Hcalls.
  change (length (ax_calls (create_comparative_chart sample_cmap
                              sample_str_float sample_tight_layout three_cases)))
    with 34%nat in Hcalls.
  simpl in Hcalls. lia.
Defined.

Lemma frame_min_all_missing df cols :
  (forall c r, In c cols -> In r (rows df) -> num r c = NaN) ->
  frame_min df cols = NaN /\ frame_max df cols = NaN.
Proof.
  intros H.
  assert (Hcol : forall c, In c cols -> dropna_values (column df c) = []).
  { intros c Hc. apply dropna_all_missing. intros x Hx.
    unfold column in Hx. apply in_map_iff in Hx.
    destruct Hx as (r & <- & Hr). now apply H. }
  unfold frame_min, frame_max, series_min, series_max. split.
  - rewrite dropna_all_missing; [reflexivity|]. intros x Hx.
    apply in_map_iff in Hx. destruct Hx as (c & <- & Hc).
    now rewrite (Hcol c Hc).
  - rewrite dropna_all_missing; [reflexivity|]. intros x Hx.
    apply in_map_iff in Hx. destruct Hx as (c & <- & Hc).
    now rewrite (Hcol c Hc).
Qed.

(** X3.  On a frame that has rows and percentile columns but no value
    in any cell of these columns, [create_comparative_chart] returns
    [None], shows the one error that [set_xlim] raised on the NaN
    limits, and has drawn nothing. *)
Theorem chart_fails_without_percentile_values cmap str_float tight_layout df :
  empty df = false ->
  available_cols df <> [] ->
  (forall c r, In c (available_cols df) -> In r (rows df) -> num r c = NaN) ->
  create_comparative_chart cmap str_float tight_layout df
  = mkRendering
      false
      [st_error
         "Error al crear visualización: Axis limits cannot be NaN or Inf"]
      [].
Proof.
  intros He Hav Hnan.
  destruct (@frame_min_all_missing df (available_cols df) Hnan) as [Hmin Hmax].
  unfold create_comparative_chart, chart_body. rewrite He.
  fold (available_cols df).
  destruct (available_cols df) as [|c0 cs] eqn:E; [easy|].
  simpl length. cbv iota. rewrite <- E in *. now rewrite Hmin.
Qed.

Lemma chart_fails_without_percentile_values_witness :
  empty blank_percentiles = false
  /\ available_cols blank_percentiles <> []
  /\ create_comparative_chart sample_cmap sample_str_float
                              sample_tight_layout blank_percentiles
     = mkRendering
         false
         [st_error
            "Error al crear visualización: Axis limits cannot be NaN or Inf"]
         [].
Proof.
  assert (Hav : available_cols blank_percentiles <> []) by discriminate.
  split; [reflexivity|]. split; [exact Hav|].
  apply (@chart_fails_without_percentile_values
           sample_cmap sample_str_float sample_tight_layout
           blank_percentiles eq_refl Hav).
  intros c r Hc Hr. simpl in Hc, Hr. destruct Hr as [<-|[]].
  repeat (destruct Hc as [<-|Hc]; [reflexivity|]). destruct Hc.
Defined.

Lemma series_min_attained s m : series_min s = Some m -> In (Some m) s.
Proof.
  unfold series_min. intro H. apply in_dropna_values.
  destruct (dropna_values s) as [|x l]; [discriminate|].
  injection H as <-. apply min_from_in.
Qed.

Lemma series_max_attained s m : series_max s = Some m -> In (Some m) s.
Proof.
  unfold series_max. intro H. apply in_dropna_values.
  destruct (dropna_values s) as [|x l]; [discriminate|].
  injection H as <-. apply max_from_in.
Qed.

Lemma frame_min_least df cols m :
  frame_min df cols = Some m ->
  (forall c r v, In c cols -> In r (rows df) -> num r c = Some v -> m <= v)
  /\ exists c r, In c cols /\ In r (rows df) /\ num r c = Some m.
Proof.
  unfold frame_min. intro H. split.
  - intros c r v Hc Hr Hv.
    destruct (series_min_some (column df c) v) as [mc Hmc].
    { unfold column. rewrite <- Hv. exact (in_map (fun r0 => num r0 c) _ _ Hr). }
    apply Qle_trans with (y := mc).
    + eapply series_min_le; [exact H|]. rewrite <- Hmc.
      exact (in_map (fun c0 => series_min (column df c0)) _ _ Hc).
    + eapply series_min_le; [exact Hmc|]. unfold column. rewrite <- Hv.
      exact (in_map (fun r0 => num r0 c) _ _ Hr).
  - apply series_min_attained, in_map_iff in H.
    destruct H as (c & Hc & Hin). apply series_min_attained in Hc.
    unfold column in Hc. apply in_map_iff in Hc.
    destruct Hc as (r & Hr & Hrin). now exists c, r.
Qed.

Lemma frame_max_greatest df cols m :
  frame_max df cols = Some m ->
  (forall c r v, In c cols -> In r (rows df) -> num r c = Some v -> v <= m)
  /\ exists c r, In c cols /\ In r (rows df) /\ num r c = Some m.
Proof.
  unfold frame_max. intro H. split.
  - intros c r v Hc Hr Hv.
    destruct (series_max_some (column df c) v) as [mc Hmc].
    { unfold column. rewrite <- Hv. exact (in_map (fun r0 => num r0 c) _ _ Hr). }
    apply Qle_trans with (y := mc).
    + eapply series_max_ge; [exact Hmc|]. unfold column. rewrite <- Hv.
      exact (in_map (fun r0 => num r0 c) _ _ Hr).
    + eapply series_max_ge; [exact H|]. rewrite <- Hmc.
      exact (in_map (fun c0 => series_max (column df c0)) _ _ Hc).
  - apply series_max_attained, in_map_iff in H.
    destruct H as (c & Hc & Hin). apply series_max_attained in Hc.
    unfold column in Hc. apply in_map_iff in Hc.
    destruct Hc as (r & Hr & Hrin). now exists c, r.
Qed.

(** X4.  The x-limits of a drawn chart are 40 below the least and 40
    above the greatest percentile value of the frame: no present cell
    of an available percentile column is below the first or above the
    second, and each of the two is the value of some cell. *)
Theorem x_limits_span_the_percentiles cmap str_float tight_layout df :
  returns_figure (create_comparative_chart cmap str_float tight_layout df)
  = true ->
  exists x_min x_max rest,
    ax_calls (create_comparative_chart cmap str_float tight_layout df)
    = set_xlim (x_min - 40) (x_max + 40) :: rest
    /\ (forall c r v,
          In c (available_cols df) -> In r (rows df) -> num r c = Some v ->
          x_min <= v <= x_max)
    /\ (exists c r,
          In c (available_cols df) /\ In r (rows df) /\ num r c = Some x_min)
    /\ (exists c r,
          In c (available_cols df) /\ In r (rows df) /\ num r c = Some x_max).
Proof.
  intro Hfig.
  destruct (@chart_drawn_cases cmap str_float tight_layout df Hfig)
    as (x_min & x_max & He & Hav & Hmin & Hmax).
  destruct (@frame_min_least _ _ _ Hmin) as [Hlo Hlo_at].
  destruct (@frame_max_greatest _ _ _ Hmax) as [Hhi Hhi_at].
  exists x_min, x_max. eexists. split.
  - rewrite (@ax_calls_drawn cmap str_float tight_layout df _ _
               He Hav Hmin Hmax).
    reflexivity.
  - split; [|split; assumption].
    intros c r v Hc Hr Hv. split; [eapply Hlo|eapply Hhi]; eassumption.
Qed.

Lemma x_limits_span_the_percentiles_witness :
  returns_figure (create_comparative_chart sample_cmap sample_str_float
                                            sample_tight_layout three_cases)
  = true
  /\ exists x_min x_max rest,
       ax_calls (create_comparative_chart sample_cmap sample_str_float
                                           sample_tight_layout three_cases)
       = set_xlim (x_min - 40) (x_max + 40) :: rest
       /\ (exists c r,
             In c (available_cols three_cases) /\ In r (rows three_cases)
             /\ num r c = Some x_min).
Proof.
  split; [reflexivity|].
  destruct (@x_limits_span_the_percentiles sample_cmap sample_str_float
              sample_tight_layout three_cases eq_refl)
    as (x_min & x_max & rest & Hcalls & _ & Hlo & _).
  exists x_min, x_max, rest. split; assumption.
Defined.

(** ** Rows of the chart *)

Lemma enumerate_from_in {A} (l : list A) : forall k i x,
  In (i, x) (enumerate_from k l) ->
  (k <= i)%nat /\ nth_error l (i - k) = Some x.
Proof.
  induction l as [|a l IH]; intros k i x H; [easy|].
  destruct H as [H|H].
  - injection H as <- <-. rewrite Nat.sub_diag. split; [lia|reflexivity].
  - apply IH in H. destruct H as [Hk H]. split; [lia|].
    replace (i - k)%nat with (S (i - S k)) by lia. exact H.
Qed.

Lemma enumerate_in {A} (l : list A) i x :
  In (i, x) (enumerate l) -> nth_error l i = Some x.
Proof.
  intro H. apply enumerate_from_in in H. now rewrite Nat.sub_0_r in H.
Qed.

Lemma iterrows_nth df i row :
  nth_error (iterrows df) i = Some row ->
  index row = columns df /\ nth_error (rows df) i = Some (values row).
Proof.
  unfold iterrows. rewrite nth_error_map.
  destruct (nth_error (rows df) i) as [r|]; [|discriminate].
  intro H. injection H as <-. now split.
Qed.

Lemma percentile_bars_at_slot cmap row idx height cols :
  Forall (at_slot idx height)
         (calls (_create_percentile_bars cmap row idx height cols)).
Proof.
  destruct (Nat.lt_ge_cases (length (present_percentiles row cols)) 2)
    as [Hfew|Hmany].
  - rewrite create_percentile_bars_few by exact Hfew. constructor.
  - destruct (sin_variacion row) eqn:Hc.
    + rewrite create_percentile_bars_constant by assumption.
      repeat constructor.
    + rewrite create_percentile_bars_varying by assumption.
      unfold calls, fst. apply Forall_forall. intros c Hin.
      apply in_map_iff in Hin. destruct Hin as (ab & <- & _). now split.
Qed.

Lemma row_calls_at_slot cmap str_float heights cols x_min x_max ir :
  Forall (at_slot (fst ir) (nth (fst ir) heights NaN))
         (row_calls cmap str_float heights cols x_min x_max ir).
Proof.
  unfold row_calls. rewrite !Forall_app. split; [|split].
  - apply percentile_bars_at_slot.
  - unfold _add_inss_lines.
    repeat first
      [ apply Forall_bind; [|intros ?]
      | apply Forall_ret
      | apply Forall_emit; simpl; auto
      | match goal with
        | |- Forall _ (calls (if ?b then _ else _)) => destruct b
        | |- Forall _ (calls (match ?o with Some _ => _ | None => _ end)) =>
            destruct o
        end ].
  - unfold _add_labels.
    repeat first
      [ apply Forall_bind; [|intros ?]
      | apply Forall_ret
      | apply Forall_emit; reflexivity
      | match goal with
        | |- Forall _ (calls (if ?b then _ else _)) => destruct b
        end ].
Qed.

(** X5.  A call of [create_comparative_chart] never returns [None]
    silently and never shows a message beside a figure: it either
    returns the figure without any message, having drawn, or returns
    [None] with exactly one message.  That message is the warning "No
    hay datos para visualizar", with nothing drawn, when the frame is
    empty, and an error in every other case. *)
Theorem chart_returns_figure_or_one_message cmap str_float tight_layout df :
  let out := create_comparative_chart cmap str_float tight_layout df in
  (returns_figure out = true /\ st_calls out = [] /\ ax_calls out <> [])
  \/ (returns_figure out = false
      /\ ((empty df = true /\ ax_calls out = []
           /\ st_calls out = [st_warning "No hay datos para visualizar"])
          \/ (empty df = false /\ exists msg, st_calls out = [st_error msg]))).
Proof.
  intro out.
  destruct (chart_cases cmap str_float tight_layout df)
    as [(Hfig & Hax & [[He Hst]|[He Hst]])
       |(x_min & x_max & He & Hav & Hmin & Hmax)].
  - right. split; [exact Hfig|]. left. now repeat split.
  - right. split; [exact Hfig|]. right. now split.
  - subst out.
    rewrite (@chart_outcome_drawn cmap str_float tight_layout df _ _
               He Hav Hmin Hmax).
    destruct (tight_layout _) as [[]|msg].
    + left. repeat split. discriminate.
    + right. split; [reflexivity|]. right. split; [exact He|].
      eexists. reflexivity.
Qed.

Lemma in_present_percentiles row cols v :
  In v (present_percentiles row cols)
  <-> exists c, In c cols /\ num (values row) c = Some v.
Proof.
  unfold present_percentiles. rewrite in_dropna_values, in_map_iff.
  split; intros (c & H1 & H2); exists c; auto.
Qed.

Lemma percentile_bars_inside cmap row idx height cols x_min x_max :
  (forall v, In v (present_percentiles row cols) -> x_min <= v <= x_max) ->
  Forall (inside (x_min - 40) (x_max + 40))
         (calls (_create_percentile_bars cmap row idx height cols)).
Proof.
  intro Hin.
  destruct (Nat.lt_ge_cases (length (present_percentiles row cols)) 2)
    as [Hfew|Hmany].
  - rewrite create_percentile_bars_few by exact Hfew. constructor.
  - destruct (sin_variacion row) eqn:Hc.
    + rewrite create_percentile_bars_constant by assumption.
      destruct (present_percentiles row cols) as [|p0 ps];
        [simpl in Hmany; lia|].
      destruct (Hin p0) as [H1 H2]; [now left|].
      repeat constructor; simpl; lra.
    + rewrite create_percentile_bars_varying by assumption.
      unfold calls, fst. apply Forall_forall. intros c Hc'.
      apply in_map_iff in Hc'. destruct Hc' as ([a b] & <- & Hab).
      apply filter_In in Hab. destruct Hab as [Hab _].
      apply in_adjacent_pairs in Hab. destruct Hab as [Ha Hb].
      destruct (Hin a Ha), (Hin b Hb). simpl. split; lra.
Qed.

Lemma no_rectangle_inside lo hi cs :
  Forall (fun c => match c with barh _ _ _ _ _ => False | _ => True end) cs ->
  Forall (inside lo hi) cs.
Proof.
  apply Forall_impl. intros [ ] H; simpl in *; trivial. destruct H.
Qed.

Lemma inss_lines_no_rectangle row idx height :
  Forall (fun c => match c with barh _ _ _ _ _ => False | _ => True end)
         (calls (_add_inss_lines row idx height)).
Proof. unfold _add_inss_lines. proper_calls. Qed.

Lemma labels_no_rectangle str_float row idx x_min x_max lm rm :
  Forall (fun c => match c with barh _ _ _ _ _ => False | _ => True end)
         (calls (_add_labels str_float row idx x_min x_max lm rm)).
Proof. unfold _add_labels. proper_calls. Qed.

Lemma shading_no_rectangle df :
  Forall (fun c => match c with barh _ _ _ _ _ => False | _ => True end)
         (calls (_add_diagnosis_shading df)).
Proof. unfold _add_diagnosis_shading, shade. proper_calls. Qed.

(** X6.  In a drawn chart every rectangle lies strictly inside the
    x-limits that the chart sets: its left edge is right of the lower
    limit and its right edge left of the upper one. *)
Theorem rectangles_inside_x_limits cmap str_float tight_layout df :
  returns_figure (create_comparative_chart cmap str_float tight_layout df)
  = true ->
  exists x_left x_right rest,
    ax_calls (create_comparative_chart cmap str_float tight_layout df)
    = set_xlim x_left x_right :: rest
    /\ Forall (inside x_left x_right) rest.
Proof.
  intro Hfig.
  destruct (@chart_drawn_cases cmap str_float tight_layout df Hfig)
    as (x_min & x_max & He & Hav & Hmin & Hmax).
  destruct (@frame_min_least _ _ _ Hmin) as [Hlo _].
  destruct (@frame_max_greatest _ _ _ Hmax) as [Hhi _].
  rewrite (@ax_calls_drawn cmap str_float tight_layout df _ _ He Hav Hmin Hmax).
  eexists _, _, _. split; [reflexivity|].
  change Config.LEFT_MARGIN with 40. change Config.RIGHT_MARGIN with 40.
  apply Forall_app. split.
  - apply Forall_flat_map, Forall_forall. intros [idx row] Hir.
    apply enumerate_in, iterrows_nth in Hir. destruct Hir as [_ Hrow].
    apply nth_error_In in Hrow.
    unfold row_calls. rewrite !Forall_app. cbn [fst snd]. split; [|split].
    + apply percentile_bars_inside. intros v Hv.
      apply in_present_percentiles in Hv. destruct Hv as (c & Hc & Hv).
      split; [eapply Hlo|eapply Hhi]; eassumption.
    + apply no_rectangle_inside, inss_lines_no_rectangle.
    + apply no_rectangle_inside, labels_no_rectangle.
  - constructor; [exact I|]. apply Forall_app. split.
    + apply no_rectangle_inside, shading_no_rectangle.
    + repeat constructor.
Qed.

Lemma rectangles_inside_x_limits_witness :
  returns_figure (create_comparative_chart sample_cmap sample_str_float
                                            sample_tight_layout three_cases)
  = true
  /\ exists x_left x_right rest,
       ax_calls (create_comparative_chart sample_cmap sample_str_float
                                           sample_tight_layout three_cases)
       = set_xlim x_left x_right :: rest
       /\ Forall (inside x_left x_right) rest.
Proof.
  split; [reflexivity|].
  exact (@rectangles_inside_x_limits sample_cmap sample_str_float
           sample_tight_layout three_cases eq_refl).
Defined.

Lemma row_height_bounded df i r c :
  nth_error (rows df) i = Some r ->
  num r count_column = Some c ->
  exists h,
    nth i (_calculate_bar_heights df) NaN = Some h
    /\ Config.MIN_BAR_HEIGHT <= h <= Config.MAX_BAR_HEIGHT.
Proof.
  intros Hr Hc.
  destruct (@heights_within df i c) as (h & Hh & Hb).
  { unfold column. rewrite nth_error_map, Hr. simpl. now rewrite Hc. }
  exists h. split; [|exact Hb].
  now apply nth_error_nth with (d := NaN) in Hh.
Qed.

(** X7.  When every row of the frame has an episode count, every
    rectangle of the chart has a height that is a number within
    [[MIN_BAR_HEIGHT, MAX_BAR_HEIGHT]]. *)
Theorem rectangle_heights_bounded cmap str_float tight_layout df :
  (forall r, In r (rows df) -> exists c, num r "Count Episodios" = Some c) ->
  Forall bounded_height
         (ax_calls (create_comparative_chart cmap str_float tight_layout df)).
Proof.
  intro Hcounts.
  destruct (chart_cases cmap str_float tight_layout df)
    as [(_ & -> & _)|(x_min & x_max & He & Hav & Hmin & Hmax)];
    [constructor|].
  rewrite (@ax_calls_drawn cmap str_float tight_layout df _ _ He Hav Hmin Hmax).
  constructor; [exact I|]. apply Forall_app. split.
  - apply Forall_flat_map, Forall_forall. intros [idx row] Hir.
    apply enumerate_in, iterrows_nth in Hir. destruct Hir as [_ Hrow].
    destruct (Hcounts (values row)) as [c Hc];
      [eapply nth_error_In; eassumption|].
    destruct (row_height_bounded df idx Hrow Hc) as (h & Hh & Hb).
    eapply Forall_impl; [|apply row_calls_at_slot].
    cbn [fst]. rewrite Hh. intros [ ] H; simpl in *; trivial.
    destruct H as [_ ->]. now exists h.
  - constructor; [exact I|]. apply Forall_app. split.
    + eapply Forall_impl; [|apply shading_no_rectangle].
      intros [ ] H; simpl in *; trivial. destruct H.
    + repeat constructor.
Qed.

Lemma rectangle_heights_bounded_witness :
  Forall bounded_height
         (ax_calls (create_comparative_chart sample_cmap sample_str_float
                                              sample_tight_layout three_cases)).
Proof.
  apply rectangle_heights_bounded. intros r Hr. simpl in Hr.
  destruct Hr as [<-|[<-|[<-|[]]]]; eexists; reflexivity.
Defined.

(** X8.  In a drawn chart, between the x-limits and the inversion of
    the y-axis, every call belongs to a row of the frame: it sits on
    the slot that is the position of the row in the frame, a rectangle
    has the height computed for that row, and the vertical line of the
    standard duration reaches half that height above and below the
    slot. *)
Theorem row_content_sits_on_slots cmap str_float tight_layout df :
  returns_figure (create_comparative_chart cmap str_float tight_layout df)
  = true ->
  exists x_left x_right content rest,
    ax_calls (create_comparative_chart cmap str_float tight_layout df)
    = set_xlim x_left x_right :: content ++ invert_yaxis :: rest
    /\ Forall (fun c =>
                 exists idx,
                   (idx < length (rows df))%nat
                   /\ at_slot idx (nth idx (_calculate_bar_heights df) NaN) c)
              content.
Proof.
  intro Hfig.
  destruct (@chart_drawn_cases cmap str_float tight_layout df Hfig)
    as (x_min & x_max & He & Hav & Hmin & Hmax).
  rewrite (@ax_calls_drawn cmap str_float tight_layout df _ _ He Hav Hmin Hmax).
  eexists _, _, _, _. split; [reflexivity|].
  apply Forall_flat_map, Forall_forall. intros [idx row] Hir.
  apply enumerate_in, iterrows_nth in Hir. destruct Hir as [_ Hrow].
  eapply Forall_impl; [|apply row_calls_at_slot].
  cbn [fst]. intros c Hc. exists idx. split; [|exact Hc].
  apply nth_error_Some. congruence.
Qed.

Lemma row_content_sits_on_slots_witness :
  returns_figure (create_comparative_chart sample_cmap sample_str_float
                                            sample_tight_layout three_cases)
  = true
  /\ exists x_left x_right content rest,
       ax_calls (create_comparative_chart sample_cmap sample_str_float
                                           sample_tight_layout three_cases)
       = set_xlim x_left x_right :: content ++ invert_yaxis :: rest
       /\ Forall (fun c =>
                    exists idx,
                      (idx < 3)%nat
                      /\ at_slot idx
                                 (nth idx (_calculate_bar_heights three_cases)
                                      NaN) c)
                 content.
Proof.
  split; [reflexivity|].
  exact (@row_content_sits_on_slots sample_cmap sample_str_float
           sample_tight_layout three_cases eq_refl).
Defined.

(** ** Heights and counts *)

Lemma linear_height_monotone cmin cmax a b :
  0 < cmax - cmin -> a <= b ->
  linear_height cmin cmax a <= linear_height cmin cmax b.
Proof.
  intros Hpos Hab. unfold linear_height, Config.MIN_BAR_HEIGHT,
    Config.MAX_BAR_HEIGHT.
  assert (H : (a - cmin) / (cmax - cmin) <= (b - cmin) / (cmax - cmin)).
  { unfold Qdiv. apply Qmult_le_compat_r; [lra|].
    apply Qinv_le_0_compat. lra. }
  set (ta := (a - cmin) / (cmax - cmin)) in *.
  set (tb := (b - cmin) / (cmax - cmin)) in *. lra.
Qed.

Lemma counts_present_extremes df i c :
  nth_error (column df count_column) i = Some (Some c) ->
  exists cmin cmax,
    series_min (column df count_column) = Some cmin
    /\ series_max (column df count_column) = Some cmax
    /\ cmin <= c <= cmax.
Proof.
  intro Hi. apply nth_error_In in Hi.
  destruct (series_min_some _ _ Hi) as [cmin Hmin].
  destruct (series_max_some _ _ Hi) as [cmax Hmax].
  exists cmin, cmax. repeat split; trivial.
  - eapply series_min_le; eassumption.
  - eapply series_max_ge; eassumption.
Qed.

(** X9.  Heights follow the episode counts: of two rows that have a
    count, the one with the greater count is at least as tall. *)
Theorem heights_follow_counts df i j ci cj :
  nth_error (column df "Count Episodios") i = Some (Some ci) ->
  nth_error (column df "Count Episodios") j = Some (Some cj) ->
  ci <= cj ->
  exists hi hj,
    nth_error (_calculate_bar_heights df) i = Some (Some hi)
    /\ nth_error (_calculate_bar_heights df) j = Some (Some hj)
    /\ hi <= hj.
Proof.
  fold count_column. intros Hi Hj Hle.
  assert (Hlen : forall k c, nth_error (column df count_column) k
                             = Some (Some c) ->
                 nth_error (np_full (length (rows df)) midpoint) k
                 = Some (Some midpoint)).
  { intros k c Hk. apply nth_error_repeat.
    assert (H : nth_error (column df count_column) k <> None) by congruence.
    apply nth_error_Some in H. unfold column in H.
    now rewrite length_map in H. }
  destruct (has_column (columns df) count_column) eqn:Hc.
  2:{ rewrite (heights_without_column _ Hc).
      exists midpoint, midpoint.
      rewrite (Hlen _ _ Hi), (Hlen _ _ Hj). repeat split. apply Qle_refl. }
  destruct (counts_present_extremes df i Hi)
    as (cmin & cmax & Hmin & Hmax & Hlo & Hhi).
  destruct (Qeq_dec (cmax - cmin) 0) as [Z|NZ].
  - rewrite (heights_zero_range _ Hc Hmin Hmax Z).
    exists midpoint, midpoint.
    rewrite (Hlen _ _ Hi), (Hlen _ _ Hj). repeat split. apply Qle_refl.
  - rewrite (heights_linear _ _ Hc Hmin Hmax NZ Hi).
    rewrite (heights_linear _ _ Hc Hmin Hmax NZ Hj).
    eexists _, _. repeat split.
    apply linear_height_monotone; [|exact Hle].
    destruct (Qlt_le_dec 0 (cmax - cmin)) as [H|H]; [exact H|].
    exfalso. apply NZ. lra.
Qed.

Lemma heights_follow_counts_witness :
  8 <= 12
  /\ exists hi hj,
       nth_error (_calculate_bar_heights three_cases) 1 = Some (Some hi)
       /\ nth_error (_calculate_bar_heights three_cases) 2 = Some (Some hj)
       /\ hi <= hj.
Proof.
  assert (H : 8 <= 12) by (unfold Qle; simpl; lia).
  split; [exact H|].
  exact (@heights_follow_counts three_cases 1 2 8 12 eq_refl eq_refl H).
Defined.

(** X10.  When the counts of the frame are not all equal, the rows with
    the least count get exactly [MIN_BAR_HEIGHT] and the rows with the
    greatest count exactly [MAX_BAR_HEIGHT]. *)
Theorem extreme_counts_get_extreme_heights df count_min count_max :
  has_column (columns df) "Count Episodios" = true ->
  series_min (column df "Count Episodios") = Some count_min ->
  series_max (column df "Count Episodios") = Some count_max ->
  ~ count_max - count_min == 0 ->
  forall i c,
    nth_error (column df "Count Episodios") i = Some (Some c) ->
    exists h,
      nth_error (_calculate_bar_heights df) i = Some (Some h)
      /\ (c == count_min -> h == Config.MIN_BAR_HEIGHT)
      /\ (c == count_max -> h == Config.MAX_BAR_HEIGHT).
Proof.
  fold count_column. intros Hc Hmin Hmax NZ i c Hi.
  rewrite (heights_linear _ _ Hc Hmin Hmax NZ Hi).
  eexists. split; [reflexivity|].
  unfold linear_height, Config.MIN_BAR_HEIGHT, Config.MAX_BAR_HEIGHT.
  split; intros ->; field; exact NZ.
Qed.

Lemma extreme_counts_get_extreme_heights_witness :
  ~ 15 - 8 == 0
  /\ exists h,
       nth_error (_calculate_bar_heights three_cases) 0 = Some (Some h)
       /\ h == Config.MAX_BAR_HEIGHT.
Proof.
  assert (NZ : ~ 15 - 8 == 0) by (intro H; vm_compute in H; discriminate).
  split; [exact NZ|].
  destruct (@extreme_counts_get_extreme_heights three_cases 8 15
              eq_refl eq_refl eq_refl NZ 0%nat 15 eq_refl)
    as (h & Hh & _ & Hmax).
  exists h. split; [exact Hh|]. apply Hmax. reflexivity.
Defined.

(** ** Segments of one record *)

Lemma norm_midpoint_inside lo hi a b :
  lo <= a -> a < b -> b <= hi ->
  0 <= norm lo hi ((a + b) / 2) <= 1.
Proof.
  intros Hlo Hab Hhi. unfold norm.
  assert (Hpos : 0 < hi - lo) by lra.
  assert (H1 : a <= (a + b) / 2) by (apply Qle_shift_div_l; lra).
  assert (H2 : (a + b) / 2 <= b) by (apply Qle_shift_div_r; lra).
  set (m := (a + b) / 2) in *.
  split.
  - apply Qle_shift_div_l; [exact Hpos|]. lra.
  - apply Qle_shift_div_r; [exact Hpos|]. lra.
Qed.

(** X11.  For a record that is not flagged as constant, the colormap is
    asked only for values of its scale, from 0 to 1, although
    [Normalize] does not clip: the rectangles are those of the
    increasing adjacent pairs, and the value whose colour each one gets
    is neither below 0 nor above 1. *)
Theorem colours_come_from_the_scale cmap row idx height cols :
  sin_variacion row = false ->
  (2 <= length (present_percentiles row cols))%nat ->
  exists asked : list (Q * Q * Q),
    _create_percentile_bars cmap row idx height cols
    = (map (fun abt =>
              let a := fst (fst abt) in
              let b := snd (fst abt) in
              barh idx (b - a) a height (Mapped (cmap (snd abt))))
           asked,
       Ok tt)
    /\ Forall (fun abt => 0 <= snd abt <= 1) asked.
Proof.
  intros Hc Hlen.
  set (ps := present_percentiles row cols) in *.
  exists (map (fun ab => (ab, norm (py_min ps) (py_max ps)
                                   ((fst ab + snd ab) / 2)))
              (filter increasing (adjacent_pairs ps))).
  split.
  - rewrite create_percentile_bars_varying by assumption.
    fold ps. cbv zeta. now rewrite map_map.
  - apply Forall_forall. intros abt Habt. apply in_map_iff in Habt.
    destruct Habt as ([a b] & <- & Hab). apply filter_In in Hab.
    destruct Hab as [Hin Hinc]. apply in_adjacent_pairs in Hin.
    destruct Hin as [Ha Hb]. apply Qltb_lt in Hinc. simpl in *.
    apply norm_midpoint_inside; [now apply py_min_le|exact Hinc|].
    now apply py_max_ge.
Qed.

Lemma colours_come_from_the_scale_witness :
  sin_variacion dipping = false
  /\ (2 <= length (present_percentiles dipping percentile_cols))%nat
  /\ exists asked : list (Q * Q * Q),
       map snd asked
       = [ ((10 + 15) / 2 - 10) / (35 - 10);
           ((12 + 30) / 2 - 10) / (35 - 10);
           ((30 + 35) / 2 - 10) / (35 - 10) ]
       /\ Forall (fun abt => 0 <= snd abt <= 1) asked.
Proof.
  assert (Hlen : (2 <= length (present_percentiles dipping percentile_cols))%nat)
    by (simpl; lia).
  split; [reflexivity|]. split; [exact Hlen|].
  destruct (@colours_come_from_the_scale sample_cmap dipping 0
              (Some midpoint) percentile_cols eq_refl Hlen)
    as (asked & Hcalls & Hall).
  exists asked. split; [|exact Hall].
  apply (f_equal fst) in Hcalls. simpl in Hcalls.
  destruct asked as [|[[a1 b1] t1] [|[[a2 b2] t2] [|[[a3 b3] t3] [|? ?]]]];
    try discriminate.
  simpl in Hcalls. unfold sample_cmap in Hcalls.
  inversion Hcalls. reflexivity.
Defined.




(** X13.  For a record that is not flagged as constant and whose
    present percentiles strictly increase, there is one rectangle for
    each adjacent pair: one fewer than there are present values. *)
Theorem increasing_percentiles_give_all_segments cmap row idx height cols :
  sin_variacion row = false ->
  let ps := present_percentiles row cols in
  (2 <= length ps)%nat ->
  Forall (fun ab => fst ab < snd ab) (adjacent_pairs ps) ->
  length (calls (_create_percentile_bars cmap row idx height cols))
  = (length ps - 1)%nat.
Proof.
  intros Hc ps Hlen Hinc.
  rewrite create_percentile_bars_varying by assumption. fold ps.
  unfold calls, fst. cbv zeta. rewrite length_map.
  rewrite (forallb_filter_id increasing (adjacent_pairs ps)).
  - unfold adjacent_pairs. rewrite length_combine.
    destruct ps as [|a rest]; [reflexivity|]. cbn [tl length].
    rewrite Nat.min_r by lia. lia.
  - apply forallb_forall. intros ab Hab. rewrite Forall_forall in Hinc.
    apply Qltb_lt. now apply Hinc.
Qed.

Lemma increasing_percentiles_give_all_segments_witness :
  length (calls (_create_percentile_bars
                   sample_cmap (nth 0 (iterrows three_cases) dipping) 0
                   (Some midpoint) percentile_cols))
  = 5%nat.
Proof.
  apply (@increasing_percentiles_give_all_segments sample_cmap
           (nth 0 (iterrows three_cases) dipping) 0 (Some midpoint)
           percentile_cols eq_refl).
  - simpl. lia.
  - repeat constructor; simpl; unfold Qlt; simpl; lia.
Defined.

(** ** Bands and separators *)

Lemma separators_after_first runs : forall k,
  separator_ys (flat_map (fun ir => band_calls (fst ir) (snd ir))
                         (enumerate_from (S k) runs))
  = map fst (map band_of_slots runs).
Proof.
  induction runs as [|run runs IH]; intro k; [reflexivity|].
  cbn [enumerate_from flat_map fst snd map].
  unfold separator_ys in *. rewrite flat_map_app, IH. reflexivity.
Qed.

(** X14.  The separator lines of the shading are drawn at the lower
    edge of every band except the first, in the same order; a frame
    without the diagnosis column gets neither bands nor separators. *)
Theorem separators_open_every_band_but_the_first df :
  separator_ys (calls (_add_diagnosis_shading df))
  = map fst (tl (band_edges (calls (_add_diagnosis_shading df))))
  /\ (has_column (columns df) "Diagnóstico" = false ->
      _add_diagnosis_shading df = ([], Ok tt)).
Proof.
  split.
  - destruct (has_column (columns df) diagnosis_column) eqn:Hc.
    + rewrite shading_calls by exact Hc. unfold calls, fst.
      unfold enumerate. rewrite band_edges_calls.
      destruct (diagnosis_bounds (diagnoses df)) as [|run runs];
        [reflexivity|].
      cbn [enumerate_from flat_map fst snd map tl].
      unfold separator_ys. rewrite flat_map_app.
      fold (separator_ys (flat_map (fun ir => band_calls (fst ir) (snd ir))
                                   (enumerate_from 1 runs))).
      now rewrite separators_after_first.
    + unfold _add_diagnosis_shading. unfold diagnosis_column in Hc.
      now rewrite Hc.
  - intro Hc. unfold _add_diagnosis_shading. now rewrite Hc.
Qed.

Lemma separators_open_every_band_but_the_first_witness :
  separator_ys (calls (_add_diagnosis_shading three_cases))
  = [Qnat 2 - (2 # 10)]
  /\ _add_diagnosis_shading no_diagnosis = ([], Ok tt).
Proof.
  destruct (separators_open_every_band_but_the_first three_cases) as [H _].
  destruct (separators_open_every_band_but_the_first no_diagnosis) as [_ H'].
  split; [rewrite H; reflexivity|apply H'; reflexivity].
Defined.

(** ** Column names *)

Lemma validate_columns_spec raw :
  _validate_columns raw = true
  <-> forall original, In original (map fst Config.COLUMN_MAPPING) ->
                       In original (raw_columns raw).
Proof.
  unfold _validate_columns. rewrite Nat.eqb_eq, length_zero_iff_nil. split.
  - intros H original Hin. apply has_column_in.
    destruct (has_column (raw_columns raw) original) eqn:E; [reflexivity|].
    assert (Hf : In original
                    (filter (fun c => negb (has_column (raw_columns raw) c))
                            (map fst Config.COLUMN_MAPPING))).
    { apply filter_In. split; [exact Hin|]. now rewrite E. }
    rewrite H in Hf. destruct Hf.
  - intro H.
    destruct (filter _ (map fst Config.COLUMN_MAPPING)) as [|c l] eqn:E;
      [reflexivity|].
    assert (Hc : In c (c :: l)) by now left.
    rewrite <- E in Hc. apply filter_In in Hc. destruct Hc as [Hin Hneg].
    apply H, has_column_in in Hin. rewrite Hin in Hneg. discriminate.
Qed.

Lemma rename_mapped original internal :
  In (original, internal) Config.COLUMN_MAPPING ->
  rename_with Config.COLUMN_MAPPING original = internal.
Proof.
  unfold Config.COLUMN_MAPPING. simpl.
  intros H.
  repeat (destruct H as [H|H]; [injection H as <- <-; reflexivity|]).
  destruct H.
Qed.

Lemma rename_fixes_or_maps mapping : forall c,
  rename_with mapping c = c \/ In (rename_with mapping c) (map snd mapping).
Proof.
  induction mapping as [|[original internal] mapping IH]; intro c; simpl.
  - now left.
  - destruct (String.eqb c original); [right; now left|].
    destruct (IH c); [now left|right; now right].
Qed.

Lemma rename_internal internal :
  In internal (map snd Config.COLUMN_MAPPING) ->
  rename_with Config.COLUMN_MAPPING internal = internal.
Proof.
  unfold Config.COLUMN_MAPPING. simpl. intros H.
  repeat (destruct H as [<-|H]; [reflexivity|]). destruct H.
Qed.

Lemma lookup_renamed (f : string -> string) cols : forall cells c,
  NoDup (map f cols) -> In c cols ->
  lookup (map f cols) cells (f c) = lookup cols cells c.
Proof.
  induction cols as [|h cols IH]; intros cells c Hnd Hin; [easy|].
  destruct cells as [|v cells]; [reflexivity|].
  simpl in Hnd. inversion Hnd as [|? ? Hnotin Hnd']; subst. simpl.
  destruct (String.eqb c h) eqn:E.
  - apply String.eqb_eq in E. subst. now rewrite String.eqb_refl.
  - destruct Hin as [->|Hin]; [now rewrite String.eqb_refl in E|].
    destruct (String.eqb (f c) (f h)) eqn:E'.
    + apply String.eqb_eq in E'. exfalso. apply Hnotin. rewrite <- E'.
      now apply in_map.
    + now apply IH.
Qed.


(** X15.  After [_rename_columns], a frame that passed
    [_validate_columns] has every internal column name; and when the
    renamed names are distinct, the cell of a row under an internal
    name is the cell the row had under the original name. *)
Theorem renamed_frame_has_internal_columns raw :
  _validate_columns raw = true ->
  forall original internal,
    In (original, internal) Config.COLUMN_MAPPING ->
    has_column (raw_columns (_rename_columns raw)) internal = true
    /\ (NoDup (raw_columns (_rename_columns raw)) ->
        forall cells,
          lookup (raw_columns (_rename_columns raw)) cells internal
          = lookup (raw_columns raw) cells original).
Proof.
  intros Hv original internal Hin.
  assert (Ho : In original (raw_columns raw)).
  { apply (proj1 (validate_columns_spec raw) Hv).
    exact (in_map fst _ _ Hin). }
  pose proof (@rename_mapped _ _ Hin) as Hr. unfold _rename_columns. simpl.
  split.
  - apply has_column_in. rewrite <- Hr. now apply in_map.
  - intros Hnd cells. rewrite <- Hr. now apply lookup_renamed.
Qed.

Lemma renamed_frame_has_internal_columns_witness :
  _validate_columns test_sheet = true
  /\ has_column (raw_columns (_rename_columns test_sheet)) "Count Episodios"
     = true
  /\ forall cells,
       lookup (raw_columns (_rename_columns test_sheet)) cells
              "Count Episodios"
       = lookup (raw_columns test_sheet) cells "Count (Id Episodio)".
Proof.
  split; [reflexivity|].
  destruct (@renamed_frame_has_internal_columns test_sheet eq_refl
              "Count (Id Episodio)" "Count Episodios") as [H1 H2].
  { simpl. tauto. }
  split; [exact H1|]. apply H2.
  repeat constructor; simpl; intuition discriminate.
Defined.

(** X16.  Renaming is idempotent: a frame whose columns are already
    renamed is left as it is. *)
Theorem rename_columns_idempotent raw :
  _rename_columns (_rename_columns raw) = _rename_columns raw.
Proof.
  unfold _rename_columns. cbn [raw_columns raw_rows]. f_equal.
  rewrite map_map.
  apply map_ext. intro c.
  destruct (rename_fixes_or_maps Config.COLUMN_MAPPING c) as [H|H].
  - now rewrite H.
  - now apply rename_internal.
Qed.

(** ** Range validation and cleaning *)

Lemma filter_filter {A} (p q : A -> bool) l :
  filter p (filter q l) = filter (fun x => q x && p x) l.
Proof.
  induction l as [|x l IH]; [reflexivity|]. simpl.
  destruct (q x); simpl; [|exact IH]. destruct (p x); now rewrite IH.
Qed.

Lemma frame_eta df : mkFrame (columns df) (rows df) = df.
Proof. now destruct df. Qed.

Lemma keep_nonnegative_fold cs : forall df,
  fold_left keep_nonnegative cs df
  = mkFrame (columns df)
            (filter (fun r =>
                       forallb (fun col => negb (has_column (columns df) col)
                                           || fgeb (num r col) 0) cs)
                    (rows df)).
Proof.
  induction cs as [|c cs IH]; intro df.
  - simpl. rewrite (forallb_filter_id (fun _ => true));
      [now rewrite frame_eta|].
    apply forallb_forall. reflexivity.
  - simpl fold_left. rewrite IH. unfold keep_nonnegative.
    destruct (has_column (columns df) c) eqn:E.
    + unfold keep. cbn [columns rows]. rewrite filter_filter.
      f_equal. apply filter_ext. intro r. simpl. now rewrite E.
    + f_equal. apply filter_ext. intro r. simpl. now rewrite E.
Qed.

Lemma validate_ranges_filter df :
  _validate_ranges df
  = mkFrame (columns df) (filter (valid_row (columns df)) (rows df)).
Proof.
  unfold _validate_ranges. cbv zeta.
  change (fold_left _ ?l df) with (fold_left keep_nonnegative l df).
  fold duration_cols. rewrite keep_nonnegative_fold. cbn [columns].
  fold count_column. unfold valid_row, keep.
  destruct (has_column (columns df) count_column); cbn [columns rows].
  - rewrite filter_filter. reflexivity.
  - f_equal. apply filter_ext. intro r. cbn [negb orb].
    now rewrite andb_true_r.
Qed.

(** X17.  [_validate_ranges] keeps the columns and keeps, in their
    order, exactly the rows that have, in every duration and percentile
    column of the frame, a value that is not NaN and not negative, and,
    if the frame has the episode count, a count between [MIN_EPISODIOS]
    and [MAX_EPISODIOS]. *)
Theorem validate_ranges_keeps_valid_rows df :
  columns (_validate_ranges df) = columns df
  /\ rows (_validate_ranges df)
     = filter (fun r =>
                 forallb (fun col =>
                            negb (has_column (columns df) col)
                            || match num r col with
                               | Some v => Qle_bool 0 v
                               | None => false
                               end)
                         ([ "Durestd Inss min"; "Duropt Inss min" ]
                            ++ Config.PERCENTILE_COLUMNS)
                 && (negb (has_column (columns df) "Count Episodios")
                     || match num r "Count Episodios" with
                        | Some c =>
                            Qle_bool Config.MIN_EPISODIOS c
                            && Qle_bool c Config.MAX_EPISODIOS
                        | None => false
                        end))
              (rows df).
Proof.
  rewrite validate_ranges_filter. split; [reflexivity|]. cbn [rows].
  apply filter_ext. intro r. unfold valid_row, duration_cols, count_column.
  f_equal. f_equal. unfold fgeb, fleb.
  now destruct (num r "Count Episodios").
Qed.

(** X18.  Validating the ranges twice changes nothing more: the second
    pass keeps every row of the first. *)
Theorem validate_ranges_idempotent df :
  _validate_ranges (_validate_ranges df) = _validate_ranges df.
Proof.
  rewrite !validate_ranges_filter. cbn [columns rows]. f_equal.
  rewrite filter_filter. apply filter_ext. intro r. apply andb_diag.
Qed.

Lemma numeric_nodup : NoDup Config.NUMERIC_COLUMNS.
Proof.
  unfold Config.NUMERIC_COLUMNS.
  repeat constructor; simpl; intuition discriminate.
Qed.

Lemma clean_data_result parse_number raw :
  (forall c, In c Config.NUMERIC_COLUMNS ->
             count_occ string_dec (raw_columns raw) c = 1%nat) ->
  _clean_data parse_number raw
  = Ok (mkFrame (raw_columns raw)
                (filter (fun r => complete_row r
                                  && valid_row (raw_columns raw) r)
                        (map (typed_row parse_number (raw_columns raw))
                             (raw_rows raw)))).
Proof.
  intro Hone. unfold _clean_data. cbv zeta.
  replace (existsb _ Config.NUMERIC_COLUMNS) with false.
  2:{ symmetry. apply not_true_is_false. intro E.
      apply existsb_exists in E. destruct E as (c & Hc & Hlt).
      rewrite (Hone c Hc) in Hlt. discriminate. }
  replace (forallb (has_column (raw_columns raw)) Config.NUMERIC_COLUMNS)
    with true.
  2:{ symmetry. apply forallb_forall. intros c Hc. apply has_column_in.
      apply (count_occ_In string_dec). rewrite (Hone c Hc). lia. }
  cbn [negb]. rewrite validate_ranges_filter. unfold keep.
  cbn [columns rows]. now rewrite filter_filter.
Qed.

(** X19.  [_clean_data] returns a frame exactly when each of the nine
    numeric column names occurs once among the columns; otherwise it
    raises.  The frame it returns has the same columns, and its rows
    are, in their order, the rows of the input, numeric cells
    converted, that have a value in all nine numeric columns and pass
    the range validation. *)
Theorem clean_data_needs_each_numeric_column_once parse_number raw :
  ((exists df, _clean_data parse_number raw = Ok df)
   <-> forall c, In c Config.NUMERIC_COLUMNS ->
                 count_occ string_dec (raw_columns raw) c = 1%nat)
  /\ forall df,
       _clean_data parse_number raw = Ok df ->
       columns df = raw_columns raw
       /\ rows df
          = filter (fun r => complete_row r && valid_row (raw_columns raw) r)
                   (map (typed_row parse_number (raw_columns raw))
                        (raw_rows raw)).
Proof.
  assert (Hiff : (exists df, _clean_data parse_number raw = Ok df)
                 -> forall c, In c Config.NUMERIC_COLUMNS ->
                      count_occ string_dec (raw_columns raw) c = 1%nat).
  { intros [df H] c Hc. unfold _clean_data in H. cbv zeta in H.
    destruct (existsb _ Config.NUMERIC_COLUMNS) eqn:E1; [discriminate|].
    destruct (forallb (has_column (raw_columns raw)) Config.NUMERIC_COLUMNS)
      eqn:E2; [|discriminate].
    rewrite forallb_forall in E2. specialize (E2 c Hc).
    apply has_column_in, (count_occ_In string_dec) in E2.
    assert (Hle : (1 <? count_occ string_dec (raw_columns raw) c)%nat = false).
    { destruct (1 <? _)%nat eqn:E; [|reflexivity].
      assert (Hex : existsb
                      (fun col => (1 <? count_occ string_dec
                                          (raw_columns raw) col)%nat)
                      Config.NUMERIC_COLUMNS = true)
        by (apply existsb_exists; eauto).
      congruence. }
    apply Nat.ltb_ge in Hle. lia. }
  split.
  - split; [exact Hiff|]. intro Hone. eexists.
    now apply clean_data_result.
  - intros df Hdf.
    rewrite (clean_data_result parse_number raw) in Hdf
      by (apply Hiff; eauto).
    injection Hdf as <-. now split.
Qed.

Lemma clean_data_needs_each_numeric_column_once_witness :
  exists df,
    _clean_data no_parse (_rename_columns test_sheet) = Ok df
    /\ length (rows df) = 3%nat.
Proof.
  destruct (clean_data_needs_each_numeric_column_once
              no_parse (_rename_columns test_sheet)) as [[_ H] _].
  destruct H as [df Hdf].
  { intros c Hc. simpl in Hc.
    repeat (destruct Hc as [<-|Hc]; [reflexivity|]). destruct Hc. }
  exists df. split; [exact Hdf|].
  assert (E : _clean_data no_parse (_rename_columns test_sheet)
              = Ok (match _clean_data no_parse (_rename_columns test_sheet)
                    with Ok d => d | Raise _ => df end))
    by reflexivity.
  rewrite Hdf in E at 1. injection E as ->. reflexivity.
Defined.

(** ** The whole ingestion *)



Lemma has_column_with_column_other cols name c :
  String.eqb c name = false ->
  has_column (with_column cols name) c = has_column cols c.
Proof.
  intro E. unfold with_column.
  destruct (has_column cols name); [reflexivity|].
  unfold has_column. rewrite existsb_app. simpl. rewrite E.
  now rewrite !orb_false_r.
Qed.

(** X21.  [_calculate_additional_fields] keeps the rows in place and
    their cells in the fourteen columns of the sheet as they are.  When
    the frame has the standard duration and P60, it adds the column
    [diferencia_estandar] whose cell is the standard duration minus
    P60 of the row (NaN if either is); likewise [diferencia_optima]
    with the optimal duration. *)
Theorem differences_are_added df :
  let df' := _calculate_additional_fields df in
  length (rows df') = length (rows df)
  /\ forall i r,
       nth_error (rows df) i = Some r ->
       exists r',
         nth_error (rows df') i = Some r'
         /\ (forall c, In c (map snd Config.COLUMN_MAPPING) ->
                       num r' c = num r c /\ obj r' c = obj r c)
         /\ (has_column (columns df) "Durestd Inss min" = true ->
             has_column (columns df) "P60min" = true ->
             has_column (columns df') "diferencia_estandar" = true
             /\ num r' "diferencia_estandar"
                = fsub (num r "Durestd Inss min") (num r "P60min"))
         /\ (has_column (columns df) "Duropt Inss min" = true ->
             has_column (columns df) "P60min" = true ->
             has_column (columns df') "diferencia_optima" = true
             /\ num r' "diferencia_optima"
                = fsub (num r "Duropt Inss min") (num r "P60min")).
Proof.
  intro df'. subst df'. unfold _calculate_additional_fields.
  destruct (negb (length (filter (has_column (columns df))
                                 Config.PERCENTILE_COLUMNS) =? 0)%nat);
    cbn [columns rows];
    rewrite ?has_column_with_column_other by reflexivity;
    destruct (has_column (columns df) "Durestd Inss min") eqn:E1;
    destruct (has_column (columns df) "P60min") eqn:E2;
    cbn [andb columns rows];
    rewrite ?has_column_with_column_other by reflexivity;
    rewrite ?E2;
    destruct (has_column (columns df) "Duropt Inss min") eqn:E3;
    cbn [andb columns rows];
    (split; [now rewrite ?length_map|]);
    intros i r Hi; rewrite ?map_map;
    try (eexists; split; [apply map_nth_error; exact Hi|]);
    try (exists r; split; [exact Hi|]);
    (split; [intros c Hc; simpl in Hc;
             repeat (destruct Hc as [<-|Hc]; [now split|]); destruct Hc|]);
    (split; [try (intros; discriminate)|try (intros; discriminate)]);
    intros _ _;
    (split; [repeat first [apply has_column_added
                          | apply has_column_with_column]
            |reflexivity]).
Qed.

Lemma differences_are_added_witness :
  exists r',
    nth_error (rows (_calculate_additional_fields three_cases)) 0 = Some r'
    /\ num r' "diferencia_estandar" = fsub (Some 30) (Some 25)
    /\ num r' "diferencia_optima" = fsub (Some 25) (Some 25).
Proof.
  destruct (differences_are_added three_cases) as [_ H].
  destruct (H 0%nat _ eq_refl) as (r' & Hr' & _ & Hstd & Hopt).
  exists r'. split; [exact Hr'|].
  split; [apply Hstd; reflexivity|apply Hopt; reflexivity].
Defined.

(** ** From the ingestion to the chart *)

Lemma one_distinct_iff_extremes s :
  dropna_values s <> [] ->
  one_distinct_value s
  <-> py_min (dropna_values s) == py_max (dropna_values s).
Proof.
  intro Hne. unfold one_distinct_value. split.
  - intros (v & _ & Hall).
    rewrite (Hall (py_min (dropna_values s))),
            (Hall (py_max (dropna_values s))); [reflexivity|..];
      apply in_dropna_values; [now apply py_max_in|now apply py_min_in].
  - intro Heq. exists (py_min (dropna_values s)). split.
    + apply in_dropna_values. now apply py_min_in.
    + intros w Hw. apply in_dropna_values in Hw.
      apply Qle_antisym.
      * rewrite Heq. now apply py_max_ge.
      * now apply py_min_le.
Qed.

Section PipelineToChart.

Variable parse_number : string -> option Q.
Variable sort_values : list string -> DataFrame -> exc DataFrame.

Hypothesis sort_values_rows : forall by_ df df',
  sort_values by_ df = Ok df' ->
  columns df' = columns df /\ incl (rows df') (rows df).

Lemma processed_flags raw df :
  load_and_process_data parse_number sort_values raw = Some df ->
  has_column (columns df) flag_column = true
  /\ forall r, In r (rows df) ->
       percentiles_iguales r
       = (nunique (map (num r) Config.PERCENTILE_COLUMNS) =? 1)%nat.
Proof.
  intro Hload. pose proof Hload as Hload'.
  unfold load_and_process_data in Hload.
  destruct (negb _); [discriminate|].
  destruct (_clean_data _ _) as [df1|] eqn:E1; [|discriminate].
  destruct (_sort_data _ _) as [df2|] eqn:E2; [|discriminate].
  injection Hload as <-.
  apply clean_data_rows in E1. destruct E1 as [Hcols _].
  apply (@sort_data_rows sort_values sort_values_rows) in E2.
  destruct E2 as [Hc2 _].
  assert (Hcols2 : forall c, In c Config.NUMERIC_COLUMNS ->
                             has_column (columns df2) c = true)
    by (intros c Hc; rewrite Hc2; now apply Hcols).
  assert (Hav : available_percentiles df2 <> []).
  { unfold available_percentiles. now rewrite available_all. }
  destruct (additional_fields_rows df2 Hav) as (Hflag & _ & f & Hf & Hnum).
  split; [exact Hflag|].
  intros r Hr. rewrite Hf in Hr. apply in_map_iff in Hr.
  destruct Hr as (r2 & <- & _). destruct (Hnum r2) as (Hp & _ & Hn).
  rewrite Hp. unfold flagged. cbn [percentiles_iguales].
  rewrite available_all by exact Hcols2. f_equal. f_equal.
  apply map_ext_in. intros c Hc. symmetry.
  apply Hn; intros ->; revert Hc; unfold Config.PERCENTILE_COLUMNS; simpl;
    intuition discriminate.
Qed.

Lemma processed_percentiles raw df r :
  load_and_process_data parse_number sort_values raw = Some df ->
  In r (rows df) ->
  available_cols df = Config.PERCENTILE_COLUMNS
  /\ length (dropna_values (map (num r) Config.PERCENTILE_COLUMNS)) = 6%nat.
Proof.
  intros Hload Hr.
  destruct (@processed_rows parse_number sort_values sort_values_rows raw df
              Hload) as [Hcols Hrows].
  destruct (Hrows r Hr) as (Hall & _ & _). split.
  - unfold available_cols. now apply available_all.
  - unfold Config.PERCENTILE_COLUMNS. simpl.
    destruct (Hall "Minmin") as [p0 ->]; [simpl; tauto|].
    destruct (Hall "P20min") as [p1 ->]; [simpl; tauto|].
    destruct (Hall "P40min") as [p2 ->]; [simpl; tauto|].
    destruct (Hall "P60min") as [p3 ->]; [simpl; tauto|].
    destruct (Hall "P80min") as [p4 ->]; [simpl; tauto|].
    destruct (Hall "P99min") as [p5 ->]; [simpl; tauto|].
    reflexivity.
Qed.

End PipelineToChart.

(** X22.  For every row of a frame that [load_and_process_data]
    returns, the chart code takes its "sin variación" branch exactly
    when the least and the greatest of the row's six percentiles are
    equal; so the coloured branch never normalises over an empty
    range. *)
Theorem constant_branch_matches_flat_rows parse_number sort_values :
  (forall by_ df df',
     sort_values by_ df = Ok df' ->
     columns df' = columns df /\ incl (rows df') (rows df)) ->
  forall raw df,
    load_and_process_data parse_number sort_values raw = Some df ->
    forall r,
      In r (rows df) ->
      let row := mkSeries (columns df) r in
      let ps := present_percentiles row (available_cols df) in
      sin_variacion row = true <-> py_min ps == py_max ps.
Proof.
  intros Hsort raw df Hload r Hr row ps.
  destruct (@processed_flags parse_number sort_values Hsort raw df Hload)
    as [Hflag Hflags].
  destruct (@processed_percentiles parse_number sort_values Hsort raw df r
              Hload Hr) as [Hav Hsix].
  assert (Hps : ps = dropna_values (map (num r) Config.PERCENTILE_COLUMNS)).
  { unfold ps, present_percentiles. now rewrite Hav. }
  unfold sin_variacion, row. cbn [index values].
  unfold flag_column in Hflag. rewrite Hflag, (Hflags r Hr). cbn [andb].
  rewrite Nat.eqb_eq, nunique_one, Hps.
  apply one_distinct_iff_extremes.
  intros E. rewrite E in Hsix. discriminate.
Qed.

Lemma constant_branch_matches_flat_rows_witness :
  exists df,
    load_and_process_data no_parse sort_by_text test_sheet = Some df
    /\ forall r,
         In r (rows df) ->
         sin_variacion (mkSeries (columns df) r) = true
         <-> py_min (present_percentiles (mkSeries (columns df) r)
                                         (available_cols df))
             == py_max (present_percentiles (mkSeries (columns df) r)
                                            (available_cols df)).
Proof.
  eexists. split; [reflexivity|].
  intros r Hr.
  exact (@constant_branch_matches_flat_rows no_parse sort_by_text
           sort_by_text_rows test_sheet _ eq_refl r Hr).
Defined.

(** ** Filters *)

Lemma filter_all {A} (l : list A) : filter (fun _ => true) l = l.
Proof. induction l as [|x l IH]; [reflexivity|]. simpl. now rewrite IH. Qed.

Lemma apply_filters_result df diagnosticos genero edad_grupos range df' :
  apply_filters df diagnosticos genero edad_grupos range = Ok df' ->
  columns df' = columns df
  /\ rows df'
     = filter (passes_filters (columns df) diagnosticos genero edad_grupos
                              range)
              (rows df).
Proof.
  unfold apply_filters, filter_on, and_then, keep, passes_filters.
  cbv zeta.
  destruct (negb (length diagnosticos =? 0)%nat);
    [destruct (has_column (columns df) "Diagnóstico"); [|discriminate]|];
    cbn [columns rows];
    (destruct (negb (String.eqb genero "Todos"));
     [destruct (has_column (columns df) "Cod Genero"); [|discriminate]|]);
    cbn [columns rows];
    (destruct (negb (length edad_grupos =? 0)%nat);
     [destruct (has_column (columns df) "Gr Edad 10"); [|discriminate]|]);
    cbn [columns rows];
    destruct (has_column (columns df) "Count Episodios");
    intro H; injection H as <-; cbn [columns rows];
    (split; [reflexivity|]);
    rewrite ?filter_filter;
    first [ apply filter_ext; intro r;
            rewrite ?andb_true_l, ?andb_true_r, ?andb_assoc; reflexivity
          | symmetry; rewrite <- (filter_all (rows df)) at 2;
            apply filter_ext; intro r; reflexivity ].
Qed.

(** X23.  When [apply_filters] returns, it returns the frame with the
    same columns and, in their order, exactly the rows that pass every
    filter that is set: a diagnosis among those chosen, the chosen
    gender, an age group among those chosen, and, if the frame has the
    episode count, a count within the range.  An empty list, and
    "Todos" for the gender, leave a filter open. *)
Theorem apply_filters_keeps_matching_rows
        df diagnosticos genero edad_grupos lo hi df' :
  apply_filters df diagnosticos genero edad_grupos (lo, hi) = Ok df' ->
  columns df' = columns df
  /\ rows df'
     = filter
         (fun r =>
            (match diagnosticos with
             | [] => true
             | _ => isin (obj r "Diagnóstico") diagnosticos
             end)
            && (if String.eqb genero "Todos" then true
                else cell_is (obj r "Cod Genero") genero)
            && (match edad_grupos with
                | [] => true
                | _ => isin (obj r "Gr Edad 10") edad_grupos
                end)
            && (if has_column (columns df) "Count Episodios"
                then match num r "Count Episodios" with
                     | Some c =>
                         Qle_bool (inject_Z lo) c && Qle_bool c (inject_Z hi)
                     | None => false
                     end
                else true))
         (rows df).
Proof.
  intro H. apply apply_filters_result in H. destruct H as [Hc Hr].
  split; [exact Hc|]. rewrite Hr. apply filter_ext. intro r.
  unfold passes_filters, fgeb, fleb. cbn [fst snd].
  destruct diagnosticos, edad_grupos, (String.eqb genero "Todos"),
    (has_column (columns df) "Count Episodios"),
    (num r "Count Episodios"); reflexivity.
Qed.

Lemma apply_filters_keeps_matching_rows_witness :
  exists df',
    apply_filters three_cases ["A"] "Todos" [] (10, 20)%Z = Ok df'
    /\ map (fun r => obj r "Caso") (rows df') = [Text "C001"].
Proof.
  eexists. split; [reflexivity|].
  destruct (@apply_filters_keeps_matching_rows
              three_cases ["A"] "Todos" [] 10%Z 20%Z _ eq_refl) as [_ Hr].
  rewrite Hr. reflexivity.
Defined.

(** X24.  [apply_filters] raises exactly when a filter that is set
    names a column the frame does not have: the diagnosis, the gender
    or the age group.  The range of episode counts never raises: it is
    skipped on a frame without the count. *)
Theorem apply_filters_raises_on_missing_column
        df diagnosticos genero edad_grupos range :
  (exists df',
     apply_filters df diagnosticos genero edad_grupos range = Ok df')
  <-> (diagnosticos = [] \/ has_column (columns df) "Diagnóstico" = true)
      /\ (genero = "Todos" \/ has_column (columns df) "Cod Genero" = true)
      /\ (edad_grupos = [] \/ has_column (columns df) "Gr Edad 10" = true).
Proof.
  unfold apply_filters, filter_on, and_then, keep. cbv zeta.
  destruct diagnosticos as [|d ds]; cbn [length Nat.eqb negb];
    [|destruct (has_column (columns df) "Diagnóstico")];
    cbn [columns rows];
    (destruct (String.eqb genero "Todos") eqn:Eg; cbn [negb];
     [apply String.eqb_eq in Eg|apply String.eqb_neq in Eg;
      destruct (has_column (columns df) "Cod Genero")]);
    cbn [columns rows];
    (destruct edad_grupos as [|e es]; cbn [length Nat.eqb negb];
     [|destruct (has_column (columns df) "Gr Edad 10")]);
    cbn [columns rows];
    try destruct (has_column (columns df) "Count Episodios");
    (split;
     [ intros [df' H]; try discriminate;
       repeat split; first [now left|now right]
     | intros (H1 & H2 & H3);
       try (eexists; reflexivity);
       exfalso;
       repeat match goal with
              | H : _ \/ _ |- _ => destruct H
              end; congruence ]).
Qed.

Lemma apply_filters_raises_on_missing_column_witness :
  (exists df', apply_filters no_percentiles ["A"] "Todos" [] (1, 5)%Z = Ok df')
  /\ ~ (exists df',
          apply_filters no_percentiles ["A"] "M" [] (1, 5)%Z = Ok df').
Proof.
  split.
  - apply apply_filters_raises_on_missing_column. repeat split; auto.
  - intro H. apply apply_filters_raises_on_missing_column in H.
    destruct H as (_ & [H|H] & _); discriminate.
Defined.

(** X25.  The chart of the dashboard can fail in the layout pass
    only.  Take a sheet whose numeric columns hold numbers and blanks,
    the frame that [load_and_process_data] returned for it, filtered by
    [apply_filters] and found to be not empty (which is when the
    application displays it): [create_comparative_chart] draws it in
    full, and returns the figure without a message unless the final
    [plt.tight_layout()] raises. *)
Theorem dashboard_chart_is_drawn
        parse_number sort_values cmap str_float tight_layout :
  (forall by_ df df',
     sort_values by_ df = Ok df' ->
     columns df' = columns df /\ incl (rows df') (rows df)) ->
  forall raw df diagnosticos genero edad_grupos range df_filtered,
    numeric_cells_are_numbers raw ->
    load_and_process_data parse_number sort_values raw = Some df ->
    apply_filters df diagnosticos genero edad_grupos range = Ok df_filtered ->
    empty df_filtered = false ->
    drawn_in_full cmap str_float tight_layout df_filtered
      (create_comparative_chart cmap str_float tight_layout df_filtered).
Proof.
  intros Hsort raw df diagnosticos genero edad_grupos range df_filtered
         _ Hload Hfilter Hne.
  destruct (@processed_rows parse_number sort_values Hsort raw df Hload)
    as [Hcols Hrows].
  apply apply_filters_result in Hfilter. destruct Hfilter as [Hc Hr].
  destruct (rows df_filtered) as [|r rest] eqn:E.
  { unfold empty in Hne. now rewrite E in Hne. }
  assert (Hin : In r (rows df)).
  { assert (H : In r (r :: rest)) by now left.
    rewrite Hr in H. now apply filter_In in H. }
  destruct (Hrows r Hin) as (Hall & _ & _).
  destruct (Hall "Minmin") as [v Hv]; [simpl; tauto|].
  destruct (@chart_body_with_value cmap str_float tight_layout df_filtered
              "Minmin" r v)
    as (x_min & x_max & _ & _ & Hbody).
  - simpl. tauto.
  - rewrite Hc. apply Hcols. simpl. tauto.
  - rewrite E. now left.
  - exact Hv.
  - exists x_min, x_max. unfold create_comparative_chart. rewrite Hbody.
    destruct (tight_layout (drawn_calls cmap str_float df_filtered
                                        x_min x_max))
      as [[]|msg] eqn:El; cbn [after_layout ax_calls]; rewrite El;
      now repeat split.
Qed.

Lemma dashboard_chart_is_drawn_witness :
  exists df df_filtered,
    numeric_cells_are_numbers test_sheet
    /\ load_and_process_data no_parse sort_by_text test_sheet = Some df
    /\ apply_filters df ["Lumbalgia"; "Cervicalgia"] "M" ["36-45"] (10, 20)%Z
       = Ok df_filtered
    /\ length (rows df_filtered) = 1%nat
    /\ drawn_in_full sample_cmap sample_str_float sample_tight_layout
                     df_filtered
         (create_comparative_chart sample_cmap sample_str_float
                                   sample_tight_layout df_filtered).
Proof.
  assert (Hsheet : numeric_cells_are_numbers test_sheet).
  { intros cells col Hcells Hcol. simpl in Hcells, Hcol.
    repeat (destruct Hcells as [<-|Hcells]);
      [| | |destruct Hcells];
      repeat (destruct Hcol as [<-|Hcol]; [exact I|]); destruct Hcol. }
  eexists. eexists. split; [exact Hsheet|]. split; [reflexivity|].
  split; [reflexivity|]. split; [reflexivity|].
  exact (@dashboard_chart_is_drawn
           no_parse sort_by_text sample_cmap sample_str_float
           sample_tight_layout sort_by_text_rows test_sheet _
           ["Lumbalgia"; "Cervicalgia"] "M" ["36-45"] (10, 20)%Z _
           Hsheet eq_refl eq_refl eq_refl).
Defined.

(** ** Summary figures *)

Lemma distinct_cells_length l : (length (distinct_cells l) <= length l)%nat.
Proof.
  induction l as [|x l IH]; [simpl; lia|].
  destruct x; simpl; try lia;
    destruct (existsb _ l); simpl; lia.
Qed.

Lemma sum_between (vs : list Q) lo hi :
  (forall v, In v vs -> lo <= v <= hi) ->
  Qnat (length vs) * lo <= fold_right Qplus 0 vs
  /\ fold_right Qplus 0 vs <= Qnat (length vs) * hi.
Proof.
  induction vs as [|v vs IH]; intro H.
  - cbn [length fold_right]. change (Qnat 0) with 0. split; lra.
  - destruct IH as [IH1 IH2]; [intros w Hw; apply H; now right|].
    destruct (H v) as [Hlo Hhi]; [now left|].
    assert (E : Qnat (length (v :: vs)) == Qnat (length vs) + 1).
    { unfold Qnat. cbn [length].
      replace (Z.of_nat (S (length vs))) with (Z.of_nat (length vs) + 1)%Z
        by lia.
      rewrite inject_Z_plus. reflexivity. }
    cbn [fold_right]. rewrite E. split; lra.
Qed.

Lemma Qnat_positive n : (0 < n)%nat -> 0 < Qnat n.
Proof.
  intro H. unfold Qnat. change 0 with (inject_Z 0).
  rewrite <- Zlt_Qlt. lia.
Qed.

Lemma series_mean_nan s :
  series_mean s = NaN <-> forall d, In d s -> d = NaN.
Proof.
  unfold series_mean. split.
  - intros H [v|] Hd; [|reflexivity].
    apply in_dropna_values in Hd.
    destruct (dropna_values s); [destruct Hd|discriminate].
  - intro H. now rewrite dropna_all_missing.
Qed.

(** X26.  Each of the two mean durations that [get_summary_stats]
    reports is 0 for a frame without the column it is taken from (the
    standard duration, P60); for a frame with the column it is NaN
    exactly when no row has a value there, as on a frame without rows,
    and a number otherwise. *)
Theorem mean_durations_are_nan_without_values df :
  let stats := get_summary_stats df in
  (if has_column (columns df) "Durestd Inss min"
   then duracion_media_inss stats = NaN
        <-> forall r, In r (rows df) -> num r "Durestd Inss min" = NaN
   else duracion_media_inss stats = Some 0)
  /\ (if has_column (columns df) "P60min"
      then duracion_media_mutua stats = NaN
           <-> forall r, In r (rows df) -> num r "P60min" = NaN
      else duracion_media_mutua stats = Some 0).
Proof.
  intro stats. subst stats. unfold get_summary_stats.
  cbn [duracion_media_inss duracion_media_mutua].
  assert (Hcol : forall c,
             (forall d, In d (column df c) -> d = NaN)
             <-> forall r, In r (rows df) -> num r c = NaN).
  { intro c. unfold column. split.
    - intros H r Hr. apply H. exact (in_map (fun r0 => num r0 c) _ _ Hr).
    - intros H d Hd. apply in_map_iff in Hd. destruct Hd as (r & <- & Hr).
      now apply H. }
  split.
  - destruct (has_column (columns df) "Durestd Inss min"); [|reflexivity].
    now rewrite series_mean_nan, Hcol.
  - destruct (has_column (columns df) "P60min"); [|reflexivity].
    now rewrite series_mean_nan, Hcol.
Qed.

Lemma series_sum_at_least s lo :
  (forall x, In x s -> exists v, x = Some v /\ lo <= v) ->
  Qnat (length s) * lo <= series_sum s.
Proof.
  induction s as [|x s IH]; intro H.
  - unfold series_sum. cbn [length dropna_values fold_right].
    change (Qnat 0) with 0. lra.
  - destruct (H x) as (v & -> & Hv); [now left|].
    assert (IH' : Qnat (length s) * lo <= series_sum s)
      by (apply IH; intros y Hy; apply H; now right).
    assert (E : Qnat (length (Some v :: s)) == Qnat (length s) + 1).
    { unfold Qnat. cbn [length].
      replace (Z.of_nat (S (length s))) with (Z.of_nat (length s) + 1)%Z
        by lia.
      rewrite inject_Z_plus. reflexivity. }
    unfold series_sum in *. cbn [dropna_values fold_right]. rewrite E. lra.
Qed.

(** X27.  In the figures of [get_summary_stats], the number of distinct
    diagnoses never exceeds the number of records; and for a frame with
    the episode count in which every row has a count of at least 1, as
    the rows of the ingestion stage have, the total of episodes is at
    least the number of records. *)
Theorem summary_counts_are_consistent df :
  (diagnosticos_unicos (get_summary_stats df)
   <= total_registros (get_summary_stats df))%nat
  /\ (has_column (columns df) "Count Episodios" = true ->
      (forall r, In r (rows df) ->
                 exists c, num r "Count Episodios" = Some c /\ 1 <= c) ->
      Qnat (total_registros (get_summary_stats df))
      <= total_episodios (get_summary_stats df)).
Proof.
  unfold get_summary_stats.
  cbn [diagnosticos_unicos total_registros total_episodios]. split.
  - destruct (has_column (columns df) "Diagnóstico"); [|lia].
    unfold nunique_cells.
    rewrite <- (length_map (fun r => obj r "Diagnóstico") (rows df)).
    apply distinct_cells_length.
  - intros -> H.
    pose proof (@series_sum_at_least (column df "Count Episodios") 1) as Hs.
    unfold column in *. rewrite length_map in Hs.
    rewrite Qmult_1_r in Hs. apply Hs.
    intros x Hx. apply in_map_iff in Hx. destruct Hx as (r & <- & Hr).
    now apply H.
Qed.

Lemma summary_counts_are_consistent_witness :
  (diagnosticos_unicos (get_summary_stats three_cases) = 2)%nat
  /\ total_episodios (get_summary_stats three_cases) == 35
  /\ Qnat 3 <= total_episodios (get_summary_stats three_cases).
Proof.
  split; [reflexivity|]. split; [reflexivity|].
  destruct (summary_counts_are_consistent three_cases) as [_ H].
  apply H; [reflexivity|]. intros r Hr. simpl in Hr.
  destruct Hr as [<-|[<-|[<-|[]]]]; eexists; (split; [reflexivity|]);
    unfold Qle; simpl; lia.
Defined.

(** ** Sorting and age groups *)

Lemma categorical_spec categories c :
  categorical categories c = Blank
  \/ exists g, In g categories /\ c = Text g
               /\ categorical categories c = Text g.
Proof.
  destruct c as [|q|s]; simpl; auto.
  destruct (has_column categories s) eqn:E; [|now left].
  right. exists s. split; [now apply (has_column_in categories s)|now split].
Qed.

(** X28.  Whatever order [sort_values] gives (it keeps the columns and
    invents no row), every row of the frame that [_sort_data] returns
    comes from a row of the input with the same numeric cells and the
    same other cells, except that, on a frame with the column
    [Gr Edad 10], its age group is kept only if it is one of the five
    configured groups and is null otherwise. *)
Theorem sort_data_normalises_age_groups sort_values df df' :
  (forall by_ d d',
     sort_values by_ d = Ok d' ->
     columns d' = columns d /\ incl (rows d') (rows d)) ->
  _sort_data sort_values df = Ok df' ->
  columns df' = columns df
  /\ forall r',
       In r' (rows df') ->
       exists r,
         In r (rows df)
         /\ num r' = num r
         /\ (forall c, c <> "Gr Edad 10" -> obj r' c = obj r c)
         /\ (has_column (columns df) "Gr Edad 10" = false ->
             obj r' "Gr Edad 10" = obj r "Gr Edad 10")
         /\ (has_column (columns df) "Gr Edad 10" = true ->
             (exists g, In g Config.EDAD_ORDEN
                        /\ obj r "Gr Edad 10" = Text g
                        /\ obj r' "Gr Edad 10" = Text g)
             \/ ((forall g, In g Config.EDAD_ORDEN ->
                            obj r "Gr Edad 10" <> Text g)
                 /\ obj r' "Gr Edad 10" = Blank)).
Proof.
  intros Hsort. unfold _sort_data. cbv zeta.
  set (df1 := if has_column (columns df) "Gr Edad 10" then _ else df).
  assert (C1 : columns df1 = columns df)
    by (subst df1; now destruct (has_column _ _)).
  assert (R1 : forall r', In r' (rows df1) ->
             exists r,
               In r (rows df)
               /\ num r' = num r
               /\ (forall c, c <> "Gr Edad 10" -> obj r' c = obj r c)
               /\ (has_column (columns df) "Gr Edad 10" = false ->
                   obj r' "Gr Edad 10" = obj r "Gr Edad 10")
               /\ (has_column (columns df) "Gr Edad 10" = true ->
                   (exists g, In g Config.EDAD_ORDEN
                              /\ obj r "Gr Edad 10" = Text g
                              /\ obj r' "Gr Edad 10" = Text g)
                   \/ ((forall g, In g Config.EDAD_ORDEN ->
                                  obj r "Gr Edad 10" <> Text g)
                       /\ obj r' "Gr Edad 10" = Blank))).
  { subst df1. destruct (has_column (columns df) "Gr Edad 10") eqn:E;
      intros r' Hr'.
    - simpl in Hr'. apply in_map_iff in Hr'. destruct Hr' as (r & <- & Hr).
      exists r. split; [exact Hr|]. split; [reflexivity|]. split; [|split].
      + intros c Hc. simpl. apply String.eqb_neq in Hc. now rewrite Hc.
      + discriminate.
      + intros _.
        change (obj (set_obj r "Gr Edad 10"
                       (categorical Config.EDAD_ORDEN (obj r "Gr Edad 10")))
                    "Gr Edad 10")
          with (categorical Config.EDAD_ORDEN (obj r "Gr Edad 10")).
        destruct (categorical_spec Config.EDAD_ORDEN (obj r "Gr Edad 10"))
          as [Hc|(g & Hg & Ho & Hc)]; rewrite Hc.
        * right. split; [|reflexivity]. intros g Hg Ho.
          rewrite Ho in Hc. unfold categorical in Hc.
          apply (has_column_in Config.EDAD_ORDEN g) in Hg.
          rewrite Hg in Hc. discriminate.
        * left. exists g. now repeat split.
    - exists r'. repeat split; trivial. discriminate. }
  clearbody df1. destruct (negb _).
  - intro H. apply Hsort in H. destruct H as [Hc Hr].
    split; [congruence|]. intros r' Hr'. apply R1, Hr, Hr'.
  - intro H. injection H as <-. now split.
Qed.

Lemma sort_data_normalises_age_groups_witness :
  exists df',
    _sort_data sort_by_text age_samples = Ok df'
    /\ map (fun r => obj r "Gr Edad 10") (rows df')
       = [Text "36-45"; Blank; Blank].
Proof.
  eexists. split; [reflexivity|].
  destruct (@sort_data_normalises_age_groups sort_by_text age_samples _
              sort_by_text_rows eq_refl) as [_ H].
  reflexivity.
Defined.

(** ** Labels *)

Lemma not_text_placed x_left x_min x_max x_right cs :
  Forall not_text cs -> Forall (text_placed x_left x_min x_max x_right) cs.
Proof.
  apply Forall_impl. intros [ ] H; simpl in *; trivial. destruct H.
Qed.

Lemma percentile_bars_note_placed cmap row idx height cols x_min x_max :
  (forall v, In v (present_percentiles row cols) -> x_min <= v <= x_max) ->
  Forall (text_placed (x_min - 40) x_min x_max (x_max + 40))
         (calls (_create_percentile_bars cmap row idx height cols)).
Proof.
  intro Hin.
  destruct (Nat.lt_ge_cases (length (present_percentiles row cols)) 2)
    as [Hfew|Hmany].
  - rewrite create_percentile_bars_few by exact Hfew. constructor.
  - destruct (sin_variacion row) eqn:Hc.
    + rewrite create_percentile_bars_constant by assumption.
      destruct (present_percentiles row cols) as [|p0 ps];
        [simpl in Hmany; lia|].
      destruct (Hin p0) as [H1 H2]; [now left|].
      constructor; [exact I|]. constructor; [|constructor].
      simpl. right. right. repeat split; trivial; lra.
    + rewrite create_percentile_bars_varying by assumption.
      unfold calls, fst. apply Forall_forall. intros c Hc'.
      apply in_map_iff in Hc'. now destruct Hc' as (ab & <- & _).
Qed.

Lemma labels_in_margin str_float row idx x_min x_max :
  Forall (text_placed (x_min - 40) x_min x_max (x_max + 40))
         (calls (_add_labels str_float row idx x_min x_max
                             Config.LEFT_MARGIN Config.RIGHT_MARGIN)).
Proof.
  change Config.LEFT_MARGIN with 40. change Config.RIGHT_MARGIN with 40.
  unfold _add_labels. proper_calls;
    apply Forall_emit; simpl; [left|right; left]; repeat split; lra.
Qed.

(** X29.  In a drawn chart every text is anchored inside the x-limits.
    The labels are in the margins, outside the range of the percentile
    values: the diagnosis labels right aligned between the lower limit
    and the least value, the case labels left aligned between the
    greatest value and the upper limit.  The only other text is the note
    of a flat record, right of the least value and at most one unit
    right of the greatest. *)
Theorem texts_are_anchored_in_place cmap str_float tight_layout df :
  returns_figure (create_comparative_chart cmap str_float tight_layout df)
  = true ->
  exists x_min x_max rest,
    frame_min df (available_cols df) = Some x_min
    /\ frame_max df (available_cols df) = Some x_max
    /\ ax_calls (create_comparative_chart cmap str_float tight_layout df)
       = set_xlim (x_min - 40) (x_max + 40) :: rest
    /\ Forall (text_placed (x_min - 40) x_min x_max (x_max + 40)) rest.
Proof.
  intro Hfig.
  destruct (@chart_drawn_cases cmap str_float tight_layout df Hfig)
    as (x_min & x_max & He & Hav & Hmin & Hmax).
  destruct (@frame_min_least _ _ _ Hmin) as [Hlo _].
  destruct (@frame_max_greatest _ _ _ Hmax) as [Hhi _].
  exists x_min, x_max. eexists. split; [exact Hmin|]. split; [exact Hmax|].
  split.
  - rewrite (@ax_calls_drawn cmap str_float tight_layout df _ _
               He Hav Hmin Hmax).
    reflexivity.
  - apply Forall_app. split.
    + apply Forall_flat_map, Forall_forall. intros [idx row] Hir.
      apply enumerate_in, iterrows_nth in Hir. destruct Hir as [_ Hrow].
      apply nth_error_In in Hrow.
      unfold row_calls. rewrite !Forall_app. cbn [fst snd]. split; [|split].
      * apply percentile_bars_note_placed. intros v Hv.
        apply in_present_percentiles in Hv. destruct Hv as (c & Hc & Hv).
        split; [eapply Hlo|eapply Hhi]; eassumption.
      * apply not_text_placed. unfold _add_inss_lines. proper_calls.
      * apply labels_in_margin.
    + constructor; [exact I|]. apply Forall_app. split.
      * apply not_text_placed.
        unfold _add_diagnosis_shading, shade. proper_calls.
      * repeat constructor.
Qed.

Lemma texts_are_anchored_in_place_witness :
  returns_figure (create_comparative_chart sample_cmap sample_str_float
                                            sample_tight_layout three_cases)
  = true
  /\ exists x_min x_max rest,
       frame_min three_cases (available_cols three_cases) = Some x_min
       /\ frame_max three_cases (available_cols three_cases) = Some x_max
       /\ ax_calls (create_comparative_chart sample_cmap sample_str_float
                                              sample_tight_layout three_cases)
          = set_xlim (x_min - 40) (x_max + 40) :: rest
       /\ Forall (text_placed (x_min - 40) x_min x_max (x_max + 40)) rest.
Proof.
  split; [reflexivity|].
  exact (@texts_are_anchored_in_place sample_cmap sample_str_float
           sample_tight_layout three_cases eq_refl).
Defined.

Lemma py_int_integer_part c : 0 <= c -> integer_part c (py_int c).
Proof.
  intro Hc. unfold integer_part, py_int.
  assert (Hn : (0 <= Qnum c)%Z).
  { unfold Qle in Hc. simpl in Hc. lia. }
  rewrite Z.quot_div_nonneg by lia.
  change (Qnum c / Z.pos (Qden c))%Z with (Qfloor (Qnum c # Qden c)).
  replace (Qnum c # Qden c) with c by now destruct c.
  split; [apply Qfloor_le|].
  eapply Qlt_le_trans; [apply Qlt_floor|].
  rewrite inject_Z_plus. apply Qle_refl.
Qed.

(** X30.  For a row with a diagnosis, a case and an episode count that
    is not negative, [_add_labels] writes two labels on the slot of the
    row: the diagnosis, and the case followed by the integer part of the
    count in brackets (the bracket alone when the case is the empty
    string). *)
Theorem labels_show_case_and_count str_float row idx x_min x_max lm rm c :
  has_column (index row) "Diagnóstico" = true ->
  has_column (index row) "Caso" = true ->
  has_column (index row) "Count Episodios" = true ->
  num (values row) "Count Episodios" = Some c ->
  0 <= c ->
  exists k,
    integer_part c k
    /\ calls (_add_labels str_float row idx x_min x_max lm rm)
       = [ text (x_min - lm + 2) idx (obj (values row) "Diagnóstico")
                (Some "right") None;
           text (x_max + 5) idx
                (Text (let caso := str_cell str_float
                                            (obj (values row) "Caso") in
                       if String.eqb caso ""
                       then ("(" ++ str_int k ++ ")")%string
                       else (caso ++ " (" ++ str_int k ++ ")")%string))
                (Some "left") None ].
Proof.
  intros Hd Hcaso Hcount Hc Hpos. exists (py_int c).
  split; [now apply py_int_integer_part|].
  unfold _add_labels. rewrite Hd, Hcaso, Hcount, Hc. cbv zeta.
  set (caso := str_cell str_float (obj (values row) "Caso")).
  set (k := str_int (py_int c)). clearbody k.
  destruct (String.eqb caso "") eqn:E.
  - reflexivity.
  - destruct caso as [|a s]; [discriminate|]. reflexivity.
Qed.

Lemma labels_show_case_and_count_witness :
  exists k,
    integer_part (5 # 2) k
    /\ calls (_add_labels sample_str_float label_sample 0
                          10 60 40 40)
       = [ text (10 - 40 + 2) 0 (Text "Lumbalgia") (Some "right") None;
           text (60 + 5) 0
                (Text (if String.eqb "C001" ""
                       then ("(" ++ str_int k ++ ")")%string
                       else ("C001" ++ " (" ++ str_int k ++ ")")%string))
                (Some "left") None ].
Proof.
  apply (@labels_show_case_and_count sample_str_float
           label_sample 0%nat 10 60 40 40 (5 # 2));
    try reflexivity.
  unfold Qle. simpl. lia.
Defined.

